(** * cncr_wdg: the concurrency watchdog

    A shallow embedding of [src/cncr_wdg/_watchdog.py].  The class
    [Watchdog] couples three things: process-wide signal handlers, a
    monitor thread polling a list of probes, and two lists of teardown
    callables.  Every method is written here as a computation in a state
    and exception monad over one record holding the instance attributes
    together with the part of the surrounding process the methods touch
    (handler table, logger output, the state the callables act on). *)

From stdpp Require Import base list gmap strings pretty.
From Stdlib Require Import ZArith NArith Ascii String Lia.

Open Scope Z_scope.
Open Scope string_scope.
Open Scope list_scope.

(** ** Text helpers: [get_exception_str] *)

Module Text.

(** A Python [str]: the sequence of its code points. *)
Definition str := list N.

(** A literal, every character read as its code point. *)
Definition of_string (s : string) : str :=
  N_of_ascii <$> list_ascii_of_string s.

Definition newline : N := 10%N.
Definition blank : N := 32%N.

(** A line as [traceback.format_exception_only] gives it: the text and
    the line break that ends it. *)
Definition line (s : string) : str := of_string s ++ [newline].

(** The code points [str.strip] takes for white space: U+0009-U+000D,
    U+001C-U+0020, U+0085, U+00A0, U+1680, U+2000-U+200A, U+2028,
    U+2029, U+202F, U+205F and U+3000. *)
Definition isspace (c : N) : bool :=
  (((9 <=? c) && (c <=? 13)) || ((28 <=? c) && (c <=? 32))
   || (c =? 133) || (c =? 160) || (c =? 5760)
   || ((8192 <=? c) && (c <=? 8202)) || (c =? 8232) || (c =? 8233)
   || (c =? 8239) || (c =? 8287) || (c =? 12288))%N.

Fixpoint lstrip (s : str) : str :=
  match s with
  | c :: s' => if isspace c then lstrip s' else s
  | [] => []
  end.

Fixpoint rstrip (s : str) : str :=
  match s with
  | c :: s' =>
      match rstrip s' with
      | [] => if isspace c then [] else [c]
      | r => c :: r
      end
  | [] => []
  end.

(** [item.strip()] *)
Definition strip (s : str) : str := rstrip (lstrip s).

(** [item.replace("\n", " ")] *)
Definition replace_newlines (s : str) : str :=
  (fun c => if (c =? newline)%N then blank else c) <$> s.

End Text.

(** ** Exceptions and callables *)

(** A Python exception object, reduced to what the watchdog looks at:
    whether it is an instance of [Exception] (the [except Exception]
    clauses let everything else through: [SystemExit],
    [KeyboardInterrupt], ...) and the lines
    [traceback.format_exception_only(type(ex), ex)] produces for it. *)
Record exc := Exc {
  exc_is_Exception : bool;
  exc_format : list Text.str
}.

(** [get_exception_str(ex)] *)
Definition get_exception_str (ex : exc) : list Text.str :=
  map (fun item => Text.replace_newlines (Text.strip item)) (exc_format ex).

(** The interpreter's own errors the methods can run into. *)
Definition TypeError_not_iterable : exc :=
  Exc true [Text.line "TypeError: 'NoneType' object is not iterable"].
Definition ValueError_not_a_signal (n : Z) : exc :=
  Exc true
    [Text.line ("ValueError: " +:+ pretty n +:+ " is not a valid Signals")].
Definition RuntimeError_join_unstarted : exc :=
  Exc true [Text.line "RuntimeError: cannot join thread before it is started"].
Definition RuntimeError_started_twice : exc :=
  Exc true [Text.line "RuntimeError: threads can only be started once"].

(** How a call of a callable ends: with a value, of which only the truth
    value is ever looked at, or with an exception. *)
Inductive outcome :=
| Returns (truthy : bool)
| Raises (ex : exc).

(** Which of the two execution contexts runs a piece of code. *)
Inductive context := MainThread | MonitorThread.

(** What the [signal] module of the platform provides.  [SIGABRT] is the
    number the monitor uses as cause of a failed probe, [Signals n] is
    the name [signal.Signals(n).name] ([None] when the enum has no such
    member and the lookup raises [ValueError]), and [signal_signal ctx n]
    tells whether [signal.signal(n, handler)] called from [ctx] installs
    the handler ([None]) or raises. *)
Class Platform := {
  SIGABRT : Z;
  Signals : Z -> option string;
  signal_signal : context -> Z -> option exc;
  Signals_SIGABRT : Signals SIGABRT = Some "SIGABRT"
}.

(** The three lists of callables of a watchdog. *)
Inductive kind := MonitorCallable | ShutdownCallable | JoinCallable.

(** Logger calls, one constructor per format string of the source. *)
Inductive message :=
| Caught (name : string)
| InitiatingShutdown
| CallableFailed (k : kind) (reason : list Text.str) (callable : string)
| ShutdownComplete.

Inductive level := INFO | WARNING | ERROR.

(** Effects a run leaves behind, oldest first. *)
Inductive event :=
| Log (lvl : level) (msg : message)
| Call (k : kind) (callable : string) (o : outcome)
| SleeperSet
| Block (timeout : option Z)
| Install (ctx : context) (num : Z)
| ThreadExit (uncaught : option exc).

Inductive thread_state := Initial | Started | Stopped.

#[global] Instance kind_eq_dec : EqDecision kind.
Proof. solve_decision. Defined.
#[global] Instance level_eq_dec : EqDecision level.
Proof. solve_decision. Defined.
#[global] Instance context_eq_dec : EqDecision context.
Proof. solve_decision. Defined.

(** How a computation ends: normally, with a raised exception, or not at
    all ([Stuck]: blocked for good, or still running when the bound on
    the number of polling rounds is used up). *)
Inductive result (A : Type) :=
| Ok (a : A)
| Raise (ex : exc)
| Stuck.
Arguments Ok {A} a.
Arguments Raise {A} ex.
Arguments Stuck {A}.

(** ** List objects

    The lists of callables as the objects they are in the source.  An
    attribute holds [None] or a reference to a list object; [=] stores
    the reference it is given, [+=] extends the object the attribute
    refers to, in place, with the elements of its argument. *)
Module Shared.

Section Lists.

Context {A : Type}.

Definition contents (store : gmap nat (list A)) (ref : nat) : list A :=
  default [] (store !! ref).

(** The list an attribute stands for. *)
Definition view (attr : option nat) (store : gmap nat (list A))
  : option (list A) :=
  contents store <$> attr.

(** [if self.__callables: self.__callables += callables
     else: self.__callables = callables], the body of both
    [register_shutdown_callables] and [register_monitor_callables], with
    [callables] the list object [arg]. *)
Definition register (arg : nat) (attr : option nat)
    (store : gmap nat (list A)) : option nat * gmap nat (list A) :=
  match attr with
  | Some ref =>
      match contents store ref with
      | _ :: _ =>
          (Some ref,
           <[ref := contents store ref ++ contents store arg]> store)
      | [] => (Some arg, store)
      end
  | None => (Some arg, store)
  end.

End Lists.

Arguments view {A} attr store : simpl never.

End Shared.

(** ** The watchdog and the process around it *)

Section Watchdog.

Context {World : Type} `{Platform}.

(** A callable handed to the watchdog: [c_repr] is what [f"{func}"]
    prints, [c_call] what calling it does to the state it closes over. *)
Record callable := Callable {
  c_repr : string;
  c_call : World -> outcome * World
}.

(** The instance attributes set by [__init__].  The three lists of
    callables are list objects of the caller: [lists] holds the list
    objects there are, by reference, and each of the three attributes
    holds [None] or one of these references, so that two attributes, or
    an attribute and a later argument, can be the same object. *)
Record Watchdog := {
  lists : gmap nat (list callable);
  monitor_ref : option nat;
  shutdown_ref : option nat;
  join_ref : option nat;
  monitor_delay : Z;
  shutdown_signals : list Z;
  start_delay : option Z;
  thread : thread_state;
  sleeper : bool;
  signal : option Z;
  stop : bool
}.

(** What the attributes stand for: [self.__monitor_callables],
    [self.__shutdown_callables] and [self.__join_callables] read as
    [None] or the elements of the list object. *)
Local Abbreviation monitor_callables w :=
  (Shared.view (monitor_ref w) (lists w)).
Local Abbreviation shutdown_callables w :=
  (Shared.view (shutdown_ref w) (lists w)).
Local Abbreviation join_callables w :=
  (Shared.view (join_ref w) (lists w)).

(** The instance together with the process state its methods reach:
    the state of the callables, the numbers whose handler is
    [__handle_shutdown], what has happened so far, and the signals still
    to be delivered to the main thread, one batch per point at which the
    monitor thread can be overtaken. *)
Record system := {
  self : Watchdog;
  world : World;
  handlers : gset Z;
  trace : list event;
  pending : list (list Z)
}.

Definition with_self (f : Watchdog -> Watchdog) (st : system) : system :=
  {| self := f (self st); world := world st; handlers := handlers st;
     trace := trace st; pending := pending st |}.

Definition with_world (w : World) (st : system) : system :=
  {| self := self st; world := w; handlers := handlers st;
     trace := trace st; pending := pending st |}.

Definition with_handlers (h : gset Z) (st : system) : system :=
  {| self := self st; world := world st; handlers := h;
     trace := trace st; pending := pending st |}.

Definition with_pending (p : list (list Z)) (st : system) : system :=
  {| self := self st; world := world st; handlers := handlers st;
     trace := trace st; pending := p |}.

(** The state after the events [d] have happened. *)
Definition record (d : list event) (st : system) : system :=
  {| self := self st; world := world st; handlers := handlers st;
     trace := trace st ++ d; pending := pending st |}.

Definition set_signal (v : option Z) (w : Watchdog) : Watchdog :=
  {| lists := lists w; monitor_ref := monitor_ref w;
     shutdown_ref := shutdown_ref w; join_ref := join_ref w;
     monitor_delay := monitor_delay w;
     shutdown_signals := shutdown_signals w; start_delay := start_delay w;
     thread := thread w; sleeper := sleeper w; signal := v; stop := stop w |}.

Definition set_sleeper (v : bool) (w : Watchdog) : Watchdog :=
  {| lists := lists w; monitor_ref := monitor_ref w;
     shutdown_ref := shutdown_ref w; join_ref := join_ref w;
     monitor_delay := monitor_delay w;
     shutdown_signals := shutdown_signals w; start_delay := start_delay w;
     thread := thread w; sleeper := v; signal := signal w; stop := stop w |}.

Definition set_thread (v : thread_state) (w : Watchdog) : Watchdog :=
  {| lists := lists w; monitor_ref := monitor_ref w;
     shutdown_ref := shutdown_ref w; join_ref := join_ref w;
     monitor_delay := monitor_delay w;
     shutdown_signals := shutdown_signals w; start_delay := start_delay w;
     thread := v; sleeper := sleeper w; signal := signal w; stop := stop w |}.

Definition set_start_delay (v : option Z) (w : Watchdog) : Watchdog :=
  {| lists := lists w; monitor_ref := monitor_ref w;
     shutdown_ref := shutdown_ref w; join_ref := join_ref w;
     monitor_delay := monitor_delay w;
     shutdown_signals := shutdown_signals w; start_delay := v;
     thread := thread w; sleeper := sleeper w; signal := signal w;
     stop := stop w |}.

Definition set_shutdown_signals (v : list Z) (w : Watchdog) : Watchdog :=
  {| lists := lists w; monitor_ref := monitor_ref w;
     shutdown_ref := shutdown_ref w; join_ref := join_ref w;
     monitor_delay := monitor_delay w;
     shutdown_signals := v; start_delay := start_delay w;
     thread := thread w; sleeper := sleeper w; signal := signal w;
     stop := stop w |}.

Definition set_shutdown_ref (v : option nat) (w : Watchdog) : Watchdog :=
  {| lists := lists w; monitor_ref := monitor_ref w;
     shutdown_ref := v; join_ref := join_ref w;
     monitor_delay := monitor_delay w;
     shutdown_signals := shutdown_signals w; start_delay := start_delay w;
     thread := thread w; sleeper := sleeper w; signal := signal w;
     stop := stop w |}.

Definition set_monitor_ref (v : option nat) (w : Watchdog) : Watchdog :=
  {| lists := lists w; monitor_ref := v;
     shutdown_ref := shutdown_ref w; join_ref := join_ref w;
     monitor_delay := monitor_delay w;
     shutdown_signals := shutdown_signals w; start_delay := start_delay w;
     thread := thread w; sleeper := sleeper w; signal := signal w;
     stop := stop w |}.

Definition set_lists (v : gmap nat (list callable)) (w : Watchdog)
  : Watchdog :=
  {| lists := v; monitor_ref := monitor_ref w;
     shutdown_ref := shutdown_ref w; join_ref := join_ref w;
     monitor_delay := monitor_delay w;
     shutdown_signals := shutdown_signals w; start_delay := start_delay w;
     thread := thread w; sleeper := sleeper w; signal := signal w;
     stop := stop w |}.

(** [target += callables] on list objects: the elements of the object
    [arg] are appended to the object [ref], in place. *)
Definition iadd (ref arg : nat) (w : Watchdog) : Watchdog :=
  set_lists
    (<[ref := Shared.contents (lists w) ref ++ Shared.contents (lists w) arg]>
       (lists w))
    w.

(** ** The monad of methods *)

(** What a computation did to the state before raising stays done. *)
Definition M (A : Type) : Type := system -> result A * system.

Definition ret {A} (a : A) : M A := fun st => (Ok a, st).

Definition bind {A B} (m : M A) (k : A -> M B) : M B :=
  fun st =>
    match m st with
    | (Ok a, st') => k a st'
    | (Raise ex, st') => (Raise ex, st')
    | (Stuck, st') => (Stuck, st')
    end.

Definition raise {A} (ex : exc) : M A := fun st => (Raise ex, st).
Definition stuck {A} : M A := fun st => (Stuck, st).
Definition gets {A} (f : Watchdog -> A) : M A := fun st => (Ok (f (self st)), st).
Definition update (f : Watchdog -> Watchdog) : M unit :=
  fun st => (Ok tt, with_self f st).

Definition emit (e : event) : M unit := fun st => (Ok tt, record [e] st).

(** [try: body  except Exception as ex: handler(ex)] *)
Definition try_except {A} (body : M A) (handler : exc -> M A) : M A :=
  fun st =>
    match body st with
    | (Raise ex, st') =>
        if exc_is_Exception ex then handler ex st' else (Raise ex, st')
    | r => r
    end.

Notation "x <~ m ; k" := (bind m (fun x => k))
  (at level 20, m at level 100, k at level 200, only parsing).
Notation "m ;> k" := (bind m (fun _ => k))
  (at level 100, k at level 200, right associativity, only parsing).

Definition log (lvl : level) (msg : message) : M unit := emit (Log lvl msg).

(** [func()]: the callable acts on its state, and the call is recorded
    with the way it ended. *)
Definition call (k : kind) (func : callable) : M bool :=
  fun st =>
    let (o, w) := c_call func (world st) in
    let st' := record [Call k (c_repr func) o] (with_world w st) in
    match o with
    | Returns b => (Ok b, st')
    | Raises ex => (Raise ex, st')
    end.

(** The loops of lines 64-68 and 111-115: every callable inside its own
    [try], the [except Exception] branch logging the failure. *)
Fixpoint run_callables (k : kind) (funcs : list callable) : M unit :=
  match funcs with
  | [] => ret tt
  | func :: rest =>
      try_except
        (call k func ;> ret tt)
        (fun ex =>
           log ERROR (CallableFailed k (get_exception_str ex) (c_repr func))) ;>
      run_callables k rest
  end.

(** [self.__sleeper.set()] *)
Definition sleeper_set : M unit := update (set_sleeper true) ;> emit SleeperSet.

(** [signal.Signals(sig_num).name] *)
Definition signal_name (sig_num : Z) : M string :=
  match Signals sig_num with
  | Some name => ret name
  | None => raise (ValueError_not_a_signal sig_num)
  end.

(** [Watchdog.__handle_shutdown(sig_num, stack_frame)], run as one
    uninterrupted step. *)
Definition handle_shutdown (sig_num : Z) : M unit :=
  s <~ gets signal;
  match s with
  | None =>
      update (set_signal (Some sig_num)) ;>
      sleeper_set ;>
      name <~ signal_name sig_num;
      log WARNING (Caught name) ;>
      sc <~ gets (fun w => shutdown_callables w);
      match sc with
      | Some ((_ :: _) as funcs) =>
          log INFO InitiatingShutdown ;>
          run_callables ShutdownCallable funcs
      | _ => ret tt
      end
  | Some _ => ret tt
  end.

(** [signal.signal(num, self.__handle_shutdown)] called from [ctx]. *)
Definition install (ctx : context) (num : Z) : M unit :=
  fun st =>
    match signal_signal ctx num with
    | Some ex => (Raise ex, st)
    | None =>
        (Ok tt, record [Install ctx num]
                  (with_handlers ({[num]} ∪ handlers st) st))
    end.

(** [Watchdog.register_shutdown_signals(sig_nums)] called from [ctx]. *)
Fixpoint register_shutdown_signals (ctx : context) (sig_nums : list Z)
  : M unit :=
  match sig_nums with
  | [] => ret tt
  | num :: rest =>
      ss <~ gets shutdown_signals;
      (if bool_decide (num ∈ ss) then ret tt
       else install ctx num ;> update (set_shutdown_signals (ss ++ [num]))) ;>
      register_shutdown_signals ctx rest
  end.

(** Truth value of an optional list: [None] and [[]] are false. *)
Definition truthy {A} (l : option (list A)) : bool :=
  match l with
  | Some (_ :: _) => true
  | _ => false
  end.

(** [Watchdog.register_shutdown_callables(callables)], with [callables]
    a list object of the caller.  A list that is there and not empty is
    extended in place by [+=]; otherwise [=] makes the attribute refer
    to the object given. *)
Definition register_shutdown_callables (callables : nat) : M unit :=
  sc <~ gets (fun w => shutdown_callables w);
  attr <~ gets shutdown_ref;
  match attr with
  | Some ref =>
      if truthy sc then update (iadd ref callables)
      else update (set_shutdown_ref (Some callables))
  | None => update (set_shutdown_ref (Some callables))
  end.

(** [Watchdog.register_monitor_callables(callables)] *)
Definition register_monitor_callables (callables : nat) : M unit :=
  mc <~ gets (fun w => monitor_callables w);
  attr <~ gets monitor_ref;
  match attr with
  | Some ref =>
      if truthy mc then update (iadd ref callables)
      else update (set_monitor_ref (Some callables))
  | None => update (set_monitor_ref (Some callables))
  end.

(** [Watchdog.__init__], building the instance inside a process in
    which the list objects [objects] exist, whose callables are in state
    [w], with handler table [h] and signals [p] to come.  The three
    list arguments are [None] or references to list objects, stored as
    they are.  The logger argument only selects where the records of
    [trace] go. *)
Definition init (ctx : context) (objects : gmap nat (list callable))
    (monitor_callables0 shutdown_callables0 join_callables0 : option nat)
    (shutdown_signals0 : option (list Z)) (monitor_delay0 : Z)
    (w : World) (h : gset Z) (p : list (list Z)) : result unit * system :=
  let st :=
    {| self := {| lists := objects;
                  monitor_ref := monitor_callables0;
                  shutdown_ref := shutdown_callables0;
                  join_ref := join_callables0;
                  monitor_delay := monitor_delay0;
                  shutdown_signals := [];
                  start_delay := None;
                  thread := Initial;
                  sleeper := false;
                  signal := None;
                  stop := false |};
       world := w; handlers := h; trace := []; pending := p |} in
  if truthy shutdown_signals0
  then register_shutdown_signals ctx (default [] shutdown_signals0) st
  else (Ok tt, st).

(** ** Signals arriving while the monitor thread runs

    A delivered signal whose handler is [__handle_shutdown] runs the
    handler in the main thread; what the handler raises goes to whatever
    the main thread was doing, not to the monitor.  Signals with another
    disposition are outside this model. *)
Definition deliver (num : Z) : M unit :=
  fun st =>
    if bool_decide (num ∈ handlers st)
    then (Ok tt, (handle_shutdown num st).2)
    else (Ok tt, st).

Fixpoint deliver_all (nums : list Z) : M unit :=
  match nums with
  | [] => ret tt
  | num :: rest => deliver num ;> deliver_all rest
  end.

(** A point at which the main thread may run handlers before the monitor
    thread goes on: the next batch of [pending] is delivered. *)
Definition yield : M unit :=
  fun st =>
    match pending st with
    | [] => (Ok tt, st)
    | batch :: rest => deliver_all batch (with_pending rest st)
    end.

(** What a wait on a clear event leaves in the trace: it blocks unless
    the timeout is zero or negative. *)
Definition block_events (timeout : option Z) : list event :=
  match timeout with
  | Some t => if bool_decide (0 < t) then [Block timeout] else []
  | None => [Block timeout]
  end.

(** [self.__sleeper.wait(timeout)].  The event is level-triggered: when
    it is set the call returns at once.  Otherwise the thread blocks for
    a positive or absent timeout, the batch delivered meanwhile either
    sets the event or not, and without a timeout an event that stays
    clear is waited for without end. *)
Definition sleeper_wait (timeout : option Z) : M bool :=
  s <~ gets sleeper;
  if s then ret true
  else
    (fun st => (Ok tt, record (block_events timeout) st)) ;>
    yield ;>
    s' <~ gets sleeper;
    if s' then ret true
    else match timeout with
         | Some _ => ret false
         | None => stuck
         end.

(** ** The monitor thread *)

(** Lines 79-84, the [try] statement for one probe; the result tells
    whether the [for] loop is left by [break].  The main thread may run
    handlers while the probe runs, that is, before line 81. *)
Definition probe (func : callable) : M bool :=
  try_except
    (healthy <~ call MonitorCallable func;
     if healthy then ret false
     else yield ;> handle_shutdown SIGABRT ;> ret true)
    (fun ex =>
       log ERROR (CallableFailed MonitorCallable (get_exception_str ex)
                    (c_repr func)) ;>
       ret false).

(** Lines 76-84, one pass of [for func in self.__monitor_callables].
    The main thread may also run handlers before the test of line 77 and
    between that test and the call of line 80. *)
Fixpoint monitor_round (funcs : list callable) : M unit :=
  match funcs with
  | [] => ret tt
  | func :: rest =>
      yield ;>
      s <~ gets signal;
      match s with
      | Some _ => ret tt
      | None =>
          yield ;>
          stop_round <~ probe func;
          if stop_round then ret tt else monitor_round rest
      end
  end.

(** Lines 75-85, [while self.__signal is None], for at most [rounds]
    passes. *)
Fixpoint monitor_loop (rounds : nat) : M unit :=
  yield ;>
  s <~ gets signal;
  match s with
  | Some _ => ret tt
  | None =>
      match rounds with
      | O => stuck
      | S rounds' =>
          mc <~ gets (fun w => monitor_callables w);
          match mc with
          | None => raise TypeError_not_iterable
          | Some funcs =>
              monitor_round funcs ;>
              d <~ gets monitor_delay;
              sleeper_wait (Some d) ;>
              monitor_loop rounds'
          end
      end
  end.

(** Lines 73-74. *)
Definition ensure_sentinel : M unit :=
  ss <~ gets shutdown_signals;
  if bool_decide (SIGABRT ∈ ss) then ret tt
  else register_shutdown_signals MonitorThread [SIGABRT].

(** [Watchdog.__monitor], the target of the thread. *)
Definition monitor (rounds : nat) : M unit :=
  d <~ gets start_delay;
  sleeper_wait d ;>
  yield ;>
  s <~ gets signal;
  match s with
  | Some _ => ret tt
  | None => ensure_sentinel ;> monitor_loop rounds
  end.

(** [Watchdog.start(delay)] *)
Definition start (delay : option Z) : M unit :=
  update (set_start_delay delay) ;>
  t <~ gets thread;
  match t with
  | Initial => update (set_thread Started)
  | _ => raise RuntimeError_started_twice
  end.

(** The thread is over: its target returned, or raised [uncaught]. *)
Definition thread_exit (uncaught : option exc) : M unit :=
  update (set_thread Stopped) ;> emit (ThreadExit uncaught).

(** The life of the thread object: once started it runs [__monitor]; when
    that returns or raises the thread is over. *)
Definition thread_run (rounds : nat) (st : system) : system :=
  match thread (self st) with
  | Started =>
      match monitor rounds st with
      | (Ok _, st') => (thread_exit None st').2
      | (Raise ex, st') => (thread_exit (Some ex) st').2
      | (Stuck, st') => st'
      end
  | _ => st
  end.

(** A signal delivered while the main thread is inside a call it made:
    the handler, where installed, runs inside that call, and what it
    raises leaves the call. *)
Definition interrupt (num : Z) : M unit :=
  fun st =>
    if bool_decide (num ∈ handlers st) then handle_shutdown num st
    else (Ok tt, st).

(** What is still to come when [rest] of the current batch is. *)
Definition remaining (rest : list Z) (later : list (list Z))
  : list (list Z) :=
  match rest with
  | [] => later
  | _ => rest :: later
  end.

(** The batch at the head of [pending], one signal after the other; when
    a handler raises, the signals not yet delivered stay pending. *)
Fixpoint interrupt_all (nums : list Z) (later : list (list Z)) : M unit :=
  match nums with
  | [] => fun st => (Ok tt, with_pending later st)
  | num :: rest =>
      (fun st => interrupt num (with_pending (remaining rest later) st)) ;>
      interrupt_all rest later
  end.

Definition interrupts : M unit :=
  fun st =>
    match pending st with
    | [] => (Ok tt, st)
    | batch :: later => interrupt_all batch later st
    end.

(** [self.__thread.join()]: an error before [start]; with the thread
    over it returns at once; with the thread running the main thread
    waits, the signals that arrive meanwhile run their handler there,
    what a handler raises leaves the wait, and otherwise the wait goes
    on as long as the thread is running. *)
Definition thread_join : M unit :=
  t <~ gets thread;
  match t with
  | Initial => raise RuntimeError_join_unstarted
  | Started => interrupts ;> stuck
  | Stopped => ret tt
  end.

(** [Watchdog.join()] *)
Definition join : M unit :=
  thread_join ;>
  jc <~ gets (fun w => join_callables w);
  match jc with
  | None => raise TypeError_not_iterable
  | Some funcs => run_callables JoinCallable funcs
  end ;>
  log INFO ShutdownComplete.

(** ** [__handle_shutdown] statement by statement

    The method is not a single step of the interpreter: another
    activation (a handler for a second signal, or the call of line 81 in
    the monitor thread) can run between any two of its statements.  An
    activation is where it stands in the method; [hs_step] executes the
    statement there. *)
Inductive hs_pc :=
| L58                                (* if self.__signal is None: *)
| L59                                (* self.__signal = sig_num *)
| L60                                (* self.__sleeper.set() *)
| L61                                (* self.__logger.warning(...) *)
| L62                                (* if self.__shutdown_callables: *)
| L63                                (* self.__logger.info(...) *)
| L64 (remaining : list callable)    (* for func in ...: try/except *)
| Returned
| Raised (ex : exc).

Definition hs_step (sig_num : Z) (pc : hs_pc) (st : system) : hs_pc * system :=
  match pc with
  | L58 =>
      match signal (self st) with
      | None => (L59, st)
      | Some _ => (Returned, st)
      end
  | L59 => (L60, with_self (set_signal (Some sig_num)) st)
  | L60 => (L61, (sleeper_set st).2)
  | L61 =>
      match (name <~ signal_name sig_num; log WARNING (Caught name)) st with
      | (Raise ex, st') => (Raised ex, st')
      | (_, st') => (L62, st')
      end
  | L62 => (if truthy (shutdown_callables (self st)) then L63 else Returned, st)
  | L63 =>
      (L64 (default [] (shutdown_callables (self st))),
       (log INFO InitiatingShutdown st).2)
  | L64 [] => (Returned, st)
  | L64 (func :: rest) =>
      match run_callables ShutdownCallable [func] st with
      | (Raise ex, st') => (Raised ex, st')
      | (_, st') => (L64 rest, st')
      end
  | Returned => (Returned, st)
  | Raised ex => (Raised ex, st)
  end.

(** One activation run for [n] statements without interruption. *)
Fixpoint hs_exec (n : nat) (sig_num : Z) (pc : hs_pc) (st : system)
  : hs_pc * system :=
  match n with
  | O => (pc, st)
  | S n' => let (pc', st') := hs_step sig_num pc st in hs_exec n' sig_num pc' st'
  end.

(** Where an activation stands when the method has ended with [r]. *)
Definition pc_of (r : result unit) : hs_pc :=
  match r with
  | Raise ex => Raised ex
  | _ => Returned
  end.

(** Several activations over the same instance, and a schedule naming
    which of them executes its next statement. *)
Definition activations := list (Z * hs_pc).

Definition step_activation (i : nat) (acts : activations) (st : system)
  : activations * system :=
  match acts !! i with
  | Some (sig_num, pc) =>
      let (pc', st') := hs_step sig_num pc st in
      (<[i := (sig_num, pc')]> acts, st')
  | None => (acts, st)
  end.

Fixpoint run_schedule (schedule : list nat) (acts : activations) (st : system)
  : activations * system :=
  match schedule with
  | [] => (acts, st)
  | i :: schedule' =>
      let (acts', st') := step_activation i acts st in
      run_schedule schedule' acts' st'
  end.

(** ** Reading a trace *)

(** The events of a trace that [f] selects, in order. *)
Fixpoint pick {A} (f : event -> option A) (tr : list event) : list A :=
  match tr with
  | [] => []
  | e :: tr' =>
      match f e with
      | Some a => a :: pick f tr'
      | None => pick f tr'
      end
  end.

(** The callables of list [k] that were called, in order. *)
Definition calls (k : kind) : list event -> list string :=
  pick (fun e => match e with
                 | Call k' name _ =>
                     if decide (k' = k) then Some name else None
                 | _ => None
                 end).

(** The blocking waits. *)
Definition blocks : list event -> list (option Z) :=
  pick (fun e => match e with Block t => Some t | _ => None end).

(** The failures logged for list [k]: the callable and the reason, as
    the [except] clauses of lines 67-68, 83-84 and 114-115 write them. *)
Definition failures (k : kind) : list event -> list (string * list Text.str) :=
  pick (fun e => match e with
                 | Log ERROR (CallableFailed k' reason name) =>
                     if decide (k' = k) then Some (name, reason) else None
                 | _ => None
                 end).

(** The calls of list [k] that raised an error: the callable, and the
    lines of the error, each stripped and with its line breaks replaced
    by blanks. *)
Definition faults (k : kind) : list event -> list (string * list Text.str) :=
  pick (fun e => match e with
                 | Call k' name (Raises ex) =>
                     if bool_decide (k' = k) && exc_is_Exception ex
                     then Some (name,
                                map (fun item =>
                                       Text.replace_newlines (Text.strip item))
                                  (exc_format ex))
                     else None
                 | _ => None
                 end).

(** What follows the first [self.__sleeper.set()], that is, the first
    trigger that went through. *)
Fixpoint after_trigger (tr : list event) : list event :=
  match tr with
  | [] => []
  | SleeperSet :: tr' => tr'
  | _ :: tr' => after_trigger tr'
  end.

(** A probe returned something false. *)
Definition unhealthy (e : event) : bool :=
  match e with
  | Call MonitorCallable _ (Returns false) => true
  | _ => false
  end.

(** What follows the first probe that reported unhealthy, if any did. *)
Fixpoint after_unhealthy (tr : list event) : option (list event) :=
  match tr with
  | [] => None
  | e :: tr' => if unhealthy e then Some tr' else after_unhealthy tr'
  end.

(** The events of a teardown loop over list [k]: calls of its callables
    and the records of their failures. *)
Definition loop_event (k : kind) (e : event) : Prop :=
  match e with
  | Call k' _ _ | Log ERROR (CallableFailed k' _ _) => k' = k
  | _ => False
  end.

(** The events of a handler after it has set the event. *)
Definition shutdown_event (e : event) : Prop :=
  match e with
  | Log WARNING (Caught _) | Log INFO InitiatingShutdown => True
  | _ => loop_event ShutdownCallable e
  end.

(** A callable that, when it raises, raises an [Exception]. *)
Definition raises_only_errors (func : callable) : Prop :=
  forall w ex, (c_call func w).1 = Raises ex -> exc_is_Exception ex = true.

(** The state in which the monitor thread goes on after [yield]. *)
Definition yielded (st : system) : system := (yield st).2.

(** What a batch of deliveries does: nothing, or the first of its
    signals that has the handler installed wins the trigger. *)
Definition delivered (nums : list Z) (st st' : system) : Prop :=
  handlers st' = handlers st
  /\ (self st' = self st /\ world st' = world st /\ trace st' = trace st
      \/ signal (self st) = None
         /\ exists sig_num d,
             sig_num ∈ nums /\ sig_num ∈ handlers st
             /\ self st'
                = set_sleeper true (set_signal (Some sig_num) (self st))
             /\ trace st' = trace st ++ SleeperSet :: d
             /\ Forall shutdown_event d
             /\ (calls ShutdownCallable d `prefix_of`
                   (c_repr <$> default [] (shutdown_callables (self st))))).

(** The event is set whenever a cause is recorded. *)
Definition consistent (st : system) : Prop :=
  signal (self st) <> None -> sleeper (self st) = true.

(** No blocking wait and at most [n] calls of probes. *)
Definition quiet (n : nat) (d : list event) : Prop :=
  blocks d = [] /\ (List.length (calls MonitorCallable d) <= n)%nat.

(** How a stretch of the monitor thread relates to the trigger.  Begun
    after the trigger, it keeps the cause and is quiet up to [t] probe
    calls; begun before, either no trigger goes through, or one does and
    what follows it is quiet up to [u] probe calls. *)
Definition summary (u t : nat) (st st' : system) : Prop :=
  (consistent st -> consistent st')
  /\ exists d, trace st' = trace st ++ d
     /\ match signal (self st) with
        | Some c => signal (self st') = Some c /\ quiet t d
        | None =>
            match signal (self st') with
            | None => SleeperSet ∉ d
            | Some _ =>
                exists d1 d2, d = d1 ++ SleeperSet :: d2
                              /\ (SleeperSet ∉ d1) /\ quiet u d2
            end
        end.

(** What handlers add to the trace between two steps of the monitor
    thread: nothing, or the winning handler's events. *)
Definition handler_trace (d : list event) : Prop :=
  d = [] \/ exists d', d = SleeperSet :: d' /\ Forall shutdown_event d'.

(** A probe that reports healthy or raises an error, whatever the state
    it is called in. *)
Definition never_unhealthy (func : callable) : Prop :=
  forall w, match (c_call func w).1 with
            | Returns b => b = true
            | Raises ex => exc_is_Exception ex = true
            end.

(** The attributes neither a handler nor the monitor thread assigns. *)
Definition stable (w w' : Watchdog) : Prop :=
  monitor_callables w' = monitor_callables w
  /\ shutdown_callables w' = shutdown_callables w
  /\ join_callables w' = join_callables w
  /\ monitor_delay w' = monitor_delay w
  /\ start_delay w' = start_delay w
  /\ thread w' = thread w
  /\ stop w' = stop w.

(** The events handlers and the monitor thread can leave: none of
    [join], none of the end of the thread. *)
Definition monitor_event (e : event) : Prop :=
  match e with
  | Call JoinCallable _ _ | Log _ (CallableFailed JoinCallable _ _)
  | Log _ ShutdownComplete | ThreadExit _ => False
  | _ => True
  end.

(** A stretch of handlers and monitor thread. *)
Definition frame (st st' : system) : Prop :=
  stable (self st) (self st')
  /\ exists d, trace st' = trace st ++ d /\ Forall monitor_event d.

(** The calls made on a watchdog and around it over its life. *)
Inductive operation :=
| RegisterShutdownSignals (ctx : context) (sig_nums : list Z)
| RegisterShutdownCallables (callables : nat)
| RegisterMonitorCallables (callables : nat)
| Start (delay : option Z)
| RunThread (rounds : nat)
| Deliver (num : Z)
| Join.

Definition perform (op : operation) (st : system) : system :=
  match op with
  | RegisterShutdownSignals ctx sig_nums =>
      (register_shutdown_signals ctx sig_nums st).2
  | RegisterShutdownCallables callables =>
      (register_shutdown_callables callables st).2
  | RegisterMonitorCallables callables =>
      (register_monitor_callables callables st).2
  | Start delay => (start delay st).2
  | RunThread rounds => thread_run rounds st
  | Deliver num => (deliver num st).2
  | Join => (join st).2
  end.

Definition lifecycle (ops : list operation) (st : system) : system :=
  fold_left (fun st' op => perform op st') ops st.

(** Successive calls of the handler, each finished before the next. *)
Definition attempts (sig_nums : list Z) (st : system) : system :=
  fold_left (fun st' sig_num => (handle_shutdown sig_num st').2) sig_nums st.

End Watchdog.

Arguments callable World : clear implicits.
Arguments Watchdog World : clear implicits.
Arguments system World : clear implicits.

Abbreviation monitor_callables w := (Shared.view (monitor_ref w) (lists w)).
Abbreviation shutdown_callables w := (Shared.view (shutdown_ref w) (lists w)).
Abbreviation join_callables w := (Shared.view (join_ref w) (lists w)).

(** ** A concrete platform and concrete callables

    CPython on Linux: the usual signal numbers, the real-time signals
    between [SIGRTMIN] and [SIGRTMAX] without a name, and [signal.signal]
    refusing any thread but the main one, the two signals that cannot be
    caught, and numbers out of range. *)
Module CPython.

Definition names : list (Z * string) :=
  [(1, "SIGHUP"); (2, "SIGINT"); (3, "SIGQUIT"); (4, "SIGILL");
   (5, "SIGTRAP"); (6, "SIGABRT"); (7, "SIGBUS"); (8, "SIGFPE");
   (9, "SIGKILL"); (10, "SIGUSR1"); (11, "SIGSEGV"); (12, "SIGUSR2");
   (13, "SIGPIPE"); (14, "SIGALRM"); (15, "SIGTERM"); (16, "SIGSTKFLT");
   (17, "SIGCHLD"); (18, "SIGCONT"); (19, "SIGSTOP"); (20, "SIGTSTP");
   (21, "SIGTTIN"); (22, "SIGTTOU"); (23, "SIGURG"); (24, "SIGXCPU");
   (25, "SIGXFSZ"); (26, "SIGVTALRM"); (27, "SIGPROF"); (28, "SIGWINCH");
   (29, "SIGIO"); (30, "SIGPWR"); (31, "SIGSYS"); (34, "SIGRTMIN");
   (64, "SIGRTMAX")].

Definition name_of (n : Z) : option string :=
  match list_find (fun p : Z * string => p.1 = n) names with
  | Some (_, p) => Some p.2
  | None => None
  end.

Definition not_main_thread : exc :=
  Exc true
    [Text.line
       "ValueError: signal only works in main thread of the main interpreter"].
Definition not_a_c_int : exc :=
  Exc true [Text.line "OverflowError: Python int too large to convert to C int"].
Definition out_of_range : exc :=
  Exc true [Text.line "ValueError: signal number out of range"].
Definition invalid_argument : exc :=
  Exc true [Text.line "OSError: [Errno 22] Invalid argument"].

(** [signal.signal(n, handler)]: the number is converted to a C [int]
    first; then any thread but the main one is refused; then the numbers
    outside 1..64; and the kernel refuses [SIGKILL] and [SIGSTOP], and
    the C library the two real-time signals it keeps for itself. *)
Definition install_check (ctx : context) (n : Z) : option exc :=
  if bool_decide (n < -2147483648 ∨ 2147483647 < n) then Some not_a_c_int
  else
    match ctx with
    | MonitorThread => Some not_main_thread
    | MainThread =>
        if bool_decide (n < 1 ∨ 64 < n) then Some out_of_range
        else if bool_decide (n = 9 ∨ n = 19 ∨ n = 32 ∨ n = 33)
             then Some invalid_argument
             else None
    end.

Definition SIGINT : Z := 2.
Definition SIGTERM : Z := 15.

#[global] Instance platform : Platform :=
  {| SIGABRT := 6; Signals := name_of; signal_signal := install_check;
     Signals_SIGABRT := eq_refl |}.

End CPython.

(** Callables over a counter of the calls made so far, used to run the
    methods on concrete inputs. *)
Module Example.

Definition always_true : callable nat :=
  Callable "always_true" (fun n => (Returns true, n)).

Definition unhealthy : callable nat :=
  Callable "unhealthy" (fun n => (Returns false, n)).

(** Healthy twice, unhealthy from the third call on. *)
Definition false_on_third : callable nat :=
  Callable "false_on_third" (fun n => (Returns (S n <? 3)%nat, S n)).

Definition boom : exc := Exc true [Text.line " RuntimeError: boom"].

Definition faulty : callable nat :=
  Callable "faulty" (fun n => (Raises boom, S n)).

Definition system_exit : exc := Exc false [Text.line "SystemExit: 0"].

Definition exits : callable nat :=
  Callable "exits" (fun n => (Raises system_exit, n)).

Definition flush : callable nat :=
  Callable "flush" (fun n => (Returns false, (n + 10)%nat)).

Definition close : callable nat :=
  Callable "close" (fun n => (Returns false, (n + 100)%nat)).

(** The lists given to a watchdog as three list objects of their own,
    at references 0, 1 and 2. *)
Definition objects (mc sc jc : option (list (callable nat)))
  : gmap nat (list (callable nat)) :=
  <[0%nat := default [] mc]>
    (<[1%nat := default [] sc]> (<[2%nat := default [] jc]> ∅)).

Definition reference {A} (ref : nat) (given : option A) : option nat :=
  match given with
  | Some _ => Some ref
  | None => None
  end.

(** [Watchdog(monitor_callables, shutdown_callables, join_callables,
    shutdown_signals)] built in the main thread of a fresh process in
    which [p] is going to be delivered. *)
Definition fresh (mc sc jc : option (list (callable nat)))
    (sigs : option (list Z)) (p : list (list Z)) : system nat :=
  (init MainThread (objects mc sc jc)
     (reference 0 mc) (reference 1 sc) (reference 2 jc) sigs 2 O ∅ p).2.

End Example.

(** ** Readings used for the rest of the code *)

(** What [get_exception_str] is after: text without line breaks and
    without white space at either end. *)
Module Clean.

Definition first_space (s : Text.str) : bool :=
  match s with
  | c :: _ => Text.isspace c
  | [] => false
  end.

Fixpoint last_space (s : Text.str) : bool :=
  match s with
  | [] => false
  | [c] => Text.isspace c
  | _ :: s' => last_space s'
  end.

Fixpoint has_newline (s : Text.str) : bool :=
  match s with
  | [] => false
  | c :: s' => (c =? Text.newline)%N || has_newline s'
  end.

Definition clean (s : Text.str) : Prop :=
  has_newline s = false /\ first_space s = false /\ last_space s = false.

End Clean.

(** How often the event was set. *)
Definition sets (tr : list event) : nat :=
  List.length
    (pick (fun e => match e with SleeperSet => Some tt | _ => None end) tr).

(** How far a thread object has come. *)
Definition rank (t : thread_state) : nat :=
  match t with
  | Initial => 0
  | Started => 1
  | Stopped => 2
  end.

Section Readings.

Context {World : Type} `{Platform}.

(** A stretch in which the event is set exactly when a cause is recorded
    for the first time, and a recorded cause stays. *)
Definition once (st st' : system World) : Prop :=
  (forall c, signal (self st) = Some c -> signal (self st') = Some c)
  /\ exists d, trace st' = trace st ++ d
       /\ sets d = match signal (self st), signal (self st') with
                   | None, Some _ => 1%nat
                   | _, _ => 0%nat
                   end.

(** Every registered number is there once and has the handler. *)
Definition registered (st : system World) : Prop :=
  NoDup (shutdown_signals (self st))
  /\ forall num, num ∈ shutdown_signals (self st) -> num ∈ handlers st.

(** A stretch that sets the event at most once and keeps the list of
    signals in order. *)
Definition keeps (st st' : system World) : Prop :=
  once st st' /\ (registered st -> registered st').

(** A stretch in which no probe is called and nothing is registered. *)
Definition idle (st st' : system World) : Prop :=
  stable (self st) (self st')
  /\ shutdown_signals (self st') = shutdown_signals (self st)
  /\ handlers st' = handlers st
  /\ calls MonitorCallable (trace st') = calls MonitorCallable (trace st).

(** What [register_shutdown_callables] and [register_monitor_callables]
    make of an attribute holding [old]. *)
Definition extended (callables : list (callable World))
    (old : option (list (callable World)))
  : option (list (callable World)) :=
  if truthy old then Some (default [] old ++ callables) else Some callables.

End Readings.

(** * Properties *)

Section Properties.

Context {World : Type} `{Platform}.

Implicit Types (st : system World) (funcs : list (callable World)).

Ltac unfold_monad :=
  unfold bind, ret, raise, stuck, gets, update, log, emit, try_except in *.

Arguments run_callables : simpl never.
Arguments handle_shutdown : simpl never.
Arguments yield : simpl never.
Arguments monitor_round : simpl never.
Arguments monitor_loop : simpl never.
Arguments register_shutdown_signals : simpl never.
Arguments block_events : simpl never.

(** ** Registration of callables *)

Lemma view_None {A} attr (store store' : gmap nat (list A)) :
  Shared.view attr store = None -> Shared.view attr store' = None.
Proof. by destruct attr. Qed.

(** Either registration returns normally and touches nothing but the
    attribute it is for and the list objects. *)
Lemma register_shutdown_callables_keeps cs st :
  exists w',
    register_shutdown_callables cs st = (Ok tt, with_self (fun _ => w') st)
    /\ monitor_ref w' = monitor_ref (self st)
    /\ join_ref w' = join_ref (self st)
    /\ monitor_delay w' = monitor_delay (self st)
    /\ shutdown_signals w' = shutdown_signals (self st)
    /\ start_delay w' = start_delay (self st)
    /\ thread w' = thread (self st)
    /\ sleeper w' = sleeper (self st)
    /\ signal w' = signal (self st)
    /\ stop w' = stop (self st).
Proof.
  unfold register_shutdown_callables. unfold_monad.
  destruct (shutdown_ref (self st)) as [ref|];
    [destruct (truthy _)|]; eexists; (split; [reflexivity|]);
    by split_and!.
Qed.

Lemma register_monitor_callables_keeps cs st :
  exists w',
    register_monitor_callables cs st = (Ok tt, with_self (fun _ => w') st)
    /\ shutdown_ref w' = shutdown_ref (self st)
    /\ join_ref w' = join_ref (self st)
    /\ monitor_delay w' = monitor_delay (self st)
    /\ shutdown_signals w' = shutdown_signals (self st)
    /\ start_delay w' = start_delay (self st)
    /\ thread w' = thread (self st)
    /\ sleeper w' = sleeper (self st)
    /\ signal w' = signal (self st)
    /\ stop w' = stop (self st).
Proof.
  unfold register_monitor_callables. unfold_monad.
  destruct (monitor_ref (self st)) as [ref|];
    [destruct (truthy _)|]; eexists; (split; [reflexivity|]);
    by split_and!.
Qed.

Lemma record_record d1 d2 st :
  record d2 (record d1 st) = record (d1 ++ d2) st.
Proof. unfold record. simpl. by rewrite app_assoc. Qed.

(** ** The teardown loops *)

(** What one guarded call does: it never gets stuck, it lets through
    only what is not an [Exception], and it leaves the instance alone. *)
Lemma run_callables_cons k func rest st :
  run_callables k (func :: rest) st =
  match call k func st with
  | (Ok _, st') => run_callables k rest st'
  | (Raise ex, st') =>
      if exc_is_Exception ex
      then run_callables k rest
             (log ERROR (CallableFailed k (get_exception_str ex) (c_repr func))
                st').2
      else (Raise ex, st')
  | (Stuck, st') => (Stuck, st')
  end.
Proof.
  unfold run_callables at 1. fold (@run_callables World). unfold_monad.
  destruct (call k func st) as [[a|ex|] st']; try reflexivity.
  destruct (exc_is_Exception ex); reflexivity.
Qed.

Lemma call_inv k func st r st' :
  call k func st = (r, st') ->
  self st' = self st /\ handlers st' = handlers st /\ pending st' = pending st
  /\ trace st' = trace st ++ [Call k (c_repr func) (c_call func (world st)).1]
  /\ world st' = (c_call func (world st)).2
  /\ match (c_call func (world st)).1 with
     | Returns b => r = Ok b
     | Raises ex => r = Raise ex
     end.
Proof.
  unfold call. destruct (c_call func (world st)) as [[b|ex] w];
    intros [= <- <-]; simpl; auto 10.
Qed.

Lemma run_callables_app k pre post st :
  run_callables k (pre ++ post) st =
  match run_callables k pre st with
  | (Ok _, st') => run_callables k post st'
  | other => other
  end.
Proof.
  revert st. induction pre as [|func pre IH]; intros st; [reflexivity|].
  rewrite <- app_comm_cons, !run_callables_cons.
  destruct (call k func st) as [[a|ex|] st']; auto.
  destruct (exc_is_Exception ex); auto.
Qed.

Lemma pick_app {A} (f : event -> option A) d1 d2 :
  pick f (d1 ++ d2) = pick f d1 ++ pick f d2.
Proof.
  induction d1 as [|e d1 IH]; simpl; [reflexivity|].
  rewrite IH. destruct (f e); reflexivity.
Qed.

Lemma calls_cons_same k name o d :
  calls k (Call k name o :: d) = name :: calls k d.
Proof. unfold calls. simpl. destruct (decide (k = k)); congruence. Qed.

Lemma calls_cons_other k k' name o d :
  k' <> k -> calls k' (Call k name o :: d) = calls k' d.
Proof.
  intros Hne. unfold calls. simpl. destruct (decide (k = k')); congruence.
Qed.

Lemma calls_app k d1 d2 : calls k (d1 ++ d2) = calls k d1 ++ calls k d2.
Proof. apply pick_app. Qed.

Lemma blocks_app d1 d2 : blocks (d1 ++ d2) = blocks d1 ++ blocks d2.
Proof. apply pick_app. Qed.

Lemma failures_app k d1 d2 :
  failures k (d1 ++ d2) = failures k d1 ++ failures k d2.
Proof. apply pick_app. Qed.

Lemma faults_app k d1 d2 : faults k (d1 ++ d2) = faults k d1 ++ faults k d2.
Proof. apply pick_app. Qed.

Lemma failures_raised k name ex d :
  exc_is_Exception ex = true ->
  failures k (Call k name (Raises ex)
                :: Log ERROR (CallableFailed k (get_exception_str ex) name)
                :: d)
  = (name, map (fun item => Text.replace_newlines (Text.strip item))
             (exc_format ex)) :: failures k d
  /\ faults k (Call k name (Raises ex)
                 :: Log ERROR (CallableFailed k (get_exception_str ex) name)
                 :: d)
     = (name, map (fun item => Text.replace_newlines (Text.strip item))
                (exc_format ex)) :: faults k d.
Proof.
  intros Hex. unfold failures, faults, get_exception_str. simpl.
  rewrite Hex, bool_decide_eq_true_2 by done.
  by destruct (decide (k = k)).
Qed.

Lemma loop_event_shutdown d :
  Forall (loop_event ShutdownCallable) d -> Forall shutdown_event d.
Proof.
  intros Hd. eapply Forall_impl; [exact Hd|].
  intros [l m|k name o| | | |]; simpl; try tauto.
  destruct l, m; simpl; tauto.
Qed.

(** A handler does not wait, calls no probe and no join callable, sets
    the event once, and does not report completion. *)
Lemma shutdown_event_quiet d :
  Forall shutdown_event d ->
  blocks d = [] /\ calls MonitorCallable d = [] /\ calls JoinCallable d = []
  /\ (SleeperSet ∉ d) /\ (Log INFO ShutdownComplete ∉ d).
Proof.
  induction 1 as [|e d He _ (Hb & Hm & Hj & Hs & Hc)].
  - split_and!; auto; apply not_elem_of_nil.
  - assert (He' : e <> SleeperSet /\ e <> Log INFO ShutdownComplete).
    { split; intros ->; simpl in He; contradiction. }
    destruct He' as [He1 He2].
    split_and!; try (intros [?|?]%elem_of_cons; [congruence|auto]).
    + destruct e as [l m|k0 name o| | | |]; simpl in He; try contradiction;
        auto; destruct l, m; contradiction || auto.
    + destruct e as [l m|k0 name o| | | |]; simpl in He; try contradiction;
        auto. subst k0. rewrite calls_cons_other; auto.
    + destruct e as [l m|k0 name o| | | |]; simpl in He; try contradiction;
        auto. subst k0. rewrite calls_cons_other; auto.
Qed.

(** The loop touches nothing but the state of the callables and the
    trace, to which it adds its own events only, with the calls a
    prefix of the list in order, the whole list when the loop ends
    normally; it lets through only what is not an [Exception]. *)
Lemma run_callables_inv k funcs st r st' :
  run_callables k funcs st = (r, st') ->
  self st' = self st /\ handlers st' = handlers st /\ pending st' = pending st
  /\ exists d, trace st' = trace st ++ d
       /\ Forall (loop_event k) d
       /\ (calls k d `prefix_of` (c_repr <$> funcs))
       /\ match r with
          | Ok _ => calls k d = (c_repr <$> funcs)
          | Raise ex => exc_is_Exception ex = false
          | Stuck => False
          end.
Proof.
  revert st. induction funcs as [|func rest IH]; intros st.
  - intros [= <- <-]. split_and!; auto. exists []. rewrite app_nil_r.
    split_and!; auto.
  - rewrite run_callables_cons.
    destruct (call k func st) as [r1 st1] eqn:Hc.
    apply call_inv in Hc as (Hs & Hh & Hp & Ht & _ & Ho).
    set (o := (c_call func (world st)).1) in *.
    destruct r1 as [a|ex|].
    + intros Hr.
      apply IH in Hr as (Hs' & Hh' & Hp' & d & Hd & Hev & Hpre & Hres).
      split_and!; try congruence.
      exists (Call k (c_repr func) o :: d). rewrite Hd, Ht, <- app_assoc.
      split_and!; auto.
      * constructor; simpl; auto.
      * rewrite calls_cons_same. simpl. by apply prefix_cons.
      * destruct r; auto. rewrite calls_cons_same, Hres. reflexivity.
    + destruct (exc_is_Exception ex) eqn:Hex.
      * intros Hr.
        apply IH in Hr as (Hs' & Hh' & Hp' & d & Hd & Hev & Hpre & Hres).
        simpl in *. split_and!; try congruence.
        exists (Call k (c_repr func) o
                  :: Log ERROR (CallableFailed k (get_exception_str ex)
                                  (c_repr func)) :: d).
        rewrite Hd, Ht, <- !app_assoc. split_and!; auto.
        -- repeat constructor; simpl; auto.
        -- rewrite calls_cons_same. simpl. by apply prefix_cons.
        -- destruct r; auto. rewrite calls_cons_same. unfold calls at 1.
           simpl. fold (calls k d). rewrite Hres. reflexivity.
      * intros [= <- <-]. split_and!; auto.
        exists [Call k (c_repr func) o]. split_and!; auto.
        -- repeat constructor; simpl; auto.
        -- rewrite calls_cons_same. simpl. apply prefix_cons, prefix_nil.
    + subst o. destruct (c_call func (world st)).1; discriminate.
Qed.

Lemma call_raises k func st ex w :
  c_call func (world st) = (Raises ex, w) ->
  call k func st
  = (Raise ex, record [Call k (c_repr func) (Raises ex)] (with_world w st)).
Proof. intros Hc. unfold call. rewrite Hc. reflexivity. Qed.

Lemma call_returns k func st b w :
  c_call func (world st) = (Returns b, w) ->
  call k func st
  = (Ok b, record [Call k (c_repr func) (Returns b)] (with_world w st)).
Proof. intros Hc. unfold call. rewrite Hc. reflexivity. Qed.

(** Either loop logs a failure for every callable that raised an error,
    with the text of that error, and logs no other failure. *)
Lemma run_callables_failures k funcs st r st' :
  run_callables k funcs st = (r, st') ->
  exists d, trace st' = trace st ++ d /\ failures k d = faults k d.
Proof.
  revert st. induction funcs as [|func rest IH]; intros st.
  - intros [= <- <-]. exists []. by rewrite app_nil_r.
  - rewrite run_callables_cons.
    destruct (c_call func (world st)) as [[b|ex] w] eqn:Hc.
    + rewrite (call_returns _ _ _ _ _ Hc). intros Hrun.
      apply IH in Hrun as (d & Hd & Hf).
      exists (Call k (c_repr func) (Returns b) :: d).
      split; [rewrite Hd; simpl; by rewrite <- app_assoc|exact Hf].
    + rewrite (call_raises _ _ _ _ _ Hc).
      destruct (exc_is_Exception ex) eqn:Hex.
      * intros Hrun. apply IH in Hrun as (d & Hd & Hf).
        exists (Call k (c_repr func) (Raises ex)
                  :: Log ERROR (CallableFailed k (get_exception_str ex)
                                  (c_repr func)) :: d).
        split; [rewrite Hd; simpl; by rewrite <- !app_assoc|].
        destruct (failures_raised k (c_repr func) ex d Hex) as [-> ->].
        by rewrite Hf.
      * intros [= <- <-]. exists [Call k (c_repr func) (Raises ex)].
        split; [done|]. unfold failures, faults. simpl.
        by rewrite Hex, andb_false_r.
Qed.

Lemma run_callables_total k funcs st :
  Forall raises_only_errors funcs ->
  exists st', run_callables k funcs st = (Ok tt, st').
Proof.
  intros Hall. revert st.
  induction Hall as [|func rest Hf _ IH]; intros st; [by eexists|].
  rewrite run_callables_cons.
  destruct (c_call func (world st)) as [[b|ex] w] eqn:Hc.
  - rewrite (call_returns _ _ _ _ _ Hc). apply IH.
  - rewrite (call_raises _ _ _ _ _ Hc).
    rewrite (Hf (world st) ex) by (by rewrite Hc). apply IH.
Qed.

(** Either teardown loop ([k] is the list), when the callables [pre]
    have run and the next one, [func], raises an error [ex]: the error
    is caught and logged, and the loop goes on with the remaining
    callables [post] from there. *)
Lemma run_callables_isolates k pre func post ex st st1 w :
  run_callables k pre st = (Ok tt, st1) ->
  c_call func (world st1) = (Raises ex, w) ->
  exc_is_Exception ex = true ->
  let st2 :=
    record [Call k (c_repr func) (Raises ex);
            Log ERROR (CallableFailed k (get_exception_str ex) (c_repr func))]
      (with_world w st1) in
  run_callables k (pre ++ [func]) st = (Ok tt, st2)
  /\ run_callables k (pre ++ func :: post) st = run_callables k post st2
  /\ (Forall raises_only_errors post ->
      exists st3 d,
        run_callables k (pre ++ func :: post) st = (Ok tt, st3)
        /\ trace st3 = trace st ++ d
        /\ calls k d = (c_repr <$> pre ++ func :: post)
        /\ Log ERROR (CallableFailed k (get_exception_str ex) (c_repr func))
             ∈ d).
Proof.
  intros Hpre Hc Hex st2.
  assert (Hone : forall rest,
             run_callables k (func :: rest) st1 = run_callables k rest st2).
  { intros rest. rewrite run_callables_cons, (call_raises _ _ _ _ _ Hc), Hex.
    unfold_monad. simpl. by rewrite record_record. }
  assert (Hall : forall rest,
             run_callables k (pre ++ func :: rest) st
             = run_callables k rest st2).
  { intros rest. by rewrite run_callables_app, Hpre, Hone. }
  split_and!.
  - by rewrite Hall.
  - apply Hall.
  - intros Hpost.
    destruct (run_callables_total k post st2 Hpost) as [st3 Hrun].
    pose proof Hrun as Hinv. rewrite <- Hall in Hinv.
    apply run_callables_inv in Hinv as (_ & _ & _ & d & Hd & _ & _ & Hcalls).
    exists st3, d. rewrite Hall. split_and!; auto.
    apply run_callables_inv in Hrun as (_ & _ & _ & d3 & Hd3 & _).
    apply run_callables_inv in Hpre as (_ & _ & _ & d1 & Hd1 & _).
    rewrite Hd3 in Hd. subst st2. simpl in Hd. rewrite Hd1 in Hd.
    rewrite <- !app_assoc in Hd. apply app_inv_head in Hd. subst d.
    rewrite !elem_of_app, !elem_of_cons. auto.
Qed.

Lemma join_runs_loop st funcs :
  thread (self st) = Stopped ->
  join_callables (self st) = Some funcs ->
  join st
  = match run_callables JoinCallable funcs st with
    | (Ok _, st') => (Ok tt, record [Log INFO ShutdownComplete] st')
    | other => other
    end.
Proof.
  intros Ht Hj. unfold join, thread_join. unfold_monad.
  rewrite Ht, Hj. destruct (run_callables _ _ _) as [[[]|?|] ?]; reflexivity.
Qed.

(** ** The trigger *)

Lemma handle_shutdown_fired sig_num st c :
  signal (self st) = Some c -> handle_shutdown sig_num st = (Ok tt, st).
Proof.
  intros Hc. unfold handle_shutdown. unfold_monad. rewrite Hc. reflexivity.
Qed.

(** The first call, statement by statement. *)
Lemma handle_shutdown_unfold sig_num st :
  signal (self st) = None ->
  handle_shutdown sig_num st =
  let st1 := record [SleeperSet]
               (with_self (fun w => set_sleeper true
                                      (set_signal (Some sig_num) w)) st) in
  match Signals sig_num with
  | None => (Raise (ValueError_not_a_signal sig_num), st1)
  | Some name =>
      match shutdown_callables (self st) with
      | Some ((_ :: _) as funcs) =>
          run_callables ShutdownCallable funcs
            (record [Log WARNING (Caught name); Log INFO InitiatingShutdown]
               st1)
      | _ => (Ok tt, record [Log WARNING (Caught name)] st1)
      end
  end.
Proof.
  intros Hnone. unfold handle_shutdown, sleeper_set, signal_name.
  unfold_monad. rewrite Hnone. unfold record, with_self. simpl.
  destruct (Signals sig_num) as [name|]; simpl; [|reflexivity].
  destruct (shutdown_callables (self st)) as [[|f fs]|]; simpl;
    rewrite <- ?app_assoc; reflexivity.
Qed.

(** The first call: the cause and the event are set whatever happens
    next, and what follows in the trace belongs to this handler. *)
Lemma handle_shutdown_first sig_num st r st' :
  signal (self st) = None ->
  handle_shutdown sig_num st = (r, st') ->
  self st' = set_sleeper true (set_signal (Some sig_num) (self st))
  /\ handlers st' = handlers st /\ pending st' = pending st
  /\ r <> Stuck
  /\ exists d, trace st' = trace st ++ SleeperSet :: d
       /\ Forall shutdown_event d
       /\ (calls ShutdownCallable d
           `prefix_of` (c_repr <$> default [] (shutdown_callables (self st)))).
Proof.
  intros Hnone. rewrite handle_shutdown_unfold by done. cbn zeta.
  destruct (Signals sig_num) as [name|].
  - destruct (shutdown_callables (self st)) as [[|f fs]|] eqn:Hsc.
    + intros [= <- <-]. simpl. split_and!; auto.
      eexists. split; [rewrite <- app_assoc; reflexivity|].
      split; [repeat constructor|apply prefix_nil].
    + intros Hrun. apply run_callables_inv in Hrun
        as (Hs & Hh & Hp & d & Hd & Hev & Hpre & Hres).
      simpl in *. split_and!; auto.
      * intros ->. contradiction.
      * exists (Log WARNING (Caught name) :: Log INFO InitiatingShutdown :: d).
        rewrite Hd, <- !app_assoc. split; [reflexivity|].
        split; [|exact Hpre].
        repeat constructor. by apply loop_event_shutdown.
    + intros [= <- <-]. simpl. split_and!; auto.
      eexists. split; [rewrite <- app_assoc; reflexivity|].
      split; [repeat constructor|apply prefix_nil].
  - intros [= <- <-]. simpl. split_and!; auto.
    exists []. split; [reflexivity|]. split; [constructor|apply prefix_nil].
Qed.

Lemma handle_shutdown_runs_loop sig_num st name func rest :
  signal (self st) = None ->
  Signals sig_num = Some name ->
  shutdown_callables (self st) = Some (func :: rest) ->
  handle_shutdown sig_num st
  = run_callables ShutdownCallable (func :: rest)
      (record [SleeperSet; Log WARNING (Caught name);
               Log INFO InitiatingShutdown]
         (with_self (fun w => set_sleeper true (set_signal (Some sig_num) w))
            st)).
Proof.
  intros Hnone Hname Hsc. rewrite handle_shutdown_unfold by done.
  cbn zeta. rewrite Hname, Hsc. by rewrite record_record.
Qed.

(** C2.  Once a cause is recorded, a call of the handler with any cause
    changes nothing at all: not the cause, not the trace, so no shutdown
    callable runs again; and over any sequence of calls starting before
    the trigger only the first one acts: it records its cause, and the
    shutdown callables that ran are a prefix of the registered list, each
    at most once. *)
Theorem trigger_is_inert_once_fired st sig_num later :
  (forall c, signal (self st) = Some c ->
     handle_shutdown sig_num st = (Ok tt, st)
     /\ attempts (sig_num :: later) st = st)
  /\ (signal (self st) = None ->
      let st1 := (handle_shutdown sig_num st).2 in
      signal (self st1) = Some sig_num
      /\ attempts (sig_num :: later) st = st1
      /\ exists d, trace st1 = trace st ++ d
           /\ (calls ShutdownCallable d `prefix_of`
                 (c_repr <$> default [] (shutdown_callables (self st))))).
Proof.
  assert (Hstay : forall sigs st0 c,
             signal (self st0) = Some c -> attempts sigs st0 = st0).
  { induction sigs as [|s sigs IH]; intros st0 c Hc; [reflexivity|].
    unfold attempts. simpl. rewrite (handle_shutdown_fired s st0 c Hc).
    apply (IH st0 c Hc). }
  split.
  - intros c Hc. split; [by apply handle_shutdown_fired with c|].
    by apply Hstay with c.
  - intros Hnone st1.
    destruct (handle_shutdown sig_num st) as [r st'] eqn:Hhs.
    pose proof Hhs as Hhs'.
    apply handle_shutdown_first in Hhs
        as (Hs & _ & _ & _ & d & Hd & Hev & Hpre); [|done].
    subst st1. simpl.
    assert (Hsig : signal (self st') = Some sig_num) by (by rewrite Hs).
    split_and!; auto.
    + unfold attempts. simpl. rewrite Hhs'. simpl.
      by apply Hstay with sig_num.
    + exists (SleeperSet :: d). split; [done|].
      exact Hpre.
Qed.

(** What the handler raises, when called for a number that has a name,
    is what a shutdown callable raised and the loop let through. *)
Lemma handle_shutdown_raise sig_num st ex st' :
  is_Some (Signals sig_num) ->
  handle_shutdown sig_num st = (Raise ex, st') ->
  exc_is_Exception ex = false.
Proof.
  intros [name Hname]. destruct (signal (self st)) as [c|] eqn:Hsig.
  - by rewrite (handle_shutdown_fired _ _ c).
  - rewrite handle_shutdown_unfold by done. cbn zeta. rewrite Hname.
    destruct (shutdown_callables (self st)) as [[|f fs]|]; try discriminate.
    intros Hrun. by apply run_callables_inv in Hrun as (_ & _ & _ & d & _ & _ & _ & ?).
Qed.

(** ** Registration of signals *)

Lemma set_shutdown_signals_same (w : Watchdog World) :
  set_shutdown_signals (shutdown_signals w) w = w.
Proof. by destruct w. Qed.

Lemma register_shutdown_signals_cons ctx num rest st :
  register_shutdown_signals ctx (num :: rest) st =
  if bool_decide (num ∈ shutdown_signals (self st))
  then register_shutdown_signals ctx rest st
  else match signal_signal ctx num with
       | Some ex => (Raise ex, st)
       | None =>
           register_shutdown_signals ctx rest
             (with_self
                (set_shutdown_signals (shutdown_signals (self st) ++ [num]))
                (record [Install ctx num]
                   (with_handlers ({[num]} ∪ handlers st) st)))
       end.
Proof.
  unfold register_shutdown_signals at 1.
  fold (@register_shutdown_signals World). unfold_monad. unfold install.
  destruct (bool_decide _); [reflexivity|].
  destruct (signal_signal ctx num); reflexivity.
Qed.

(** Registration appends the numbers it installs, without repeating
    one, and touches nothing else of the instance. *)
Lemma register_shutdown_signals_inv ctx nums st r st' :
  register_shutdown_signals ctx nums st = (r, st') ->
  r <> Stuck /\ world st' = world st /\ pending st' = pending st
  /\ exists added,
       self st'
       = set_shutdown_signals (shutdown_signals (self st) ++ added) (self st)
       /\ trace st' = trace st ++ (Install ctx <$> added)
       /\ handlers st' = list_to_set added ∪ handlers st
       /\ (NoDup (shutdown_signals (self st)) ->
           NoDup (shutdown_signals (self st) ++ added))
       /\ (r = Ok tt ->
           forall num, num ∈ nums -> num ∈ shutdown_signals (self st) ++ added).
Proof.
  revert st. induction nums as [|num rest IH]; intros st.
  - intros [= <- <-]. split_and!; auto. exists []. simpl.
    rewrite !app_nil_r, set_shutdown_signals_same. split_and!; auto.
    + by rewrite union_empty_l_L.
    + intros _ num []%elem_of_nil.
  - rewrite register_shutdown_signals_cons.
    destruct (bool_decide (num ∈ shutdown_signals (self st))) eqn:Hin.
    + apply bool_decide_eq_true in Hin. intros Hrun.
      apply IH in Hrun as (Hr & Hw & Hp & added & Hs & Ht & Hh & Hnd & Hall).
      split_and!; auto. exists added. split_and!; auto.
      intros Hok n [->|Hn]%elem_of_cons; [|by apply Hall].
      rewrite elem_of_app. by left.
    + apply bool_decide_eq_false in Hin.
      destruct (signal_signal ctx num) as [ex|].
      * intros [= <- <-]. split_and!; auto. exists []. simpl.
        rewrite !app_nil_r, set_shutdown_signals_same. split_and!; auto.
        -- by rewrite union_empty_l_L.
        -- discriminate.
      * intros Hrun.
        apply IH in Hrun as (Hr & Hw & Hp & added & Hs & Ht & Hh & Hnd & Hall).
        simpl in *. split_and!; auto. exists (num :: added).
        rewrite <- !app_assoc in *. simpl in *. split_and!; auto.
        -- rewrite Hh. simpl. apply set_eq. intros x.
           rewrite !elem_of_union. tauto.
        -- intros Hnd0. apply Hnd. apply NoDup_app. split_and!; auto.
           ++ intros x Hx [->|[]%elem_of_nil]%elem_of_cons. done.
           ++ apply NoDup_singleton.
        -- intros Hok n [->|Hn]%elem_of_cons; [|by apply Hall].
           rewrite elem_of_app, elem_of_cons. auto.
Qed.

(** Numbers already registered: nothing happens. *)
Lemma register_shutdown_signals_known ctx nums st :
  (forall num, num ∈ nums -> num ∈ shutdown_signals (self st)) ->
  register_shutdown_signals ctx nums st = (Ok tt, st).
Proof.
  induction nums as [|num rest IH]; intros Hall; [reflexivity|].
  rewrite register_shutdown_signals_cons, bool_decide_eq_true_2.
  - apply IH. intros n Hn. apply Hall. rewrite elem_of_cons. auto.
  - apply Hall. rewrite elem_of_cons. auto.
Qed.

(** C9.  Registering a number that is already in the list of shutdown
    signals changes nothing; registering a number that is not, where
    [signal.signal] accepts it, appends it once and installs the handler
    for it; no run of the method puts a number into the list twice; and
    registering the same numbers again after a successful registration
    changes nothing. *)
Theorem register_shutdown_signals_idempotent ctx st num nums :
  (num ∈ shutdown_signals (self st) ->
   register_shutdown_signals ctx [num] st = (Ok tt, st))
  /\ (num ∉ shutdown_signals (self st) -> signal_signal ctx num = None ->
      register_shutdown_signals ctx [num] st
      = (Ok tt,
         with_self (set_shutdown_signals (shutdown_signals (self st) ++ [num]))
           (record [Install ctx num]
              (with_handlers ({[num]} ∪ handlers st) st))))
  /\ (NoDup (shutdown_signals (self st)) ->
      NoDup (shutdown_signals
               (self (register_shutdown_signals ctx nums st).2)))
  /\ (forall st', register_shutdown_signals ctx nums st = (Ok tt, st') ->
      register_shutdown_signals ctx nums st' = (Ok tt, st')).
Proof.
  split_and!.
  - intros Hin. apply register_shutdown_signals_known.
    by intros n [->|[]%elem_of_nil]%elem_of_cons.
  - intros Hnew Hok. rewrite register_shutdown_signals_cons.
    rewrite bool_decide_eq_false_2 by done. by rewrite Hok.
  - intros Hnd.
    destruct (register_shutdown_signals ctx nums st) as [r st'] eqn:Hrun.
    apply register_shutdown_signals_inv in Hrun
      as (_ & _ & _ & added & Hs & _ & _ & Hnd' & _).
    simpl. rewrite Hs. simpl. by apply Hnd'.
  - intros st' Hrun. apply register_shutdown_signals_known.
    apply register_shutdown_signals_inv in Hrun
      as (_ & _ & _ & added & Hs & _ & _ & _ & Hall).
    rewrite Hs. simpl. by apply Hall.
Qed.

(** ** Deliveries *)

Lemma deliver_ok num st : deliver num st = (Ok tt, (deliver num st).2).
Proof. unfold deliver. by destruct (bool_decide _). Qed.

Lemma deliver_all_ok nums st :
  deliver_all nums st = (Ok tt, (deliver_all nums st).2).
Proof.
  revert st. induction nums as [|num nums IH]; intros st; [done|].
  simpl. unfold_monad. rewrite deliver_ok. apply IH.
Qed.

Lemma yield_ok st : yield st = (Ok tt, yielded st).
Proof.
  unfold yielded, yield. destruct (pending st); [done|]. apply deliver_all_ok.
Qed.

Lemma deliver_all_fired nums st c :
  signal (self st) = Some c -> deliver_all nums st = (Ok tt, st).
Proof.
  intros Hc. induction nums as [|num nums IH]; [done|].
  simpl. unfold_monad. unfold deliver.
  destruct (bool_decide _); [rewrite (handle_shutdown_fired _ _ c Hc)|];
    simpl; apply IH.
Qed.

Lemma deliver_all_inv nums st :
  pending (deliver_all nums st).2 = pending st
  /\ delivered nums st (deliver_all nums st).2.
Proof.
  revert st. induction nums as [|num nums IH]; intros st.
  - simpl. unfold delivered. auto 10.
  - simpl. unfold_monad. unfold deliver.
    destruct (bool_decide (num ∈ handlers st)) eqn:Hin.
    + apply bool_decide_eq_true in Hin.
      destruct (signal (self st)) as [c|] eqn:Hsig.
      * rewrite (handle_shutdown_fired _ _ c Hsig). simpl.
        rewrite (deliver_all_fired _ _ c Hsig). simpl.
        unfold delivered. auto 10.
      * destruct (handle_shutdown num st) as [r st1] eqn:Hhs. simpl.
        apply handle_shutdown_first in Hhs
          as (Hs & Hh & Hp & _ & d & Hd & Hev & Hpre); [|done].
        rewrite (deliver_all_fired nums st1 num) by (by rewrite Hs).
        simpl. split; [done|]. split; [done|]. right. split; [done|].
        exists num, d. rewrite elem_of_cons. auto 10.
    + simpl. destruct (IH st) as (Hp & Hh & Hcase). split; [done|].
      split; [done|].
      destruct Hcase as [?|(Hnone & sig_num & d & Hin' & Hrest)];
        [by left|right]. split; [done|]. exists sig_num, d.
      rewrite elem_of_cons. split; [by right|exact Hrest].
Qed.

(** A point at which the monitor thread can be overtaken: the batch at
    the head of [pending] is consumed and delivered. *)
Lemma yield_inv st :
  pending (yielded st) = tail (pending st)
  /\ delivered (default [] (head (pending st))) st (yielded st).
Proof.
  unfold yielded, yield. destruct (pending st) as [|batch rest] eqn:Hp.
  - simpl. rewrite Hp. unfold delivered. auto 10.
  - destruct (deliver_all_inv batch (with_pending rest st)) as [Hp' Hd].
    simpl in *. split; [done|]. exact Hd.
Qed.

(** ** The monitor thread, statement by statement *)

Lemma probe_unfold func st :
  probe func st =
  let (o, w) := c_call func (world st) in
  let st1 := record [Call MonitorCallable (c_repr func) o] (with_world w st) in
  match o with
  | Returns true => (Ok false, st1)
  | Returns false =>
      match handle_shutdown SIGABRT (yielded st1) with
      | (Ok _, st2) => (Ok true, st2)
      | (Raise ex, st2) => (Raise ex, st2)
      | (Stuck, st2) => (Stuck, st2)
      end
  | Raises ex =>
      if exc_is_Exception ex
      then (Ok false,
            record [Log ERROR (CallableFailed MonitorCallable
                                 (get_exception_str ex) (c_repr func))] st1)
      else (Raise ex, st1)
  end.
Proof.
  unfold probe, call. unfold_monad.
  destruct (c_call func (world st)) as [[[]|ex] w]; try reflexivity.
  rewrite yield_ok.
  destruct (handle_shutdown _ _) as [[[]|ex|] st2] eqn:Hhs; try reflexivity.
  apply handle_shutdown_raise in Hhs; [|rewrite Signals_SIGABRT; by eexists].
  by rewrite Hhs.
Qed.

Lemma monitor_round_cons func rest st :
  monitor_round (func :: rest) st =
  let st1 := yielded st in
  match signal (self st1) with
  | Some _ => (Ok tt, st1)
  | None =>
      match probe func (yielded st1) with
      | (Ok true, st2) => (Ok tt, st2)
      | (Ok false, st2) => monitor_round rest st2
      | (Raise ex, st2) => (Raise ex, st2)
      | (Stuck, st2) => (Stuck, st2)
      end
  end.
Proof.
  unfold monitor_round at 1. fold (@monitor_round World). unfold_monad.
  rewrite yield_ok. cbn zeta. destruct (signal _); [reflexivity|].
  rewrite yield_ok. destruct (probe _ _) as [[[]|?|] ?]; reflexivity.
Qed.

Lemma sleeper_wait_unfold timeout st :
  sleeper_wait timeout st =
  if sleeper (self st) then (Ok true, st)
  else
    let st1 := yielded (record (block_events timeout) st) in
    if sleeper (self st1) then (Ok true, st1)
    else match timeout with
         | Some _ => (Ok false, st1)
         | None => (Stuck, st1)
         end.
Proof.
  unfold sleeper_wait. unfold_monad. destruct (sleeper (self st)); [done|].
  rewrite yield_ok. cbn zeta. destruct (sleeper _); [done|].
  by destruct timeout.
Qed.

Lemma monitor_loop_unfold rounds st :
  monitor_loop rounds st =
  let st1 := yielded st in
  match signal (self st1) with
  | Some _ => (Ok tt, st1)
  | None =>
      match rounds with
      | O => (Stuck, st1)
      | S rounds' =>
          match monitor_callables (self st1) with
          | None => (Raise TypeError_not_iterable, st1)
          | Some funcs =>
              match monitor_round funcs st1 with
              | (Ok _, st2) =>
                  match sleeper_wait (Some (monitor_delay (self st2))) st2 with
                  | (Ok _, st3) => monitor_loop rounds' st3
                  | (Raise ex, st3) => (Raise ex, st3)
                  | (Stuck, st3) => (Stuck, st3)
                  end
              | (Raise ex, st2) => (Raise ex, st2)
              | (Stuck, st2) => (Stuck, st2)
              end
          end
      end
  end.
Proof.
  destruct rounds as [|rounds']; unfold monitor_loop at 1;
    [|fold (@monitor_loop World)]; unfold_monad; rewrite yield_ok; cbn zeta;
    destruct (signal _); try reflexivity.
  destruct (monitor_callables _); [|reflexivity].
  destruct (monitor_round _ _) as [[[]|?|] ?]; try reflexivity.
Qed.

(** ** Stretches of the monitor thread and the trigger *)

Lemma quiet_nil n : quiet n [].
Proof. split; simpl; [done|lia]. Qed.

Lemma quiet_mono n m d : (n <= m)%nat -> quiet n d -> quiet m d.
Proof. intros Hle [Hb Hc]. split; [done|lia]. Qed.

Lemma quiet_app n m d1 d2 :
  quiet n d1 -> quiet m d2 -> quiet (n + m) (d1 ++ d2).
Proof.
  intros [Hb1 Hc1] [Hb2 Hc2]. split.
  - by rewrite blocks_app, Hb1, Hb2.
  - rewrite calls_app, length_app. lia.
Qed.

Lemma quiet_shutdown d : Forall shutdown_event d -> quiet 0 d.
Proof.
  intros (Hb & Hm & _)%shutdown_event_quiet. split; [done|].
  rewrite Hm. simpl. lia.
Qed.

Lemma summary_refl st : summary 0 0 st st.
Proof.
  split; [done|]. exists []. rewrite app_nil_r. split; [done|].
  destruct (signal (self st)); [split; [done|apply quiet_nil]|].
  apply not_elem_of_nil.
Qed.

Lemma summary_mono u t u' t' st st' :
  (u <= u')%nat -> (t <= t')%nat -> summary u t st st' -> summary u' t' st st'.
Proof.
  intros Hu Ht (Hc & d & Hd & Hcase). split; [done|]. exists d. split; [done|].
  destruct (signal (self st)).
  - destruct Hcase as [? ?]. split; [done|]. by apply quiet_mono with t.
  - destruct (signal (self st')); [|done].
    destruct Hcase as (d1 & d2 & ? & ? & ?). exists d1, d2.
    split_and!; auto. by apply quiet_mono with u.
Qed.

Lemma summary_trans u1 t1 u2 t2 u t st st1 st2 :
  summary u1 t1 st st1 -> summary u2 t2 st1 st2 ->
  (u1 + t2 <= u)%nat -> (u2 <= u)%nat -> (t1 + t2 <= t)%nat ->
  summary u t st st2.
Proof.
  intros (Hc1 & da & Hda & H1) (Hc2 & db & Hdb & H2) Hu1 Hu2 Ht.
  split; [auto|]. exists (da ++ db). split; [by rewrite Hdb, Hda, app_assoc|].
  destruct (signal (self st)) as [c|].
  - destruct H1 as [Hs1 Hq1]. rewrite Hs1 in H2. destruct H2 as [Hs2 Hq2].
    split; [done|]. apply quiet_mono with (t1 + t2)%nat; [done|].
    by apply quiet_app.
  - destruct (signal (self st1)) as [c1|].
    + destruct H1 as (d1 & d2 & -> & Hn1 & Hq1). destruct H2 as [Hs2 Hq2].
      rewrite Hs2. exists d1, (d2 ++ db). split_and!; auto.
      * by rewrite <- app_assoc.
      * apply quiet_mono with (u1 + t2)%nat; [done|]. by apply quiet_app.
    + destruct (signal (self st2)) as [c2|].
      * destruct H2 as (d1 & d2 & -> & Hn1 & Hq2). exists (da ++ d1), d2.
        split_and!; auto.
        -- by rewrite <- app_assoc.
        -- rewrite not_elem_of_app. auto.
        -- by apply quiet_mono with u2.
      * rewrite not_elem_of_app. auto.
Qed.

(** Events recorded by the monitor thread itself, none of them setting
    the event, with the instance left alone. *)
Lemma summary_record u t d st st' :
  self st' = self st -> trace st' = trace st ++ d ->
  SleeperSet ∉ d -> quiet t d -> summary u t st st'.
Proof.
  intros Hs Hd Hn Hq. split; [unfold consistent; by rewrite Hs|].
  exists d. split; [done|]. rewrite Hs.
  destruct (signal (self st)); [done|done].
Qed.

Lemma summary_delivered nums st st' : delivered nums st st' -> summary 0 0 st st'.
Proof.
  intros (_ & [(Hs & _ & Ht)|(Hnone & sig_num & d & _ & _ & Hs & Ht & Hev & _)]).
  - apply summary_record with []; auto using quiet_nil, not_elem_of_nil.
    by rewrite app_nil_r.
  - split; [intros _ _; by rewrite Hs|].
    exists (SleeperSet :: d). split; [done|]. rewrite Hnone, Hs. simpl.
    exists [], d. split_and!; auto using not_elem_of_nil, quiet_shutdown.
Qed.

Lemma summary_yield st : summary 0 0 st (yielded st).
Proof. destruct (yield_inv st) as [_ Hd]. by apply summary_delivered in Hd. Qed.

Lemma handle_shutdown_summary sig_num st r st' :
  handle_shutdown sig_num st = (r, st') ->
  summary 0 0 st st' /\ signal (self st') <> None /\ r <> Stuck.
Proof.
  destruct (signal (self st)) as [c|] eqn:Hsig.
  - rewrite (handle_shutdown_fired _ _ c Hsig). intros [= <- <-].
    split_and!; [apply summary_refl|congruence|done].
  - intros Hhs. apply handle_shutdown_first in Hhs
      as (Hs & _ & _ & Hr & d & Hd & Hev & _); [|done].
    split_and!; [|by rewrite Hs|done].
    split; [intros _ _; by rewrite Hs|].
    exists (SleeperSet :: d). split; [done|]. rewrite Hsig, Hs. simpl.
    exists [], d. split_and!; auto using not_elem_of_nil, quiet_shutdown.
Qed.

Lemma quiet_call name o : quiet 1 [Call MonitorCallable name o].
Proof. split; [done|]. rewrite calls_cons_same. simpl. lia. Qed.

Lemma not_set_singleton e : e <> SleeperSet -> SleeperSet ∉ [e].
Proof. intros He [?|?%elem_of_nil]%elem_of_cons; congruence. Qed.

Lemma not_set_block_events timeout : SleeperSet ∉ block_events timeout.
Proof.
  destruct timeout as [t|]; unfold block_events; [destruct (bool_decide _)|];
    try apply not_elem_of_nil; by apply not_set_singleton.
Qed.

Lemma block_events_monitor timeout : Forall monitor_event (block_events timeout).
Proof.
  destruct timeout as [t|]; unfold block_events; [destruct (bool_decide _)|];
    by repeat constructor.
Qed.

Lemma not_set_singleton_complete uncaught :
  Log INFO ShutdownComplete ∉ [ThreadExit uncaught].
Proof. intros [?|?%elem_of_nil]%elem_of_cons; congruence. Qed.

(** One probe: at most one call after the trigger, namely when the
    trigger went through before the call; a probe that stops the round
    leaves a cause recorded. *)
Lemma probe_summary func st r st' :
  probe func st = (r, st') ->
  summary 0 1 st st' /\ (r = Ok true -> signal (self st') <> None)
  /\ r <> Stuck.
Proof.
  rewrite probe_unfold.
  destruct (c_call func (world st)) as [o w]. cbn zeta.
  set (st1 := record [Call MonitorCallable (c_repr func) o] (with_world w st)).
  assert (Hcall : summary 0 1 st st1).
  { apply summary_record with [Call MonitorCallable (c_repr func) o]; auto.
    - by apply not_set_singleton.
    - apply quiet_call. }
  destruct o as [[]|ex].
  - intros [= <- <-]. split_and!; [done|discriminate|done].
  - destruct (handle_shutdown SIGABRT (yielded st1)) as [r2 st2] eqn:Hhs.
    apply handle_shutdown_summary in Hhs as (Hsum & Hsig & Hr).
    assert (Hall : summary 0 1 st st2).
    { apply (summary_trans 0 1 0 0 0 1 st st1); [exact Hcall| |lia..].
      by apply (summary_trans 0 0 0 0 0 0 st1 (yielded st1));
        [apply summary_yield| |lia..]. }
    destruct r2 as [[]|ex|]; intros [= <- <-]; split_and!; done.
  - destruct (exc_is_Exception ex); intros [= <- <-];
      (split_and!; [|discriminate|done]); [|done].
    apply (summary_trans 0 1 0 0 0 1 st st1); [exact Hcall| |lia..].
    apply summary_record
      with [Log ERROR (CallableFailed MonitorCallable (get_exception_str ex)
                         (c_repr func))]; auto using quiet_nil.
    + by apply not_set_singleton.
    + split; simpl; [done|lia].
Qed.

(** A round begun after the trigger calls no probe; begun before it, it
    calls at most one after the trigger. *)
Lemma monitor_round_summary funcs st r st' :
  monitor_round funcs st = (r, st') -> summary 1 0 st st' /\ r <> Stuck.
Proof.
  revert st. induction funcs as [|func rest IH]; intros st.
  - intros [= <- <-]. split; [|done].
    apply summary_mono with 0%nat 0%nat; [lia..|apply summary_refl].
  - rewrite monitor_round_cons. cbn zeta.
    pose proof (summary_yield st) as Hy1.
    destruct (signal (self (yielded st))) as [c|] eqn:Hsig1.
    + intros [= <- <-]. split; [|done].
      by apply summary_mono with 0%nat 0%nat; [lia..|].
    + pose proof (summary_yield (yielded st)) as Hy2.
      destruct (probe func (yielded (yielded st))) as [r2 st2] eqn:Hp.
      apply probe_summary in Hp as (Hp & Hstop & Hr).
      assert (Hhere : summary 1 1 st st2).
      { apply (summary_trans 0 0 1 1 1 1 st (yielded st)); [exact Hy1| |lia..].
        by apply (summary_trans 0 0 0 1 1 1 _ (yielded (yielded st)));
          [exact Hy2| |lia..]. }
      assert (Hstopped : signal (self st2) <> None -> summary 1 0 st st2).
      { intros Hfired. destruct Hhere as (Hc & d & Hd & Hcase).
        split; [done|]. exists d. split; [done|].
        destruct (signal (self st)) as [c|] eqn:Hsig0; [|done].
        exfalso. destruct Hy1 as (_ & d1 & _ & Hcase1).
        rewrite Hsig0 in Hcase1. destruct Hcase1 as [Hcase1 _]. congruence. }
      assert (Hbefore : signal (self st) = None).
      { destruct (signal (self st)) as [c|] eqn:Hsig0; [|done].
        destruct Hy1 as (_ & d1 & _ & Hcase1). rewrite Hsig0 in Hcase1.
        destruct Hcase1 as [Hcase1 _]. congruence. }
      destruct r2 as [[]|ex|].
      * intros [= <- <-]. split; [|done]. apply Hstopped. by apply Hstop.
      * intros Hrest. apply IH in Hrest as [Hrest Hr']. split; [|done].
        destruct (signal (self st2)) as [c|] eqn:Hsig2.
        -- apply (summary_trans 1 0 1 0 1 0 st st2); [|exact Hrest|lia..].
           apply Hstopped. congruence.
        -- destruct Hhere as (Hc & d & Hd & Hcase).
           rewrite Hbefore, Hsig2 in Hcase.
           apply (summary_trans 0 0 1 0 1 0 st st2); [|exact Hrest|lia..].
           split; [done|]. exists d. split; [done|].
           by rewrite Hbefore, Hsig2.
      * intros [= <- <-]. split; [|done].
        destruct Hhere as (Hc & d & Hd & Hcase). split; [done|].
        exists d. split; [done|]. by rewrite Hbefore in *.
      * done.
Qed.

Lemma summary_record_before u t d st st' :
  signal (self st) = None ->
  self st' = self st -> trace st' = trace st ++ d ->
  SleeperSet ∉ d -> summary u t st st'.
Proof.
  intros Hnone Hs Hd Hn. split; [unfold consistent; by rewrite Hs|].
  exists d. split; [done|]. by rewrite Hs, Hnone.
Qed.

Lemma summary_consistent u t st st' :
  summary u t st st' -> consistent st -> consistent st'.
Proof. by intros [Hc _]. Qed.

(** A wait begun when the event is set returns at once; a wait that
    blocks was begun before the trigger; and one that never returns
    leaves no cause recorded. *)
Lemma sleeper_wait_summary timeout st r st' :
  consistent st ->
  sleeper_wait timeout st = (r, st') ->
  summary 0 0 st st' /\ (r = Stuck -> signal (self st') = None).
Proof.
  intros Hcons. rewrite sleeper_wait_unfold.
  destruct (sleeper (self st)) eqn:Hsl.
  - intros [= <- <-]. split; [apply summary_refl|discriminate].
  - assert (Hnone : signal (self st) = None).
    { destruct (signal (self st)) eqn:Hsig; [|done].
      unfold consistent in Hcons. rewrite Hsig, Hsl in Hcons.
      by discriminate Hcons. }
    cbn zeta. set (st1 := yielded (record (block_events timeout) st)).
    assert (Hsum : summary 0 0 st st1).
    { apply (summary_trans 0 0 0 0 0 0 st (record (block_events timeout) st));
        [|apply summary_yield|lia..].
      apply summary_record_before with (block_events timeout); auto.
      apply not_set_block_events. }
    pose proof (summary_consistent _ _ _ _ Hsum Hcons) as Hcons1.
    destruct (sleeper (self st1)) eqn:Hsl1.
    + intros [= <- <-]. split; [done|discriminate].
    + assert (Hnone1 : signal (self st1) = None).
      { destruct (signal (self st1)) eqn:Hsig; [|done].
        unfold consistent in Hcons1. rewrite Hsig, Hsl1 in Hcons1.
        by discriminate Hcons1. }
      destruct timeout; intros [= <- <-]; split; done.
Qed.

(** The loop: begun after the trigger it does nothing; begun before, at
    most one probe is called after the trigger; and it stops running as
    soon as it sees the cause, so a run that has not ended has seen
    none. *)
Lemma monitor_loop_summary rounds st r st' :
  consistent st ->
  monitor_loop rounds st = (r, st') ->
  summary 1 0 st st' /\ (r = Stuck -> signal (self st') = None).
Proof.
  revert st. induction rounds as [|rounds IH]; intros st Hcons;
    rewrite monitor_loop_unfold; cbn zeta;
    pose proof (summary_yield st) as Hy;
    pose proof (summary_consistent _ _ _ _ Hy Hcons) as Hcons1;
    apply (summary_mono 0 0 1 0) in Hy; try lia;
    destruct (signal (self (yielded st))) as [c|] eqn:Hsig;
    try (intros [= <- <-]; split; [done|discriminate || done]).
  destruct (monitor_callables (self (yielded st))) as [funcs|];
    [|intros [= <- <-]; split; [done|discriminate]].
  destruct (monitor_round funcs (yielded st)) as [r2 st2] eqn:Hround.
  apply monitor_round_summary in Hround as [Hround Hr2].
  pose proof (summary_consistent _ _ _ _ Hround Hcons1) as Hcons2.
  assert (Hsum2 : summary 1 0 st st2).
  { by apply (summary_trans 1 0 1 0 1 0 st (yielded st)); [| |lia..]. }
  destruct r2 as [[]|ex|]; [|intros [= <- <-]; split; [done|discriminate]|done].
  destruct (sleeper_wait _ st2) as [r3 st3] eqn:Hwait.
  apply sleeper_wait_summary in Hwait as [Hwait Hr3]; [|done].
  pose proof (summary_consistent _ _ _ _ Hwait Hcons2) as Hcons3.
  assert (Hsum3 : summary 1 0 st st3).
  { by apply (summary_trans 1 0 0 0 1 0 st st2); [| |lia..]. }
  destruct r3 as [b|ex|];
    [|intros [= <- <-]; split; [done|discriminate]
     |intros [= <- <-]; split; [done|auto]].
  intros Hloop. apply IH in Hloop as [Hloop Hr]; [|done].
  split; [|done].
  by apply (summary_trans 1 0 1 0 1 0 st st3); [| |lia..].
Qed.

Lemma ensure_sentinel_summary st r st' :
  ensure_sentinel st = (r, st') ->
  summary 0 0 st st' /\ r <> Stuck
  /\ signal (self st') = signal (self st).
Proof.
  unfold ensure_sentinel. unfold_monad.
  destruct (bool_decide _).
  - intros [= <- <-]. split_and!; [apply summary_refl|done..].
  - intros Hrun. apply register_shutdown_signals_inv in Hrun
      as (Hr & _ & _ & added & Hs & Ht & _).
    split_and!; [|done|by rewrite Hs].
    split; [unfold consistent; by rewrite Hs|].
    exists (Install MonitorThread <$> added). split; [done|].
    assert (Hq : quiet 0 (Install MonitorThread <$> added)
                 /\ SleeperSet ∉ Install MonitorThread <$> added).
    { clear. induction added as [|a l [[Hb Hc] Hn]]; simpl.
      - split; [apply quiet_nil|apply not_elem_of_nil].
      - split; [split; [exact Hb|exact Hc]|].
        intros [?|?]%elem_of_cons; [discriminate|done]. }
    rewrite Hs. simpl. destruct (signal (self st)); [by destruct Hq|].
    by destruct Hq.
Qed.

(** The whole thread. *)
Lemma monitor_summary rounds st r st' :
  consistent st ->
  monitor rounds st = (r, st') ->
  summary 1 0 st st' /\ (r = Stuck -> signal (self st') = None).
Proof.
  intros Hcons. unfold monitor. unfold_monad.
  destruct (sleeper_wait (start_delay (self st)) st) as [r1 st1] eqn:Hwait.
  apply sleeper_wait_summary in Hwait as [Hwait Hr1]; [|done].
  pose proof (summary_consistent _ _ _ _ Hwait Hcons) as Hcons1.
  apply (summary_mono 0 0 1 0) in Hwait; try lia.
  destruct r1 as [b|ex|];
    [|intros [= <- <-]; split; [done|discriminate]
     |intros [= <- <-]; split; [done|auto]].
  rewrite yield_ok.
  pose proof (summary_yield st1) as Hy.
  pose proof (summary_consistent _ _ _ _ Hy Hcons1) as Hcons2.
  assert (Hsum2 : summary 1 0 st (yielded st1)).
  { by apply (summary_trans 1 0 0 0 1 0 st st1); [| |lia..]. }
  destruct (signal (self (yielded st1))) as [c|] eqn:Hsig.
  - intros [= <- <-]. split; [done|discriminate].
  - destruct (ensure_sentinel (yielded st1)) as [r3 st3] eqn:Hens.
    apply ensure_sentinel_summary in Hens as (Hens & Hr3 & Hsig3).
    pose proof (summary_consistent _ _ _ _ Hens Hcons2) as Hcons3.
    assert (Hsum3 : summary 1 0 st st3).
    { by apply (summary_trans 1 0 0 0 1 0 st (yielded st1)); [| |lia..]. }
    destruct r3 as [[]|ex|]; [|intros [= <- <-]; split; [done|discriminate]|done].
    intros Hloop. apply monitor_loop_summary in Hloop as [Hloop Hr]; [|done].
    split; [|done].
    by apply (summary_trans 1 0 1 0 1 0 st st3); [| |lia..].
Qed.

Lemma after_trigger_none d : SleeperSet ∉ d -> after_trigger d = [].
Proof.
  induction d as [|e d IH]; [done|]. rewrite not_elem_of_cons.
  intros [He Hd]. destruct e; simpl; auto. congruence.
Qed.

Lemma after_trigger_app d1 d2 :
  SleeperSet ∉ d1 -> after_trigger (d1 ++ SleeperSet :: d2) = d2.
Proof.
  induction d1 as [|e d1 IH]; [done|]. rewrite not_elem_of_cons.
  intros [He Hd]. destruct e; simpl; auto. congruence.
Qed.

(** A batch with a signal whose handler is installed, delivered before
    the trigger, leaves a cause recorded and the event set. *)
Lemma deliver_all_triggers nums sig_num st :
  signal (self st) = None -> sig_num ∈ nums -> sig_num ∈ handlers st ->
  signal (self (deliver_all nums st).2) <> None
  /\ sleeper (self (deliver_all nums st).2) = true.
Proof.
  intros Hnone Hin Hh. induction nums as [|num nums IH];
    [by apply elem_of_nil in Hin|].
  simpl. unfold_monad. unfold deliver.
  destruct (bool_decide (num ∈ handlers st)) eqn:Hnum.
  - destruct (handle_shutdown num st) as [r st1] eqn:Hhs. simpl.
    apply handle_shutdown_first in Hhs as (Hs & _); [|done].
    rewrite (deliver_all_fired nums st1 num) by (by rewrite Hs).
    simpl. by rewrite Hs.
  - simpl. apply IH. apply elem_of_cons in Hin as [->|Hin]; [|done].
    apply bool_decide_eq_false in Hnum. contradiction.
Qed.

(** C8, as the code has it.  For the monitor thread run against any
    deliveries: a run that has not ended has seen no cause, so once the
    trigger has gone through the thread ends; after the first trigger no
    wait blocks, and at most one probe is called, the one whose test of
    line 77 had passed before; begun with a cause recorded the thread
    does neither.  A wait returns at once when the event is set, and a
    wait that blocks ends with the event set as soon as a signal with
    the handler installed is delivered.  A thread once started is not
    started again. *)
Theorem monitor_exits_once_triggered rounds st r st' :
  consistent st ->
  monitor rounds st = (r, st') ->
  (r = Stuck -> signal (self st') = None)
  /\ (exists d, trace st' = trace st ++ d
       /\ (signal (self st) = None -> quiet 1 (after_trigger d))
       /\ (signal (self st) <> None -> quiet 0 d))
  /\ (forall timeout st0,
        sleeper (self st0) = true -> sleeper_wait timeout st0 = (Ok true, st0))
  /\ (forall timeout st0 batch rest sig_num,
        sleeper (self st0) = false -> signal (self st0) = None ->
        pending st0 = batch :: rest ->
        sig_num ∈ batch -> sig_num ∈ handlers st0 ->
        exists st1, sleeper_wait timeout st0 = (Ok true, st1)
                    /\ signal (self st1) <> None)
  /\ (forall delay st0,
        thread (self st0) <> Initial ->
        (start delay st0).1 = Raise RuntimeError_started_twice).
Proof.
  intros Hcons Hrun.
  apply monitor_summary in Hrun as [(_ & d & Hd & Hcase) Hstuck]; [|done].
  split_and!.
  - exact Hstuck.
  - exists d. split; [done|]. split.
    + intros Hnone. rewrite Hnone in Hcase.
      destruct (signal (self st')).
      * destruct Hcase as (d1 & d2 & -> & Hn & Hq).
        by rewrite after_trigger_app.
      * rewrite after_trigger_none by done.
        apply quiet_mono with 0%nat; [lia|apply quiet_nil].
    + intros Hsome. destruct (signal (self st)); [|done]. by destruct Hcase.
  - intros timeout st0 Hsl. by rewrite sleeper_wait_unfold, Hsl.
  - intros timeout st0 batch rest sig_num Hsl Hnone Hp Hin Hh.
    rewrite sleeper_wait_unfold, Hsl. cbn zeta.
    unfold yielded, yield. simpl. rewrite Hp.
    destruct (deliver_all_triggers batch sig_num
                (with_pending rest (record (block_events timeout) st0)))
      as [Hsig Hsl1]; auto.
    rewrite Hsl1. by eexists.
  - intros delay st0 Ht. unfold start. unfold_monad. simpl.
    by destruct (thread (self st0)).
Qed.

(** ** What a round leaves in the trace *)

Lemma after_unhealthy_app d1 d2 :
  after_unhealthy (d1 ++ d2)
  = match after_unhealthy d1 with
    | Some t => Some (t ++ d2)
    | None => after_unhealthy d2
    end.
Proof.
  induction d1 as [|e d1 IH]; [done|]. simpl. by destruct (unhealthy e).
Qed.

Lemma handler_trace_quiet d :
  handler_trace d ->
  calls MonitorCallable d = [] /\ after_unhealthy d = None.
Proof.
  intros [->|(d' & -> & Hev)]; [done|].
  split.
  - apply shutdown_event_quiet in Hev as (_ & Hm & _). exact Hm.
  - simpl. induction Hev as [|e d' He _ IH]; [done|]. simpl.
    destruct e as [l m|k name o| | | |]; simpl in *; try done.
    by subst k.
Qed.

Lemma yield_trace st :
  exists d, trace (yielded st) = trace st ++ d /\ handler_trace d.
Proof.
  destruct (yield_inv st) as [_ (_ & [(_ & _ & Ht)|(_ & sig_num & d & _ & _ & _ & Ht & Hev & _)])].
  - exists []. rewrite app_nil_r. split; [done|by left].
  - exists (SleeperSet :: d). split; [done|]. right. by exists d.
Qed.

Lemma handle_shutdown_trace sig_num st r st' :
  handle_shutdown sig_num st = (r, st') ->
  exists d, trace st' = trace st ++ d /\ handler_trace d.
Proof.
  destruct (signal (self st)) as [c|] eqn:Hsig.
  - rewrite (handle_shutdown_fired _ _ c Hsig). intros [= <- <-].
    exists []. rewrite app_nil_r. split; [done|by left].
  - intros Hhs. apply handle_shutdown_first in Hhs
      as (_ & _ & _ & _ & d & Hd & Hev & _); [|done].
    exists (SleeperSet :: d). split; [done|]. right. by exists d.
Qed.

(** One probe: its call, then, when it reported unhealthy, nothing but
    what handlers do, with a cause recorded at the end. *)
Lemma probe_trace func st r st' :
  probe func st = (r, st') ->
  exists o d,
    trace st' = trace st ++ Call MonitorCallable (c_repr func) o :: d
    /\ calls MonitorCallable d = []
    /\ after_unhealthy d = None
    /\ (unhealthy (Call MonitorCallable (c_repr func) o) = true ->
        signal (self st') <> None /\ r <> Ok false).
Proof.
  rewrite probe_unfold. destruct (c_call func (world st)) as [o w].
  cbn zeta. intros Hrun. exists o. revert Hrun.
  set (st1 := record [Call MonitorCallable (c_repr func) o] (with_world w st)).
  destruct o as [[]|ex].
  - intros [= <- <-]. exists []. by split_and!.
  - destruct (yield_trace st1) as (dy & Hdy & Hy).
    destruct (handle_shutdown SIGABRT (yielded st1)) as [r2 st2] eqn:Hhs.
    pose proof Hhs as Hsum. apply handle_shutdown_summary in Hsum as (_ & Hsig & _).
    apply handle_shutdown_trace in Hhs as (dh & Hdh & Hh).
    apply handler_trace_quiet in Hy as [Hy1 Hy2].
    apply handler_trace_quiet in Hh as [Hh1 Hh2].
    assert (Hboth : trace st2
                    = trace st ++ Call MonitorCallable (c_repr func)
                                    (Returns false) :: dy ++ dh).
    { rewrite Hdh, Hdy. subst st1. simpl. by rewrite <- !app_assoc. }
    intros Hrun.
    assert (r = match r2 with Ok _ => Ok true | Raise ex => Raise ex
                         | Stuck => Stuck end /\ st' = st2) as [-> ->].
    { destruct r2; inversion Hrun; done. }
    exists (dy ++ dh). split_and!; auto.
    + by rewrite calls_app, Hy1, Hh1.
    + by rewrite after_unhealthy_app, Hy2.
    + intros _. split; [done|]. by destruct r2.
  - destruct (exc_is_Exception ex); intros [= <- <-].
    + eexists. split_and!; [simpl; by rewrite <- app_assoc|done..].
    + exists []. by split_and!.
Qed.

(** A round: the probes called are the first ones of the list, in
    order, and after a probe that reported unhealthy no probe is called
    and a cause is recorded. *)
Lemma monitor_round_trace funcs st r st' :
  monitor_round funcs st = (r, st') ->
  exists d, trace st' = trace st ++ d
    /\ (calls MonitorCallable d `prefix_of` (c_repr <$> funcs))
    /\ match after_unhealthy d with
       | Some d2 => calls MonitorCallable d2 = [] /\ signal (self st') <> None
       | None => True
       end.
Proof.
  revert st. induction funcs as [|func rest IH]; intros st.
  - intros [= <- <-]. exists []. rewrite app_nil_r. by split_and!.
  - rewrite monitor_round_cons. cbn zeta.
    destruct (yield_trace st) as (dy1 & Hdy1 & Hy1).
    apply handler_trace_quiet in Hy1 as [Hy1c Hy1u].
    destruct (signal (self (yielded st))) as [c|] eqn:Hsig1.
    { intros [= <- <-]. exists dy1. rewrite Hy1c, Hy1u.
      split_and!; [done|apply prefix_nil|done]. }
    destruct (yield_trace (yielded st)) as (dy2 & Hdy2 & Hy2).
    apply handler_trace_quiet in Hy2 as [Hy2c Hy2u].
    destruct (probe func (yielded (yielded st))) as [r2 st2] eqn:Hp.
    apply probe_trace in Hp as (o & dp & Hdp & Hpc & Hpu & Hstop).
    set (X := Call MonitorCallable (c_repr func) o) in *.
    assert (Ht2 : trace st2 = trace st ++ dy1 ++ dy2 ++ X :: dp).
    { by rewrite Hdp, Hdy2, Hdy1, <- !app_assoc. }
    assert (Hcalls : forall d, calls MonitorCallable (dy1 ++ dy2 ++ X :: dp ++ d)
                               = c_repr func :: calls MonitorCallable d).
    { intros d. rewrite !calls_app, Hy1c, Hy2c. simpl.
      subst X. by rewrite calls_cons_same, calls_app, Hpc. }
    assert (Hafter : forall d, after_unhealthy (dy1 ++ dy2 ++ X :: dp ++ d)
                               = if unhealthy X then Some (dp ++ d)
                                 else after_unhealthy d).
    { intros d. rewrite !after_unhealthy_app, Hy1u, Hy2u. subst X.
      destruct o as [[]|?]; simpl; by rewrite ?after_unhealthy_app, ?Hpu. }
    assert (Hend : forall r0, r0 <> Ok false -> r2 = r0 ->
              exists d, trace st2 = trace st ++ d
                /\ (calls MonitorCallable d `prefix_of`
                      (c_repr <$> func :: rest))
                /\ match after_unhealthy d with
                   | Some d2 => calls MonitorCallable d2 = []
                                /\ signal (self st2) <> None
                   | None => True
                   end).
    { intros r0 Hr0 ->. exists (dy1 ++ dy2 ++ X :: dp).
      specialize (Hcalls []). specialize (Hafter []).
      rewrite app_nil_r in Hcalls, Hafter. rewrite Hcalls, Hafter.
      split_and!; [done|apply prefix_cons, prefix_nil|].
      destruct (unhealthy X); [|done]. split; [done|]. by apply Hstop. }
    destruct r2 as [[]|ex|].
    + intros [= <- <-]. by apply (Hend (Ok true)).
    + intros Hrest. apply IH in Hrest as (d & Hd & Hpre & Hun).
      exists (dy1 ++ dy2 ++ X :: dp ++ d). rewrite Hcalls, Hafter.
      split_and!.
      * rewrite Hd, Ht2. by repeat (rewrite <- app_assoc; simpl).
      * simpl. by apply prefix_cons.
      * destruct (unhealthy X) eqn:HX; [|done].
        by destruct (Hstop eq_refl) as [_ []].
    + intros [= <- <-]. by apply (Hend (Raise ex)).
    + intros [= <- <-]. by apply (Hend Stuck).
Qed.

Lemma after_unhealthy_split d1 e d2 :
  unhealthy e = true ->
  exists l, after_unhealthy (d1 ++ e :: d2) = Some (l ++ d2).
Proof.
  intros He. induction d1 as [|e1 d1 [l IH]]; simpl.
  - rewrite He. by exists [].
  - destruct (unhealthy e1); [|by exists l].
    exists (d1 ++ [e]). by rewrite <- app_assoc.
Qed.

(** C3.  In any pass over the probes, against any deliveries: when the
    trace of the pass shows a probe returning something false, no probe
    is called after it in that pass, the probes called up to it are the
    first ones of the list in registration order, and a cause is
    recorded at the end of the pass.  The probe itself goes on by
    calling the handler with [SIGABRT], which records [SIGABRT] unless a
    delivered signal was recorded first, and leaves the loop. *)
Theorem unhealthy_probe_stops_round funcs st r st' d1 name d2 :
  monitor_round funcs st = (r, st') ->
  trace st' = trace st ++ d1 ++ Call MonitorCallable name (Returns false) :: d2 ->
  calls MonitorCallable d2 = []
  /\ (calls MonitorCallable (d1 ++ [Call MonitorCallable name (Returns false)])
      `prefix_of` (c_repr <$> funcs))
  /\ signal (self st') <> None
  /\ (forall func st0 w,
        c_call func (world st0) = (Returns false, w) ->
        let st1 :=
          yielded (record [Call MonitorCallable (c_repr func) (Returns false)]
                     (with_world w st0)) in
        probe func st0
        = match handle_shutdown SIGABRT st1 with
          | (Ok _, st2) => (Ok true, st2)
          | (Raise ex, st2) => (Raise ex, st2)
          | (Stuck, st2) => (Stuck, st2)
          end
        /\ (signal (self st1) = None ->
            signal (self (handle_shutdown SIGABRT st1).2) = Some SIGABRT)).
Proof.
  intros Hrun Htrace.
  apply monitor_round_trace in Hrun as (d & Hd & Hpre & Hun).
  rewrite Hd in Htrace. apply app_inv_head in Htrace. subst d.
  destruct (after_unhealthy_split d1
              (Call MonitorCallable name (Returns false)) d2 eq_refl)
    as [l Hl].
  rewrite Hl in Hun. destruct Hun as [Hnone Hsig].
  rewrite calls_app in Hnone. apply app_eq_nil in Hnone as [_ Hnone].
  split_and!; auto.
  - rewrite (calls_app _ d1 (_ :: d2)), calls_cons_same, Hnone in Hpre.
    by rewrite calls_app, calls_cons_same.
  - intros func st0 w Hc st1. split.
    + rewrite probe_unfold, Hc. reflexivity.
    + intros Hnone1.
      destruct (handle_shutdown SIGABRT st1) as [r2 st2] eqn:Hhs.
      apply handle_shutdown_first in Hhs as (Hs & _); [|done].
      simpl. by rewrite Hs.
Qed.

(** ** Probes that raise *)

Lemma probe_raises func st ex w :
  c_call func (world st) = (Raises ex, w) ->
  exc_is_Exception ex = true ->
  probe func st
  = (Ok false,
     record [Call MonitorCallable (c_repr func) (Raises ex);
             Log ERROR (CallableFailed MonitorCallable (get_exception_str ex)
                          (c_repr func))]
       (with_world w st)).
Proof.
  intros Hc Hex. rewrite probe_unfold, Hc. cbn beta iota zeta.
  by rewrite Hex, record_record.
Qed.

Lemma yielded_none st : pending st = [] -> yielded st = st.
Proof. intros Hp. unfold yielded, yield. by rewrite Hp. Qed.

(** With nothing delivered, a pass over probes none of which reports
    unhealthy calls them all and changes nothing of the instance. *)
Lemma monitor_round_never_unhealthy funcs st :
  Forall never_unhealthy funcs -> pending st = [] ->
  signal (self st) = None ->
  exists st' d,
    monitor_round funcs st = (Ok tt, st')
    /\ self st' = self st /\ pending st' = [] /\ handlers st' = handlers st
    /\ trace st' = trace st ++ d
    /\ calls MonitorCallable d = (c_repr <$> funcs)
    /\ calls ShutdownCallable d = [] /\ blocks d = []
    /\ (SleeperSet ∉ d)
    /\ failures MonitorCallable d = faults MonitorCallable d.
Proof.
  intros Hall. revert st.
  induction Hall as [|func rest Hf _ IH]; intros st Hp Hnone.
  - exists st, []. rewrite app_nil_r. split_and!; auto. apply not_elem_of_nil.
  - rewrite monitor_round_cons. cbn zeta. rewrite !yielded_none by done.
    rewrite Hnone. specialize (Hf (world st)).
    destruct (c_call func (world st)) as [[b|ex] w] eqn:Hc; simpl in Hf.
    + subst b. rewrite probe_unfold, Hc. cbn zeta.
      set (st1 := record _ _).
      destruct (IH st1)
        as (st' & d & Hrun & Hs & Hp' & Hh & Ht & Hm & Hsd & Hb & Hn & Hfl);
        auto.
      exists st', (Call MonitorCallable (c_repr func) (Returns true) :: d).
      split_and!; auto;
        [rewrite Ht; simpl; by rewrite <- app_assoc
        |by rewrite calls_cons_same, Hm
        |intros [?|?]%elem_of_cons; [discriminate|done]].
    + rewrite (probe_raises _ _ _ _ Hc Hf).
      set (st1 := record _ _).
      destruct (IH st1)
        as (st' & d & Hrun & Hs & Hp' & Hh & Ht & Hm & Hsd & Hb & Hn & Hfl);
        auto.
      exists st', (Call MonitorCallable (c_repr func) (Raises ex)
                     :: Log ERROR (CallableFailed MonitorCallable
                                     (get_exception_str ex) (c_repr func))
                     :: d).
      split_and!; auto;
        [rewrite Ht; simpl; by rewrite <- app_assoc
        |rewrite calls_cons_same; simpl; f_equal; exact Hm
        |intros [?|[?|?]%elem_of_cons]%elem_of_cons; [discriminate..|done]
        |].
      destruct (failures_raised MonitorCallable (c_repr func) ex d Hf)
        as [-> ->].
      by rewrite Hfl.
Qed.

(** With nothing delivered, the loop over such probes goes on for as
    many rounds as it is given, calling every probe in every round. *)
Lemma monitor_loop_never_unhealthy rounds funcs st :
  Forall never_unhealthy funcs -> pending st = [] ->
  signal (self st) = None -> sleeper (self st) = false ->
  monitor_callables (self st) = Some funcs ->
  exists st' d,
    monitor_loop rounds st = (Stuck, st')
    /\ signal (self st') = None
    /\ trace st' = trace st ++ d
    /\ calls MonitorCallable d
       = List.concat (replicate rounds (c_repr <$> funcs))
    /\ calls ShutdownCallable d = []
    /\ failures MonitorCallable d = faults MonitorCallable d.
Proof.
  intros Hall. revert st.
  induction rounds as [|rounds IH]; intros st Hp Hnone Hsl Hmc;
    rewrite monitor_loop_unfold; cbn zeta; rewrite yielded_none by done;
    rewrite Hnone.
  - exists st, []. rewrite app_nil_r. by split_and!.
  - rewrite Hmc.
    destruct (monitor_round_never_unhealthy funcs st Hall Hp Hnone)
      as (st1 & d1 & -> & Hs1 & Hp1 & _ & Ht1 & Hm1 & Hsd1 & _ & _ & Hfl1).
    rewrite sleeper_wait_unfold, Hs1, Hsl. cbn zeta.
    rewrite yielded_none by done. simpl. rewrite Hs1, Hsl.
    set (db := block_events (Some (monitor_delay (self st)))).
    assert (Hdb : calls MonitorCallable db = [] /\ calls ShutdownCallable db = []
                  /\ failures MonitorCallable db = []
                  /\ faults MonitorCallable db = []).
    { subst db. unfold block_events. by destruct (bool_decide _). }
    destruct Hdb as (Hdb1 & Hdb2 & Hdb3 & Hdb4).
    destruct (IH (record db st1))
      as (st' & d & Hrun & Hsig & Ht & Hm & Hsd & Hfl); simpl; try congruence.
    exists st', (d1 ++ db ++ d).
    rewrite Hrun. split_and!; auto.
    + rewrite Ht. simpl. rewrite Ht1. by rewrite <- !app_assoc.
    + rewrite !calls_app, Hm1, Hdb1. simpl. by rewrite <- Hm.
    + rewrite !calls_app, Hsd1, Hdb2. simpl. exact Hsd.
    + by rewrite !failures_app, !faults_app, Hfl1, Hdb3, Hdb4, Hfl.
Qed.

(** C4.  A probe that raises an error is logged with its own text and
    that of the error, each line of it stripped and with its line breaks
    replaced by blanks, and the [try] statement ends without [break] and
    without a call of the handler: the instance is as it was.  The pass
    goes on with the next probe.  And with probes that only ever report
    healthy or raise errors, and no signal delivered, every pass calls
    every probe, every error raised is logged so and nothing else is,
    no cause is ever recorded, no shutdown callable runs, and the loop is
    still running after any number of rounds. *)
Theorem faulting_probe_does_not_trigger func rest st ex w rounds funcs :
  c_call func (world st) = (Raises ex, w) ->
  exc_is_Exception ex = true ->
  let reason :=
    map (fun item => Text.replace_newlines (Text.strip item)) (exc_format ex) in
  let st1 :=
    record [Call MonitorCallable (c_repr func) (Raises ex);
            Log ERROR (CallableFailed MonitorCallable reason (c_repr func))]
      (with_world w st) in
  probe func st = (Ok false, st1)
  /\ self st1 = self st
  /\ (pending st = [] -> signal (self st) = None ->
      monitor_round (func :: rest) st = monitor_round rest st1)
  /\ (Forall never_unhealthy funcs -> pending st = [] ->
      signal (self st) = None -> sleeper (self st) = false ->
      monitor_callables (self st) = Some funcs ->
      exists st' d,
        monitor_loop rounds st = (Stuck, st')
        /\ signal (self st') = None
        /\ trace st' = trace st ++ d
        /\ calls MonitorCallable d
           = List.concat (replicate rounds (c_repr <$> funcs))
        /\ calls ShutdownCallable d = []
        /\ failures MonitorCallable d = faults MonitorCallable d).
Proof.
  intros Hc Hex reason st1. split_and!.
  - by apply probe_raises.
  - reflexivity.
  - intros Hp Hnone. rewrite monitor_round_cons. cbn zeta.
    rewrite !yielded_none by done. rewrite Hnone.
    by rewrite (probe_raises _ _ _ _ Hc Hex).
  - apply monitor_loop_never_unhealthy.
Qed.

(** ** What the monitor thread leaves alone *)

Lemma stable_refl (w : Watchdog World) : stable w w.
Proof. by repeat split. Qed.

Lemma stable_trans (w1 w2 w3 : Watchdog World) :
  stable w1 w2 -> stable w2 w3 -> stable w1 w3.
Proof. unfold stable. intuition congruence. Qed.

Lemma frame_refl st : frame st st.
Proof.
  split; [apply stable_refl|]. exists []. by rewrite app_nil_r.
Qed.

Lemma frame_trans st1 st2 st3 : frame st1 st2 -> frame st2 st3 -> frame st1 st3.
Proof.
  intros [Hs1 (d1 & Hd1 & He1)] [Hs2 (d2 & Hd2 & He2)].
  split; [by apply stable_trans with (self st2)|].
  exists (d1 ++ d2). split; [by rewrite Hd2, Hd1, app_assoc|].
  by apply Forall_app.
Qed.

Lemma frame_record d st : Forall monitor_event d -> frame st (record d st).
Proof. intros Hd. split; [apply stable_refl|]. by exists d. Qed.

Lemma shutdown_event_monitor d :
  Forall shutdown_event d -> Forall monitor_event d.
Proof.
  intros Hd. eapply Forall_impl; [exact Hd|].
  intros [l m|k name o| | | |]; simpl; try tauto.
  - destruct l, m; simpl; try tauto. by intros ->.
  - by intros ->.
Qed.

Lemma frame_delivered nums st st' : delivered nums st st' -> frame st st'.
Proof.
  intros (_ & [(Hs & _ & Ht)|(_ & sig_num & d & _ & _ & Hs & Ht & Hev & _)]).
  - split; [rewrite Hs; apply stable_refl|].
    exists []. by rewrite app_nil_r.
  - split; [by rewrite Hs|]. exists (SleeperSet :: d). split; [done|].
    constructor; [done|]. by apply shutdown_event_monitor.
Qed.

Lemma frame_yield st : frame st (yielded st).
Proof. destruct (yield_inv st) as [_ Hd]. by apply frame_delivered in Hd. Qed.

Lemma handle_shutdown_frame sig_num st r st' :
  handle_shutdown sig_num st = (r, st') -> frame st st'.
Proof.
  destruct (signal (self st)) as [c|] eqn:Hsig.
  - rewrite (handle_shutdown_fired _ _ c Hsig). intros [= <- <-].
    apply frame_refl.
  - intros Hhs. apply handle_shutdown_first in Hhs
      as (Hs & _ & _ & _ & d & Hd & Hev & _); [|done].
    split; [by rewrite Hs|]. exists (SleeperSet :: d). split; [done|].
    constructor; [done|]. by apply shutdown_event_monitor.
Qed.

Lemma deliver_frame num st : frame st (deliver num st).2.
Proof.
  unfold deliver. destruct (bool_decide _); [|apply frame_refl].
  destruct (handle_shutdown num st) as [r st'] eqn:Hhs.
  by apply handle_shutdown_frame in Hhs.
Qed.

Lemma probe_frame func st r st' : probe func st = (r, st') -> frame st st'.
Proof.
  rewrite probe_unfold. destruct (c_call func (world st)) as [o w].
  cbn zeta.
  set (st1 := record [Call MonitorCallable (c_repr func) o] (with_world w st)).
  assert (Hcall : frame st st1).
  { split; [apply stable_refl|]. eexists. split; [reflexivity|].
    by repeat constructor. }
  destruct o as [[]|ex].
  - by intros [= <- <-].
  - destruct (handle_shutdown SIGABRT (yielded st1)) as [r2 st2] eqn:Hhs.
    apply handle_shutdown_frame in Hhs.
    assert (Hall : frame st st2).
    { apply frame_trans with st1; [done|].
      apply frame_trans with (yielded st1); [apply frame_yield|done]. }
    by destruct r2 as [[]|?|]; intros [= <- <-].
  - destruct (exc_is_Exception ex); intros [= <- <-]; [|done].
    apply frame_trans with st1; [done|]. apply frame_record.
    by repeat constructor.
Qed.

Lemma monitor_round_frame funcs st r st' :
  monitor_round funcs st = (r, st') -> frame st st'.
Proof.
  revert st. induction funcs as [|func rest IH]; intros st.
  - intros [= <- <-]. apply frame_refl.
  - rewrite monitor_round_cons. cbn zeta.
    pose proof (frame_yield st) as Hy1.
    destruct (signal (self (yielded st))); [by intros [= <- <-]|].
    pose proof (frame_yield (yielded st)) as Hy2.
    destruct (probe func (yielded (yielded st))) as [r2 st2] eqn:Hp.
    apply probe_frame in Hp.
    assert (Hhere : frame st st2).
    { apply frame_trans with (yielded st); [done|].
      by apply frame_trans with (yielded (yielded st)). }
    destruct r2 as [[]|?|]; try (by intros [= <- <-]).
    intros Hrest. apply IH in Hrest. by apply frame_trans with st2.
Qed.

Lemma sleeper_wait_frame timeout st r st' :
  sleeper_wait timeout st = (r, st') -> frame st st'.
Proof.
  rewrite sleeper_wait_unfold. destruct (sleeper (self st));
    [intros [= <- <-]; apply frame_refl|].
  cbn zeta.
  assert (Hhere : frame st (yielded (record (block_events timeout) st))).
  { apply frame_trans with (record (block_events timeout) st); [|apply frame_yield].
    apply frame_record. apply block_events_monitor. }
  destruct (sleeper _); [by intros [= <- <-]|].
  by destruct timeout; intros [= <- <-].
Qed.

Lemma register_shutdown_signals_frame ctx nums st r st' :
  register_shutdown_signals ctx nums st = (r, st') -> frame st st'.
Proof.
  intros Hrun. apply register_shutdown_signals_inv in Hrun
    as (_ & _ & _ & added & Hs & Ht & _).
  split; [by rewrite Hs|]. exists (Install ctx <$> added). split; [done|].
  clear. induction added; simpl; by constructor.
Qed.

Lemma monitor_loop_frame rounds st r st' :
  monitor_loop rounds st = (r, st') -> frame st st'.
Proof.
  revert st. induction rounds as [|rounds IH]; intros st;
    rewrite monitor_loop_unfold; cbn zeta;
    pose proof (frame_yield st) as Hy;
    destruct (signal (self (yielded st))); try (by intros [= <- <-]).
  destruct (monitor_callables _) as [funcs|]; [|by intros [= <- <-]].
  destruct (monitor_round funcs (yielded st)) as [r2 st2] eqn:Hround.
  apply monitor_round_frame in Hround.
  assert (Hsum2 : frame st st2) by (by apply frame_trans with (yielded st)).
  destruct r2 as [[]|?|]; try (by intros [= <- <-]).
  destruct (sleeper_wait _ st2) as [r3 st3] eqn:Hwait.
  apply sleeper_wait_frame in Hwait.
  assert (Hsum3 : frame st st3) by (by apply frame_trans with st2).
  destruct r3 as [b|?|]; try (by intros [= <- <-]).
  intros Hloop. apply IH in Hloop. by apply frame_trans with st3.
Qed.

Lemma monitor_frame rounds st r st' :
  monitor rounds st = (r, st') -> frame st st'.
Proof.
  unfold monitor. unfold_monad.
  destruct (sleeper_wait (start_delay (self st)) st) as [r1 st1] eqn:Hwait.
  apply sleeper_wait_frame in Hwait.
  destruct r1 as [b|?|]; try (by intros [= <- <-]).
  rewrite yield_ok.
  assert (Hsum2 : frame st (yielded st1)).
  { apply frame_trans with st1; [done|apply frame_yield]. }
  destruct (signal (self (yielded st1))); [by intros [= <- <-]|].
  destruct (ensure_sentinel (yielded st1)) as [r3 st3] eqn:Hens.
  assert (Hsum3 : frame st st3).
  { apply frame_trans with (yielded st1); [done|].
    revert Hens. unfold ensure_sentinel. unfold_monad.
    destruct (bool_decide _); [intros [= <- <-]; apply frame_refl|].
    apply register_shutdown_signals_frame. }
  destruct r3 as [[]|?|]; try (by intros [= <- <-]).
  intros Hloop. apply monitor_loop_frame in Hloop.
  by apply frame_trans with st3.
Qed.

(** The thread object: when its target has ended the thread is over and
    says so last; until then it is as it was started. *)
Lemma thread_run_inv rounds st :
  thread (self st) = Started ->
  let st' := thread_run rounds st in
  join_callables (self st') = join_callables (self st)
  /\ exists d, Forall monitor_event d
       /\ (thread (self st') = Started /\ trace st' = trace st ++ d
           \/ thread (self st') = Stopped
              /\ exists uncaught, trace st' = trace st ++ d ++ [ThreadExit uncaught]).
Proof.
  intros Hstarted. unfold thread_run. rewrite Hstarted.
  destruct (monitor rounds st) as [r st1] eqn:Hrun.
  apply monitor_frame in Hrun as [Hst (d & Hd & Hev)].
  destruct Hst as (_ & _ & Hj & _ & _ & Ht & _).
  destruct r as [[]|ex|]; simpl; (split; [done|]); exists d; (split; [done|]).
  - right. split; [done|]. exists None. by rewrite Hd, app_assoc.
  - right. split; [done|]. exists (Some ex). by rewrite Hd, app_assoc.
  - left. split; [congruence|done].
Qed.

(** ** [join] *)

Lemma monitor_event_quiet d :
  Forall monitor_event d ->
  calls JoinCallable d = [] /\ (Log INFO ShutdownComplete ∉ d).
Proof.
  induction 1 as [|e d He _ [Hc Hn]]; [split; [done|apply not_elem_of_nil]|].
  split.
  - destruct e as [l m|[] name o| | | |]; simpl in He; try done.
  - intros [<-|?]%elem_of_cons; [by simpl in He|done].
Qed.

(** The signals of a wait of the main thread: at most the first one
    with the handler installed acts, as for any delivery; a wait left by
    an exception is one in which that handler won the trigger. *)
Lemma interrupt_all_fired nums later st c :
  signal (self st) = Some c ->
  interrupt_all nums later st = (Ok tt, with_pending later st).
Proof.
  intros Hc. revert st Hc.
  induction nums as [|num nums IH]; intros st Hc; [done|].
  cbn [interrupt_all]. unfold_monad. unfold interrupt.
  destruct (bool_decide _).
  - rewrite (handle_shutdown_fired _ _ c) by done. by rewrite IH.
  - by rewrite IH.
Qed.

Lemma interrupt_all_inv nums later st r st' :
  interrupt_all nums later st = (r, st') ->
  r <> Stuck /\ delivered nums st st'
  /\ (forall ex, r = Raise ex ->
        signal (self st) = None /\ signal (self st') <> None).
Proof.
  revert st. induction nums as [|num nums IH]; intros st.
  - intros [= <- <-]. split; [done|]. split; [|done].
    unfold delivered. simpl. auto 10.
  - cbn [interrupt_all]. unfold_monad. unfold interrupt.
    set (st0 := with_pending (remaining nums later) st).
    destruct (bool_decide (num ∈ handlers st0)) eqn:Hin.
    + apply bool_decide_eq_true in Hin.
      destruct (signal (self st)) as [c|] eqn:Hsig.
      * rewrite (handle_shutdown_fired _ st0 c) by done.
        rewrite (interrupt_all_fired _ _ st0 c) by done.
        intros [= <- <-]. split; [done|]. split; [|done].
        unfold delivered. simpl. auto 10.
      * destruct (handle_shutdown num st0) as [r1 st1] eqn:Hhs.
        apply handle_shutdown_first in Hhs
          as (Hs & Hh & Hp & Hr1 & d & Hd & Hev & Hpre); [|done].
        assert (Hdel : delivered (num :: nums) st st1).
        { split; [done|]. right. split; [done|].
          exists num, d. rewrite elem_of_cons. auto 10. }
        assert (Hsome : signal (self st1) <> None) by (by rewrite Hs).
        destruct r1 as [[]|ex|]; [| |done].
        -- rewrite (interrupt_all_fired _ _ st1 num) by (by rewrite Hs).
           intros [= <- <-]. split; [done|]. split; [|done].
           destruct Hdel as [Hh' Hcase]. split; [done|exact Hcase].
        -- intros [= <- <-]. split; [done|]. split; [done|].
           intros ex' _. by split.
    + intros Hrun. apply IH in Hrun as (Hr & (Hh & Hcase) & Hex).
      split; [done|]. split; [|exact Hex]. split; [done|].
      destruct Hcase as [?|(Hnone & sig_num & d & Hin' & Hrest)];
        [by left|right]. split; [done|]. exists sig_num, d.
      rewrite elem_of_cons. split; [by right|exact Hrest].
Qed.

Lemma interrupts_inv st r st' :
  interrupts st = (r, st') ->
  r <> Stuck /\ delivered (default [] (head (pending st))) st st'
  /\ (forall ex, r = Raise ex ->
        signal (self st) = None /\ signal (self st') <> None).
Proof.
  unfold interrupts. destruct (pending st) as [|batch later].
  - intros [= <- <-]. split; [done|]. split; [|done].
    unfold delivered. auto 10.
  - apply interrupt_all_inv.
Qed.

Lemma interrupts_delivered st :
  delivered (default [] (head (pending st))) st (interrupts st).2.
Proof.
  destruct (interrupts st) as [r st'] eqn:Hwait.
  by apply interrupts_inv in Hwait as (_ & ? & _).
Qed.

Lemma join_unfold st :
  join st =
  match thread (self st) with
  | Initial => (Raise RuntimeError_join_unstarted, st)
  | Started =>
      match interrupts st with
      | (Ok _, st') => (Stuck, st')
      | other => other
      end
  | Stopped =>
      match join_callables (self st) with
      | None => (Raise TypeError_not_iterable, st)
      | Some funcs =>
          match run_callables JoinCallable funcs st with
          | (Ok _, st') => (Ok tt, record [Log INFO ShutdownComplete] st')
          | other => other
          end
      end
  end.
Proof.
  unfold join, thread_join. unfold_monad.
  destruct (thread (self st)); try reflexivity.
  - destruct (interrupts st) as [[[]|?|] ?]; reflexivity.
  - destruct (join_callables (self st)); [|reflexivity].
    destruct (run_callables _ _ _) as [[[]|?|] ?]; reflexivity.
Qed.

(** While the thread is running a call of [join] leaves what the
    deliveries during its wait leave. *)
Lemma join_started st :
  thread (self st) = Started -> (join st).2 = (interrupts st).2.
Proof.
  intros Ht. rewrite join_unfold, Ht.
  by destruct (interrupts st) as [[[]|?|] ?].
Qed.

(** C5.  Both teardown phases, for the lists as registered.  When
    [__handle_shutdown] wins the trigger with shutdown callables
    [pre ++ func :: post] registered, or [join] finds the thread over
    with these join callables registered, and in that call the
    callables [pre] have run and [func] raises an error [ex]: the error
    is caught and logged with [func] and the lines of [ex], each
    stripped and with its line breaks replaced by blanks; the method
    goes on with the callables [post] from there; and unless one of
    [post] raises something that is not an error the method returns
    normally, with every registered callable called once in
    registration order, and [join] logs completion last. *)
Theorem failing_action_is_isolated pre func post ex st :
  exc_is_Exception ex = true ->
  let reason :=
    map (fun item => Text.replace_newlines (Text.strip item)) (exc_format ex) in
  let failed k st1 w :=
    record [Call k (c_repr func) (Raises ex);
            Log ERROR (CallableFailed k reason (c_repr func))]
      (with_world w st1) in
  (forall sig_num name st1 w,
     signal (self st) = None -> Signals sig_num = Some name ->
     shutdown_callables (self st) = Some (pre ++ func :: post) ->
     run_callables ShutdownCallable pre
       (record [SleeperSet; Log WARNING (Caught name);
                Log INFO InitiatingShutdown]
          (with_self (fun w => set_sleeper true (set_signal (Some sig_num) w))
             st))
     = (Ok tt, st1) ->
     c_call func (world st1) = (Raises ex, w) ->
     handle_shutdown sig_num st
     = run_callables ShutdownCallable post (failed ShutdownCallable st1 w)
     /\ (Forall raises_only_errors post ->
         exists st3 d,
           handle_shutdown sig_num st = (Ok tt, st3)
           /\ trace st3 = trace st ++ d
           /\ calls ShutdownCallable d = (c_repr <$> pre ++ func :: post)
           /\ Log ERROR (CallableFailed ShutdownCallable reason (c_repr func))
                ∈ d))
  /\ (forall st1 w,
       thread (self st) = Stopped ->
       join_callables (self st) = Some (pre ++ func :: post) ->
       run_callables JoinCallable pre st = (Ok tt, st1) ->
       c_call func (world st1) = (Raises ex, w) ->
       join st
       = match run_callables JoinCallable post (failed JoinCallable st1 w) with
         | (Ok _, st') => (Ok tt, record [Log INFO ShutdownComplete] st')
         | other => other
         end
       /\ (Forall raises_only_errors post ->
           exists st3 d,
             join st = (Ok tt, st3)
             /\ trace st3 = trace st ++ d ++ [Log INFO ShutdownComplete]
             /\ calls JoinCallable d = (c_repr <$> pre ++ func :: post)
             /\ Log ERROR (CallableFailed JoinCallable reason (c_repr func))
                  ∈ d)).
Proof.
  intros Hex reason failed. split.
  - intros sig_num name st1 w Hnone Hname Hsc Hpre Hc.
    set (st0 := record _ _) in Hpre.
    assert (Hloop : handle_shutdown sig_num st
                    = run_callables ShutdownCallable (pre ++ func :: post) st0).
    { destruct (pre ++ func :: post) as [|f fs] eqn:Hlist.
      - by destruct pre.
      - by apply handle_shutdown_runs_loop. }
    destruct (run_callables_isolates ShutdownCallable pre func post ex st0 st1 w
                Hpre Hc Hex) as (_ & Hgoes & Hall).
    split; [by rewrite Hloop, Hgoes|].
    intros Hpost. destruct (Hall Hpost) as (st3 & d & Hrun & Hd & Hcalls & Hlog).
    exists st3,
      ([SleeperSet; Log WARNING (Caught name); Log INFO InitiatingShutdown]
         ++ d).
    split_and!.
    + by rewrite Hloop.
    + rewrite Hd. subst st0. simpl. by rewrite <- app_assoc.
    + by rewrite calls_app.
    + apply elem_of_app. by right.
  - intros st1 w Ht Hjc Hpre Hc.
    destruct (run_callables_isolates JoinCallable pre func post ex st st1 w
                Hpre Hc Hex) as (_ & Hgoes & Hall).
    split; [by rewrite (join_runs_loop st _ Ht Hjc), Hgoes|].
    intros Hpost. destruct (Hall Hpost) as (st3 & d & Hrun & Hd & Hcalls & Hlog).
    exists (record [Log INFO ShutdownComplete] st3), d.
    split_and!; auto.
    + by rewrite (join_runs_loop st _ Ht Hjc), Hrun.
    + simpl. by rewrite Hd, <- app_assoc.
Qed.


Lemma frame_keeps st st' :
  frame st st' ->
  join_callables (self st) = None ->
  Log INFO ShutdownComplete ∉ trace st ->
  join_callables (self st') = None /\ (Log INFO ShutdownComplete ∉ trace st').
Proof.
  intros [(_ & _ & Hj & _) (d & Hd & Hev)] Hnone Hn.
  split; [congruence|]. rewrite Hd, not_elem_of_app. split; [done|].
  by apply monitor_event_quiet in Hev as [_ ?].
Qed.

(** Without join callables nothing in the life of a watchdog supplies
    them or reports completion. *)
Lemma perform_keeps op st :
  join_callables (self st) = None ->
  Log INFO ShutdownComplete ∉ trace st ->
  join_callables (self (perform op st)) = None
  /\ (Log INFO ShutdownComplete ∉ trace (perform op st)).
Proof.
  intros Hnone Hn. destruct op as [ctx nums|cs|cs|delay|rounds|num|]; simpl.
  - destruct (register_shutdown_signals ctx nums st) as [r st'] eqn:Hrun.
    apply register_shutdown_signals_frame in Hrun.
    by apply frame_keeps with st.
  - destruct (register_shutdown_callables_keeps cs st)
      as (w' & -> & _ & Hj & _). simpl. rewrite Hj.
    split; [by apply view_None with (lists (self st))|done].
  - destruct (register_monitor_callables_keeps cs st)
      as (w' & -> & _ & Hj & _). simpl. rewrite Hj.
    split; [by apply view_None with (lists (self st))|done].
  - unfold start. unfold_monad. simpl. by destruct (thread (self st)).
  - destruct (thread (self st)) eqn:Ht;
      try (unfold thread_run; by rewrite Ht).
    destruct (thread_run_inv rounds st Ht) as (Hj & d & Hev & Hcase).
    split; [congruence|].
    apply monitor_event_quiet in Hev as [_ Hev].
    destruct Hcase as [[_ ->]|[_ (uncaught & ->)]];
      rewrite ?not_elem_of_app; split_and!; auto.
    by apply not_set_singleton_complete.
  - by apply frame_keeps with st; [apply deliver_frame|..].
  - destruct (thread (self st)) eqn:Ht.
    + by rewrite join_unfold, Ht.
    + rewrite (join_started st Ht). apply frame_keeps with st; [|done..].
      apply (frame_delivered _ _ _ (interrupts_delivered st)).
    + by rewrite join_unfold, Ht, Hnone.
Qed.

(** C10.  A watchdog built without join callables has none at any later
    time, whatever is called on it, and never logs completion; once its
    thread is over, [join] raises the [TypeError] of iterating [None] and
    leaves everything as it was.  [__handle_shutdown] in the same
    situation, with no shutdown callables, ends normally: there the list
    is tested before it is iterated. *)
Theorem join_without_join_callables_raises ctx
    (objs : gmap nat (list (callable World))) (mc sc : option nat) sigs delay (w : World) h p ops :
  let st := lifecycle ops (init ctx objs mc sc None sigs delay w h p).2 in
  join_callables (self st) = None
  /\ (Log INFO ShutdownComplete ∉ trace st)
  /\ (thread (self st) = Stopped ->
      join st = (Raise TypeError_not_iterable, st))
  /\ (forall sig_num st0,
        shutdown_callables (self st0) = None ->
        is_Some (Signals sig_num) ->
        (handle_shutdown sig_num st0).1 = Ok tt).
Proof.
  intros st.
  assert (Hinit : join_callables (self (init ctx objs mc sc None sigs delay w h p).2)
                  = None
                  /\ Log INFO ShutdownComplete
                       ∉ trace (init ctx objs mc sc None sigs delay w h p).2).
  { unfold init. destruct (truthy sigs).
    - destruct (register_shutdown_signals _ _ _) as [r st'] eqn:Hrun.
      apply register_shutdown_signals_frame in Hrun.
      apply frame_keeps in Hrun; [done..|apply not_elem_of_nil].
    - split; [done|apply not_elem_of_nil]. }
  assert (Hkeep : join_callables (self st) = None
                  /\ Log INFO ShutdownComplete ∉ trace st).
  { subst st. revert Hinit. generalize (init ctx objs mc sc None sigs delay w h p).2.
    induction ops as [|op ops IH]; intros st0 [Hj Hn]; [done|].
    simpl. apply IH. by apply perform_keeps. }
  destruct Hkeep as [Hj Hn]. split_and!; auto.
  - intros Ht. by rewrite join_unfold, Ht, Hj.
  - intros sig_num st0 Hsc [name Hname].
    destruct (signal (self st0)) as [c|] eqn:Hsig.
    + by rewrite (handle_shutdown_fired _ _ c).
    + rewrite handle_shutdown_unfold by done. cbn zeta.
      by rewrite Hname, Hsc.
Qed.

(** ** The event follows the cause *)

Lemma consistent_same st st' :
  signal (self st') = signal (self st) ->
  sleeper (self st') = sleeper (self st) ->
  consistent st -> consistent st'.
Proof. unfold consistent. intros -> ->. done. Qed.

(** Whatever is called on a watchdog, the event is set whenever a cause
    is recorded: handlers assign both and nothing else assigns either. *)
Lemma perform_consistent op st : consistent st -> consistent (perform op st).
Proof.
  intros Hcons. destruct op as [ctx nums|cs|cs|delay|rounds|num|]; simpl.
  - destruct (register_shutdown_signals ctx nums st) as [r st'] eqn:Hrun.
    apply register_shutdown_signals_inv in Hrun
      as (_ & _ & _ & added & Hs & _).
    simpl. apply (consistent_same st); [by rewrite Hs..|done].
  - destruct (register_shutdown_callables_keeps cs st)
      as (w' & -> & _ & _ & _ & _ & _ & _ & Hsl & Hsig & _).
    by apply (consistent_same st).
  - destruct (register_monitor_callables_keeps cs st)
      as (w' & -> & _ & _ & _ & _ & _ & _ & Hsl & Hsig & _).
    by apply (consistent_same st).
  - unfold start. unfold_monad. simpl. by destruct (thread (self st)).
  - unfold thread_run. destruct (thread (self st)); try done.
    destruct (monitor rounds st) as [r st1] eqn:Hrun.
    apply monitor_summary in Hrun as [Hsum _]; [|done].
    apply summary_consistent in Hsum; [|done].
    by destruct r.
  - unfold deliver. destruct (bool_decide _); [|done].
    destruct (handle_shutdown num st) as [r st'] eqn:Hhs.
    apply handle_shutdown_summary in Hhs as [Hsum _].
    by apply summary_consistent in Hsum.
  - destruct (thread (self st)) eqn:Ht;
      [by rewrite join_unfold, Ht
      |rewrite (join_started st Ht);
       by apply (summary_consistent 0 0 st _
                   (summary_delivered _ _ _ (interrupts_delivered st)))
      |].
    rewrite join_unfold, Ht.
    destruct (join_callables (self st)) as [funcs|]; [|done].
    destruct (run_callables JoinCallable funcs st) as [r st'] eqn:Hrun.
    apply run_callables_inv in Hrun as (Hs & _).
    destruct r as [[]|?|]; unfold consistent in *; simpl; by rewrite Hs.
Qed.

Lemma lifecycle_consistent ctx (objs : gmap nat (list (callable World))) (mc sc jc : option nat)
    sigs delay (w : World) h p ops :
  consistent (lifecycle ops (init ctx objs mc sc jc sigs delay w h p).2).
Proof.
  assert (Hinit : consistent (init ctx objs mc sc jc sigs delay w h p).2).
  { unfold init. destruct (truthy sigs); [|by intros []].
    destruct (register_shutdown_signals _ _ _) as [r st'] eqn:Hrun.
    apply register_shutdown_signals_inv in Hrun
      as (_ & _ & _ & added & Hs & _).
    simpl. intros Hfired. rewrite Hs in Hfired. by destruct Hfired. }
  revert Hinit. generalize (init ctx objs mc sc jc sigs delay w h p).2.
  induction ops as [|op ops IH]; intros st0 Hcons; [done|].
  simpl. apply IH. by apply perform_consistent.
Qed.

(** ** The cause of a failed probe *)

(** C6, as the code has it.  The cause the monitor uses for a failed
    probe is [SIGABRT], a signal number like the others.  The caller can
    register it, which puts it into the list of shutdown signals and
    installs the handler for it; the monitor registers it only when it
    is not in the list yet, where [signal.signal] accepts that, and
    otherwise registers nothing, so the list never holds it twice; and a
    [SIGABRT] delivered while the handler is installed does what a
    failed probe does: it is recorded as the cause. *)
Theorem sentinel_is_an_ordinary_signal ctx st :
  (SIGABRT ∉ shutdown_signals (self st) -> signal_signal ctx SIGABRT = None ->
   let st' := (register_shutdown_signals ctx [SIGABRT] st).2 in
   shutdown_signals (self st') = shutdown_signals (self st) ++ [SIGABRT]
   /\ SIGABRT ∈ handlers st')
  /\ (SIGABRT ∈ shutdown_signals (self st) -> ensure_sentinel st = (Ok tt, st))
  /\ (SIGABRT ∉ shutdown_signals (self st) ->
      signal_signal MonitorThread SIGABRT = None ->
      let st' := (ensure_sentinel st).2 in
      shutdown_signals (self st') = shutdown_signals (self st) ++ [SIGABRT]
      /\ SIGABRT ∈ handlers st')
  /\ (NoDup (shutdown_signals (self st)) ->
      NoDup (shutdown_signals (self (ensure_sentinel st).2)))
  /\ (SIGABRT ∈ handlers st ->
      (deliver SIGABRT st).2 = (handle_shutdown SIGABRT st).2
      /\ (signal (self st) = None ->
          signal (self (deliver SIGABRT st).2) = Some SIGABRT)).
Proof.
  assert (Hreg : forall c, SIGABRT ∉ shutdown_signals (self st) ->
            signal_signal c SIGABRT = None ->
            let st' := (register_shutdown_signals c [SIGABRT] st).2 in
            shutdown_signals (self st') = shutdown_signals (self st) ++ [SIGABRT]
            /\ SIGABRT ∈ handlers st').
  { intros c Hnew Hok st'. subst st'.
    rewrite register_shutdown_signals_cons, bool_decide_eq_false_2 by done.
    rewrite Hok. simpl. split; [done|].
    apply elem_of_union_l. by apply elem_of_singleton. }
  split_and!.
  - apply Hreg.
  - intros Hin. unfold ensure_sentinel. unfold_monad.
    by rewrite bool_decide_eq_true_2.
  - intros Hnew Hok. unfold ensure_sentinel. unfold_monad.
    rewrite bool_decide_eq_false_2 by done. by apply Hreg.
  - intros Hnd. unfold ensure_sentinel. unfold_monad.
    destruct (bool_decide _); [done|].
    destruct (register_shutdown_signals _ _ _) as [r st'] eqn:Hrun.
    apply register_shutdown_signals_inv in Hrun
      as (_ & _ & _ & added & Hs & _ & _ & Hnd' & _).
    simpl. rewrite Hs. simpl. by apply Hnd'.
  - intros Hin. unfold deliver. rewrite bool_decide_eq_true_2 by done.
    split; [done|]. intros Hnone. simpl.
    destruct (handle_shutdown SIGABRT st) as [r st'] eqn:Hhs.
    apply handle_shutdown_first in Hhs as (Hs & _); [|done].
    simpl. by rewrite Hs.
Qed.

(** ** The handler statement by statement *)

Lemma hs_exec_final n sig_num pc st :
  pc = Returned \/ (exists ex, pc = Raised ex) ->
  hs_exec n sig_num pc st = (pc, st).
Proof.
  intros Hpc. induction n as [|n IH]; [done|].
  simpl. by destruct Hpc as [->|[ex ->]].
Qed.

Lemma hs_exec_loop sig_num funcs st :
  hs_exec (S (List.length funcs)) sig_num (L64 funcs) st
  = (pc_of (run_callables ShutdownCallable funcs st).1,
     (run_callables ShutdownCallable funcs st).2).
Proof.
  revert st. induction funcs as [|func rest IH]; intros st; [done|].
  cbn [List.length]. change (hs_exec (S (S (List.length rest))) sig_num
                               (L64 (func :: rest)) st)
    with (let (pc', st') := hs_step sig_num (L64 (func :: rest)) st in
          hs_exec (S (List.length rest)) sig_num pc' st').
  cbn [hs_step]. rewrite (run_callables_cons _ func rest st).
  rewrite (run_callables_cons _ func [] st).
  destruct (call ShutdownCallable func st) as [[b|ex|] st1] eqn:Hcall.
  - apply IH.
  - destruct (exc_is_Exception ex).
    + apply IH.
    + apply hs_exec_final. eauto.
  - apply call_inv in Hcall as (_ & _ & _ & _ & _ & Ho).
    destruct (c_call func (world st)).1; discriminate.
Qed.

Lemma hs_exec_add n m sig_num pc st :
  hs_exec (n + m) sig_num pc st
  = let (pc', st') := hs_exec n sig_num pc st in hs_exec m sig_num pc' st'.
Proof.
  revert pc st. induction n as [|n IH]; intros pc st; [done|].
  simpl. destruct (hs_step sig_num pc st). apply IH.
Qed.

Ltac hs_steps Hsig Hname Hsc :=
  cbn [hs_exec hs_step]; rewrite Hsig; cbn [hs_exec hs_step];
  unfold signal_name, sleeper_set; unfold_monad; rewrite ?Hname;
  repeat (progress (unfold record, with_self; simpl; rewrite ?Hsc; simpl;
                    rewrite <- ?app_assoc));
  try reflexivity.

(** One activation run alone does what the method run as one step
    does. *)
Lemma hs_exec_alone sig_num st :
  exists n, hs_exec n sig_num L58 st
            = (pc_of (handle_shutdown sig_num st).1,
               (handle_shutdown sig_num st).2).
Proof.
  destruct (signal (self st)) as [c|] eqn:Hsig.
  - exists 1%nat. simpl. by rewrite Hsig, (handle_shutdown_fired _ _ c).
  - rewrite handle_shutdown_unfold by done. cbn zeta.
    destruct (Signals sig_num) as [name|] eqn:Hname.
    + destruct (shutdown_callables (self st)) as [[|f fs]|] eqn:Hsc.
      * exists 5%nat. hs_steps Hsig Hname Hsc.
      * exists (6 + S (List.length (f :: fs)))%nat.
        rewrite hs_exec_add.
        assert (Hsix : hs_exec 6 sig_num L58 st
                = (L64 (f :: fs),
                   record [Log WARNING (Caught name);
                           Log INFO InitiatingShutdown]
                     (record [SleeperSet]
                        (with_self (fun w => set_sleeper true
                                               (set_signal (Some sig_num) w))
                           st)))).
        { hs_steps Hsig Hname Hsc. }
        rewrite Hsix. apply hs_exec_loop.
      * exists 5%nat. hs_steps Hsig Hname Hsc.
    + exists 4%nat. hs_steps Hsig Hname Hsc.
Qed.

(** Two activations that have both passed the test of line 58 before
    either has assigned: the state is untouched and both stand at the
    assignment. *)
Lemma hs_both_pass_the_test sig1 sig2 st :
  signal (self st) = None ->
  run_schedule [0; 1]%nat [(sig1, L58); (sig2, L58)] st
  = ([(sig1, L59); (sig2, L59)], st).
Proof.
  intros Hnone. unfold run_schedule, step_activation. cbn.
  rewrite Hnone. cbn. by rewrite Hnone.
Qed.

End Properties.

(** * The properties on concrete runs

    CPython on Linux, callables over a counter. *)

Import CPython Example.

(** C1.  The handler is not one step: with a [SIGTERM] handler and the
    monitor's call for [SIGABRT] both past the test of line 58 before
    either assigns, both go on, the shutdown callables run twice, and
    the cause left is the one assigned last. *)
Theorem handle_shutdown_race_runs_actions_twice :
  let st := fresh None (Some [flush; close]) None (Some [SIGTERM; SIGABRT]) [] in
  let both := [(SIGTERM, L58); (SIGABRT, L58)] in
  let schedule :=
    [0; 1; 0; 0; 0; 0; 0; 0; 0; 0; 1; 1; 1; 1; 1; 1; 1; 1]%nat in
  signal (self st) = None
  /\ (run_schedule schedule both st).1
     = [(SIGTERM, Returned); (SIGABRT, Returned)]
  /\ calls ShutdownCallable (trace (run_schedule schedule both st).2)
     = ["flush"; "close"; "flush"; "close"]
  /\ signal (self (run_schedule schedule both st).2) = Some SIGABRT
  /\ calls ShutdownCallable (trace (attempts [SIGTERM; SIGABRT] st))
     = ["flush"; "close"]
  /\ signal (self (attempts [SIGTERM; SIGABRT] st)) = Some SIGTERM.
Proof. vm_compute. by split_and!. Qed.

Lemma trigger_is_inert_once_fired_witness :
  let st := fresh None (Some [flush; close]) None (Some [SIGTERM; SIGABRT]) [] in
  let st1 := (handle_shutdown SIGTERM st).2 in
  signal (self st) = None
  /\ signal (self st1) = Some SIGTERM
  /\ attempts [SIGTERM; SIGABRT; SIGINT] st = st1
  /\ handle_shutdown SIGABRT st1 = (Ok tt, st1).
Proof.
  intros st st1.
  destruct (trigger_is_inert_once_fired st SIGTERM [SIGABRT; SIGINT])
    as [_ Hfirst].
  destruct (Hfirst eq_refl) as (Hcause & Hseq & _).
  destruct (trigger_is_inert_once_fired st1 SIGABRT []) as [Hlater _].
  destruct (Hlater SIGTERM Hcause) as [Hnoop _].
  split_and!; [reflexivity|exact Hcause|exact Hseq|exact Hnoop].
Defined.

Lemma failing_action_is_isolated_witness :
  let st := fresh None (Some [flush; faulty; close]) None
              (Some [SIGTERM; SIGABRT]) [] in
  let over :=
    thread_run 10
      (start (Some 5)
         (fresh (Some [always_true; false_on_third]) (Some [flush])
            (Some [close; faulty; flush]) (Some [SIGTERM; SIGABRT]) [])).2 in
  let text := [Text.of_string "RuntimeError: boom"] in
  (exists st3 d,
     handle_shutdown SIGTERM st = (Ok tt, st3)
     /\ trace st3 = trace st ++ d
     /\ calls ShutdownCallable d = ["flush"; "faulty"; "close"]
     /\ Log ERROR (CallableFailed ShutdownCallable text "faulty") ∈ d)
  /\ (exists st3 d,
       join over = (Ok tt, st3)
       /\ trace st3 = trace over ++ d ++ [Log INFO ShutdownComplete]
       /\ calls JoinCallable d = ["close"; "faulty"; "flush"]
       /\ Log ERROR (CallableFailed JoinCallable text "faulty") ∈ d).
Proof.
  intros st over text.
  assert (Hquiet : forall func : callable nat,
            func = flush \/ func = close -> raises_only_errors func).
  { intros func [->| ->] w ex; simpl; discriminate. }
  split.
  - destruct (failing_action_is_isolated [flush] faulty [close] boom st eq_refl)
      as [Hshutdown _].
    set (st1 :=
           (run_callables ShutdownCallable [flush]
              (record [SleeperSet; Log WARNING (Caught "SIGTERM");
                       Log INFO InitiatingShutdown]
                 (with_self (fun w => set_sleeper true
                                        (set_signal (Some SIGTERM) w)) st))).2).
    assert (Hname : Signals SIGTERM = Some "SIGTERM")
      by (vm_compute; reflexivity).
    assert (Hpre : run_callables ShutdownCallable [flush]
                     (record [SleeperSet; Log WARNING (Caught "SIGTERM");
                              Log INFO InitiatingShutdown]
                        (with_self (fun w => set_sleeper true
                                               (set_signal (Some SIGTERM) w))
                           st))
                   = (Ok tt, st1)) by (vm_compute; reflexivity).
    assert (Hc : c_call faulty (world st1) = (Raises boom, 11%nat))
      by (vm_compute; reflexivity).
    destruct (Hshutdown SIGTERM "SIGTERM" st1 11%nat eq_refl Hname eq_refl
                Hpre Hc) as [_ Hall].
    apply Hall. constructor; [|constructor]. apply Hquiet. by right.
  - assert (Hover : thread (self over) = Stopped)
      by (vm_compute; reflexivity).
    assert (Hjc : join_callables (self over) = Some ([close] ++ faulty :: [flush]))
      by (vm_compute; reflexivity).
    destruct (failing_action_is_isolated [close] faulty [flush] boom over
                eq_refl) as [_ Hjoin].
    set (st1 := (run_callables JoinCallable [close] over).2).
    assert (Hpre : run_callables JoinCallable [close] over = (Ok tt, st1))
      by (vm_compute; reflexivity).
    assert (Hc : c_call faulty (world st1)
                 = (Raises boom, (c_call faulty (world st1)).2))
      by (vm_compute; reflexivity).
    destruct (Hjoin st1 _ Hover Hjc Hpre Hc) as [_ Hall].
    apply Hall. constructor; [|constructor]. apply Hquiet. by left.
Defined.

Lemma register_shutdown_signals_idempotent_witness :
  let st := fresh None None None (Some [SIGTERM]) [] in
  register_shutdown_signals MainThread [SIGTERM] st = (Ok tt, st)
  /\ shutdown_signals
       (self (register_shutdown_signals MainThread [SIGINT] st).2)
     = [SIGTERM; SIGINT]
  /\ NoDup (shutdown_signals
             (self (register_shutdown_signals MainThread
                      [SIGINT; SIGTERM; SIGINT] st).2)).
Proof.
  intros st.
  destruct (register_shutdown_signals_idempotent MainThread st SIGTERM
              [SIGINT; SIGTERM; SIGINT]) as (Hknown & _ & Hnodup & _).
  destruct (register_shutdown_signals_idempotent MainThread st SIGINT [])
    as (_ & Hnew & _).
  split_and!.
  - apply Hknown. apply (bool_decide_unpack _). vm_compute. exact I.
  - rewrite Hnew; [reflexivity| |reflexivity].
    apply (bool_decide_unpack _). vm_compute. exact I.
  - apply Hnodup. apply (bool_decide_unpack _). vm_compute. exact I.
Defined.

Lemma unhealthy_probe_stops_round_witness :
  let probes := [always_true; unhealthy; always_true] in
  let st := fresh (Some probes) (Some [flush]) None (Some [SIGTERM; SIGABRT]) [] in
  let st' := (monitor_round probes st).2 in
  monitor_round probes st = (Ok tt, st')
  /\ calls MonitorCallable (trace st') = ["always_true"; "unhealthy"]
  /\ signal (self st') = Some SIGABRT
  /\ calls ShutdownCallable (trace st') = ["flush"].
Proof.
  intros probes st st'.
  assert (Hrun : monitor_round probes st = (Ok tt, st'))
    by (vm_compute; reflexivity).
  assert (Htrace : trace st'
            = trace st
              ++ [Call MonitorCallable "always_true" (Returns true)]
              ++ Call MonitorCallable "unhealthy" (Returns false)
              :: [SleeperSet; Log WARNING (Caught "SIGABRT");
                  Log INFO InitiatingShutdown;
                  Call ShutdownCallable "flush" (Returns false)])
    by (vm_compute; reflexivity).
  destruct (unhealthy_probe_stops_round probes st (Ok tt) st' _ _ _
              Hrun Htrace)
    as (Hafter & Hbefore & Hcause & _).
  split_and!; [exact Hrun|vm_compute; reflexivity..].
Defined.

Lemma faulting_probe_does_not_trigger_witness :
  let probes := [faulty; always_true] in
  let st := fresh (Some probes) (Some [flush]) None (Some [SIGTERM; SIGABRT]) [] in
  let text := [Text.of_string "RuntimeError: boom"] in
  let st' := (monitor_loop 3 st).2 in
  probe faulty st
  = (Ok false,
     record [Call MonitorCallable "faulty" (Raises boom);
             Log ERROR (CallableFailed MonitorCallable text "faulty")]
       (with_world 1%nat st))
  /\ (monitor_loop 3 st).1 = Stuck
  /\ signal (self st') = None
  /\ calls MonitorCallable (trace st')
     = ["faulty"; "always_true"; "faulty"; "always_true";
        "faulty"; "always_true"]
  /\ calls ShutdownCallable (trace st') = []
  /\ failures MonitorCallable (trace st')
     = [("faulty", text); ("faulty", text); ("faulty", text)].
Proof.
  intros probes st text st'.
  destruct (faulting_probe_does_not_trigger faulty [always_true] st boom 1%nat
              3%nat probes eq_refl eq_refl)
    as (Hprobe & _ & _ & Hloop).
  destruct Hloop as (st2 & d & Hrun & Hsig & Ht & Hm & Hsd & Hfl);
    try reflexivity.
  { constructor; [|constructor; [|constructor]]; intros w; reflexivity. }
  assert (Hst : st' = st2) by (subst st'; by rewrite Hrun).
  assert (Hbefore : failures MonitorCallable (trace st)
                    = faults MonitorCallable (trace st))
    by (vm_compute; reflexivity).
  split_and!.
  - exact Hprobe.
  - by rewrite Hrun.
  - by rewrite Hst.
  - rewrite Hst, Ht, calls_app, Hm. vm_compute. reflexivity.
  - rewrite Hst, Ht, calls_app, Hsd. vm_compute. reflexivity.
  - rewrite Hst, Ht, failures_app, Hfl, Hbefore, <- faults_app, <- Ht, <- Hst.
    vm_compute. reflexivity.
Defined.


Lemma monitor_exits_once_triggered_witness :
  let st :=
    (start (Some 5)
       (fresh (Some [always_true; always_true]) (Some [flush]) None
          (Some [SIGTERM; SIGABRT]) [[]; []; []; []; [SIGTERM]])).2 in
  let st' := (monitor 3 st).2 in
  monitor 3 st = (Ok tt, st')
  /\ signal (self st') = Some SIGTERM
  /\ exists d, trace st' = trace st ++ d /\ quiet 1 (after_trigger d).
Proof.
  intros st st'.
  assert (Hcons : consistent st) by (intros Hfired; by destruct Hfired).
  assert (Hrun : monitor 3 st = (Ok tt, st')) by (vm_compute; reflexivity).
  destruct (monitor_exits_once_triggered 3 st (Ok tt) st' Hcons Hrun)
    as (_ & (d & Hd & Hquiet & _) & _).
  split_and!; [exact Hrun|vm_compute; reflexivity|].
  exists d. split; [exact Hd|]. apply Hquiet. reflexivity.
Defined.

Lemma sentinel_is_an_ordinary_signal_witness :
  let st := fresh None None None (Some [SIGTERM]) [] in
  let st' := (register_shutdown_signals MainThread [SIGABRT] st).2 in
  shutdown_signals (self st') = [SIGTERM; SIGABRT]
  /\ ensure_sentinel st' = (Ok tt, st')
  /\ signal (self (deliver SIGABRT st').2) = Some SIGABRT.
Proof.
  intros st st'.
  destruct (sentinel_is_an_ordinary_signal MainThread st)
    as (Hregister & _).
  destruct (sentinel_is_an_ordinary_signal MainThread st')
    as (_ & Hknown & _ & _ & Hdelivered).
  split_and!.
  - apply Hregister; [|reflexivity].
    apply (bool_decide_unpack _). vm_compute. exact I.
  - apply Hknown. apply (bool_decide_unpack _). vm_compute. exact I.
  - apply Hdelivered; [|reflexivity].
    apply (bool_decide_unpack _). vm_compute. exact I.
Defined.

Lemma join_without_join_callables_raises_witness :
  let st :=
    lifecycle [Start (Some 5); RunThread 3]
      (fresh (Some [always_true; unhealthy]) (Some [flush]) None
         (Some [SIGTERM; SIGABRT]) []) in
  thread (self st) = Stopped
  /\ signal (self st) = Some SIGABRT
  /\ join st = (Raise TypeError_not_iterable, st)
  /\ Log INFO ShutdownComplete ∉ trace (join st).2.
Proof.
  intros st.
  destruct (join_without_join_callables_raises MainThread
              (objects (Some [always_true; unhealthy]) (Some [flush]) None)
              (Some 0%nat) (Some 1%nat)
              (Some [SIGTERM; SIGABRT]) 2 0%nat ∅ []
              [Start (Some 5); RunThread 3])
    as (_ & Hnever & Hraises & _).
  assert (Hstopped : thread (self st) = Stopped) by (vm_compute; reflexivity).
  assert (Hjoin : join st = (Raise TypeError_not_iterable, st))
    by (apply Hraises; exact Hstopped).
  split_and!.
  - exact Hstopped.
  - vm_compute. reflexivity.
  - exact Hjoin.
  - rewrite Hjoin. exact Hnever.
Defined.

(** The cause of a failed probe can be among the signals the caller
    registers, and can be delivered from outside. *)
Lemma sentinel_registered_by_caller :
  let st := fresh None None None (Some [SIGTERM; SIGINT; SIGABRT]) [] in
  SIGABRT ∈ shutdown_signals (self st)
  /\ SIGABRT ∈ handlers st
  /\ signal (self (deliver SIGABRT st).2) = Some SIGABRT.
Proof.
  split_and!; [apply (bool_decide_unpack _); vm_compute; exact I..|reflexivity].
Qed.

(** A probe called after the trigger: [SIGTERM] arrives between the test
    of line 77 and the call of line 80. *)
Lemma probe_called_after_trigger :
  let st :=
    (start (Some 5)
       (fresh (Some [always_true]) (Some [flush]) None
          (Some [SIGTERM; SIGABRT]) [[]; []; []; []; [SIGTERM]])).2 in
  let st' := (monitor 3 st).2 in
  signal (self st) = None
  /\ after_trigger (trace st')
     = [Log WARNING (Caught "SIGTERM"); Log INFO InitiatingShutdown;
        Call ShutdownCallable "flush" (Returns false);
        Call MonitorCallable "always_true" (Returns true)]
  /\ calls MonitorCallable (after_trigger (trace st')) <> [].
Proof. vm_compute. split_and!; [reflexivity..|discriminate]. Qed.

(** On this platform the registration of lines 73-74 runs in the monitor
    thread, where [signal.signal] raises: unless the caller has
    registered [SIGABRT], the thread ends there with the [ValueError]
    and no probe is ever called. *)
Lemma lazy_registration_ends_the_thread :
  let st :=
    (start (Some 5)
       (fresh (Some [always_true; unhealthy]) (Some [flush]) None
          (Some [SIGTERM; SIGINT]) [])).2 in
  let st' := thread_run 10 st in
  thread (self st') = Stopped
  /\ trace st' = trace st ++ [Block (Some 5); ThreadExit (Some not_main_thread)]
  /\ calls MonitorCallable (trace st') = []
  /\ signal (self st') = None.
Proof. vm_compute. by split_and!. Qed.

(** What is not an error is not caught: a shutdown callable that calls
    [sys.exit] ends the loop, and the callables after it do not run. *)
Lemma system_exit_ends_the_loop :
  let st := fresh None None None None [] in
  (run_callables ShutdownCallable [flush; exits; close] st).1
  = Raise system_exit
  /\ calls ShutdownCallable
       (trace (run_callables ShutdownCallable [flush; exits; close] st).2)
     = ["flush"; "exits"].
Proof. vm_compute. by split. Qed.

(** * The rest of the code *)

(** ** [get_exception_str] *)

Module CleanFacts.

Import Text Clean.

Lemma isspace_newline : isspace newline = true.
Proof. reflexivity. Qed.

Lemma not_space_not_newline c : isspace c = false -> (c =? newline)%N = false.
Proof.
  intros Hc. destruct (c =? newline)%N eqn:Heq; [|done].
  apply N.eqb_eq in Heq. subst c. by rewrite isspace_newline in Hc.
Qed.

Lemma lstrip_first s : first_space (lstrip s) = false.
Proof.
  induction s as [|c s IH]; [done|]. simpl.
  destruct (isspace c) eqn:Hc; [done|]. simpl. exact Hc.
Qed.

Lemma rstrip_cons c s :
  rstrip (c :: s)
  = match rstrip s with
    | [] => if isspace c then [] else [c]
    | r => c :: r
    end.
Proof. reflexivity. Qed.

Lemma rstrip_last s : last_space (rstrip s) = false.
Proof.
  induction s as [|c s IH]; [done|]. rewrite rstrip_cons.
  destruct (rstrip s) as [|b r] eqn:Hr.
  - destruct (isspace c) eqn:Hc; [done|]. simpl. exact Hc.
  - exact IH.
Qed.

Lemma rstrip_first s : first_space s = false -> first_space (rstrip s) = false.
Proof.
  destruct s as [|c s]; [done|]. rewrite rstrip_cons. simpl. intros Hc.
  destruct (rstrip s); [by rewrite Hc|done].
Qed.

Lemma replace_no_newline s : has_newline (replace_newlines s) = false.
Proof.
  induction s as [|c s IH]; [done|].
  change (replace_newlines (c :: s))
    with ((if (c =? newline)%N then blank else c) :: replace_newlines s).
  simpl. rewrite IH. by destruct (c =? newline)%N eqn:Hc; [|rewrite Hc].
Qed.

Lemma replace_first s :
  first_space s = false -> first_space (replace_newlines s) = false.
Proof.
  destruct s as [|c s]; [done|]. simpl. intros Hc.
  by rewrite (not_space_not_newline c Hc).
Qed.

Lemma replace_last s :
  last_space s = false -> last_space (replace_newlines s) = false.
Proof.
  induction s as [|c s IH]; [done|].
  destruct s as [|b s'].
  - simpl. intros Hc. by rewrite (not_space_not_newline c Hc).
  - intros Hl. specialize (IH Hl). exact IH.
Qed.

Lemma lstrip_clean s : first_space s = false -> lstrip s = s.
Proof. destruct s as [|c s]; [done|]. simpl. by intros ->. Qed.

Lemma rstrip_clean s : last_space s = false -> rstrip s = s.
Proof.
  induction s as [|c s IH]; [done|].
  destruct s as [|b s'].
  - simpl. by intros ->.
  - intros Hl. rewrite rstrip_cons. by rewrite (IH Hl).
Qed.

Lemma rstrip_space s c : isspace c = true -> rstrip (s ++ [c]) = rstrip s.
Proof.
  intros Hc. induction s as [|b s IH].
  - simpl. by rewrite Hc.
  - rewrite <- app_comm_cons, !rstrip_cons. by rewrite IH.
Qed.

Lemma first_space_app s t :
  s <> [] -> first_space (s ++ t) = first_space s.
Proof. by destruct s. Qed.

Lemma last_space_app s t :
  t <> [] -> last_space (s ++ t) = last_space t.
Proof.
  intros Ht. induction s as [|c s IH]; [done|].
  rewrite <- app_comm_cons. destruct (s ++ t) eqn:Hst; [|exact IH].
  by apply app_eq_nil in Hst as [_ ?].
Qed.

Lemma replace_clean s : has_newline s = false -> replace_newlines s = s.
Proof.
  induction s as [|c s IH]; [done|]. simpl.
  intros [Hc Hs]%orb_false_elim.
  change (replace_newlines (c :: s))
    with ((if (c =? newline)%N then blank else c) :: replace_newlines s).
  by rewrite Hc, IH.
Qed.

Lemma replace_app s t :
  replace_newlines (s ++ t) = replace_newlines s ++ replace_newlines t.
Proof. apply fmap_app. Qed.

Lemma get_exception_str_items ex : Forall clean (get_exception_str ex).
Proof.
  unfold get_exception_str.
  apply Forall_forall. intros r Hr. apply list_elem_of_In in Hr.
  apply in_map_iff in Hr as (item & <- & _).
  split_and!.
  - apply replace_no_newline.
  - apply replace_first, rstrip_first, lstrip_first.
  - apply replace_last, rstrip_last.
Qed.

Lemma plain_line s : clean s -> replace_newlines (strip (s ++ [newline])) = s.
Proof.
  intros (Hn & Hf & Hl). unfold strip.
  destruct s as [|c s]; [done|].
  rewrite lstrip_clean by done.
  rewrite rstrip_space by done.
  by rewrite (rstrip_clean _ Hl), replace_clean.
Qed.

(** X1.  [get_exception_str] gives one item for every line
    [format_exception_only] produced, in order, and every item is free
    of line breaks and of white space at its ends, the white space of
    Unicode included. *)
Theorem get_exception_str_clean ex :
  List.length (get_exception_str ex) = List.length (exc_format ex)
  /\ Forall clean (get_exception_str ex).
Proof.
  split; [|apply get_exception_str_items].
  unfold get_exception_str. apply length_map.
Qed.

(** X2.  What [get_exception_str] does to the lines of
    [format_exception_only].  A line that is clean text followed by its
    line break comes back as the text, so an exception whose message has
    one line gives one item without the line break; and where the
    message itself has a line break, the line break inside is replaced
    by one blank and the one at the end is dropped. *)
Theorem get_exception_str_lines b items first second :
  Forall clean items ->
  clean first -> clean second -> first <> [] -> second <> [] ->
  get_exception_str (Exc b ((fun s => s ++ [newline]) <$> items)) = items
  /\ get_exception_str (Exc b [first ++ newline :: second ++ [newline]])
     = [first ++ blank :: second].
Proof.
  intros Hall (Hn1 & Hf1 & Hl1) (Hn2 & Hf2 & Hl2) Hne1 Hne2. split.
  - unfold get_exception_str. cbn [exc_format].
    induction Hall as [|s l Hs _ IH]; [done|].
    rewrite fmap_cons. cbn [map]. by rewrite (plain_line s Hs), IH.
  - unfold get_exception_str. simpl. f_equal. unfold strip.
    rewrite lstrip_clean by (by rewrite first_space_app).
    replace (first ++ newline :: second ++ [newline])
      with ((first ++ newline :: second) ++ [newline])
      by (by rewrite <- app_assoc).
    rewrite rstrip_space by done.
    assert (Hlast : last_space (first ++ newline :: second) = false).
    { rewrite last_space_app by done. destruct second; [done|exact Hl2]. }
    rewrite (rstrip_clean _ Hlast).
    rewrite replace_app, (replace_clean first Hn1).
    change (replace_newlines (newline :: second))
      with (blank :: replace_newlines second).
    by rewrite (replace_clean second Hn2).
Qed.

End CleanFacts.

Section Further.

Context {World : Type} `{Platform}.

Implicit Types (st : system World) (funcs : list (callable World)).

Ltac unfold_monad :=
  unfold bind, ret, raise, stuck, gets, update, log, emit, try_except in *.

Arguments run_callables : simpl never.
Arguments handle_shutdown : simpl never.
Arguments yield : simpl never.
Arguments monitor_round : simpl never.
Arguments monitor_loop : simpl never.
Arguments register_shutdown_signals : simpl never.
Arguments block_events : simpl never.

(** ** A signal without a name *)

Lemma attempts_fired sig_nums st c :
  signal (self st) = Some c -> attempts sig_nums st = st.
Proof.
  intros Hc. induction sig_nums as [|s sig_nums IH]; [done|].
  unfold attempts. simpl. rewrite (handle_shutdown_fired s st c Hc).
  exact IH.
Qed.

(** X3.  For a number that [signal.Signals] does not know (a real-time
    signal between [SIGRTMIN] and [SIGRTMAX], say) the first call of the
    handler records the cause and sets the event, then raises the
    [ValueError] of the enum lookup before anything is logged; no
    shutdown callable runs then, and none runs later, since every
    further call finds the cause recorded. *)
Theorem handle_shutdown_unnamed_signal sig_num later st :
  signal (self st) = None ->
  Signals sig_num = None ->
  let st1 :=
    record [SleeperSet]
      (with_self (fun w => set_sleeper true (set_signal (Some sig_num) w))
         st) in
  handle_shutdown sig_num st = (Raise (ValueError_not_a_signal sig_num), st1)
  /\ attempts (sig_num :: later) st = st1
  /\ calls ShutdownCallable (trace st1) = calls ShutdownCallable (trace st).
Proof.
  intros Hnone Hname st1.
  assert (Hfirst : handle_shutdown sig_num st
                   = (Raise (ValueError_not_a_signal sig_num), st1)).
  { rewrite handle_shutdown_unfold by done. cbn zeta. by rewrite Hname. }
  split_and!; [exact Hfirst| |].
  - unfold attempts. simpl. rewrite Hfirst. simpl.
    by apply attempts_fired with sig_num.
  - subst st1. simpl. rewrite calls_app. simpl. by rewrite app_nil_r.
Qed.

(** ** Registration of several signals *)

Lemma register_shutdown_signals_app ctx pre post st :
  register_shutdown_signals ctx (pre ++ post) st =
  match register_shutdown_signals ctx pre st with
  | (Ok _, st1) => register_shutdown_signals ctx post st1
  | other => other
  end.
Proof.
  revert st. induction pre as [|num pre IH]; intros st; [done|].
  rewrite <- app_comm_cons, !register_shutdown_signals_cons.
  destruct (bool_decide _); [apply IH|].
  destruct (signal_signal ctx num); [done|apply IH].
Qed.

(** The numbers a run appends are new ones among those it was given. *)
Lemma register_shutdown_signals_added ctx nums st r st' :
  register_shutdown_signals ctx nums st = (r, st') ->
  exists added,
    shutdown_signals (self st') = shutdown_signals (self st) ++ added
    /\ handlers st' = list_to_set added ∪ handlers st
    /\ forall num, num ∈ added ->
         num ∈ nums /\ num ∉ shutdown_signals (self st).
Proof.
  revert st. induction nums as [|num rest IH]; intros st.
  - intros [= <- <-]. exists []. rewrite app_nil_r. split_and!; auto.
    + simpl. by rewrite union_empty_l_L.
    + by intros num ?%elem_of_nil.
  - rewrite register_shutdown_signals_cons.
    destruct (bool_decide (num ∈ shutdown_signals (self st))) eqn:Hin.
    + intros Hrun. apply IH in Hrun as (added & Hs & Hh & Hall).
      exists added. split_and!; auto. intros n Hn.
      destruct (Hall n Hn) as [Hrest Hnew]. split; [|done].
      apply elem_of_cons. by right.
    + apply bool_decide_eq_false in Hin.
      destruct (signal_signal ctx num) as [ex|].
      * intros [= <- <-]. exists []. rewrite app_nil_r. split_and!; auto.
        -- simpl. by rewrite union_empty_l_L.
        -- by intros n ?%elem_of_nil.
      * intros Hrun. apply IH in Hrun as (added & Hs & Hh & Hall).
        simpl in *. exists (num :: added). split_and!.
        -- by rewrite Hs, <- app_assoc.
        -- rewrite Hh. simpl. apply set_eq. intros x.
           rewrite !elem_of_union. tauto.
        -- intros n [->|Hn]%elem_of_cons.
           ++ split; [apply elem_of_cons; by left|done].
           ++ destruct (Hall n Hn) as [Hrest Hnew]. split.
              ** apply elem_of_cons. by right.
              ** intros Hold. apply Hnew. apply elem_of_app. by left.
Qed.

Lemma register_shutdown_signals_members ctx nums st st' :
  register_shutdown_signals ctx nums st = (Ok tt, st') ->
  forall num, num ∈ shutdown_signals (self st')
              <-> num ∈ shutdown_signals (self st) \/ num ∈ nums.
Proof.
  intros Hrun. pose proof Hrun as Hinv.
  apply register_shutdown_signals_inv in Hinv
    as (_ & _ & _ & added0 & Hs0 & _ & _ & _ & Hall).
  apply register_shutdown_signals_added in Hrun as (added & Hs & _ & Hnew).
  intros num. rewrite Hs, elem_of_app. split.
  - intros [?|Hadd]; [by left|]. right. by apply Hnew.
  - intros [?|Hnum]; [by left|]. apply elem_of_app.
    rewrite <- Hs, Hs0. simpl. by apply Hall.
Qed.

(** X4.  A registration that ends normally leaves in the list exactly
    the numbers that were there and the numbers it was given, the old
    list first and unchanged; the handler is installed for exactly the
    given numbers that were new. *)
Theorem register_shutdown_signals_result ctx nums st st' :
  register_shutdown_signals ctx nums st = (Ok tt, st') ->
  (forall num, num ∈ shutdown_signals (self st')
               <-> num ∈ shutdown_signals (self st) \/ num ∈ nums)
  /\ shutdown_signals (self st) `prefix_of` shutdown_signals (self st')
  /\ (forall num, num ∈ handlers st'
                  <-> num ∈ handlers st
                      \/ (num ∈ nums /\ num ∉ shutdown_signals (self st))).
Proof.
  intros Hrun. pose proof Hrun as Hinv.
  pose proof (register_shutdown_signals_members _ _ _ _ Hrun) as Hmem.
  apply register_shutdown_signals_inv in Hinv
    as (_ & _ & _ & added0 & Hs0 & _ & _ & _ & Hall).
  apply register_shutdown_signals_added in Hrun as (added & Hs & Hh & Hnew).
  assert (Hgiven : forall num, num ∈ nums ->
                     num ∈ shutdown_signals (self st) ++ added).
  { intros num Hnum. rewrite <- Hs, Hs0. simpl. by apply Hall. }
  split_and!.
  - exact Hmem.
  - rewrite Hs. by apply prefix_app_r.
  - intros num. rewrite Hh, elem_of_union, elem_of_list_to_set. split.
    + intros [Hadd|?]; [|by left]. right. by apply Hnew.
    + intros [?|[Hnum Hfresh]]; [by right|]. left.
      apply Hgiven in Hnum. apply elem_of_app in Hnum as [?|?]; done.
Qed.

(** X5.  When [signal.signal] raises for one number of the list, the
    exception leaves the method as it is, the numbers before that one
    stay registered, and that number and the untried ones after it are
    not added. *)
Theorem register_shutdown_signals_failure ctx pre num post ex st st1 :
  register_shutdown_signals ctx pre st = (Ok tt, st1) ->
  num ∉ shutdown_signals (self st1) ->
  signal_signal ctx num = Some ex ->
  register_shutdown_signals ctx (pre ++ num :: post) st = (Raise ex, st1)
  /\ (forall m, m ∈ pre -> m ∈ shutdown_signals (self st1))
  /\ (forall m, m ∈ num :: post -> m ∉ shutdown_signals (self st) ->
        m ∉ pre -> m ∉ shutdown_signals (self st1)).
Proof.
  intros Hpre Hnew Hex.
  pose proof (register_shutdown_signals_members ctx pre st st1 Hpre) as Hlist.
  split_and!.
  - rewrite register_shutdown_signals_app, Hpre.
    rewrite register_shutdown_signals_cons.
    rewrite bool_decide_eq_false_2 by done. by rewrite Hex.
  - intros m Hm. apply Hlist. by right.
  - intros m _ Hold Hm Hin. apply Hlist in Hin. tauto.
Qed.

(** ** Registration of callables *)

Lemma register_shutdown_callables_value cs st :
  register_shutdown_callables cs st
  = (Ok tt,
     with_self
       (fun w =>
          let r := Shared.register cs (shutdown_ref w) (lists w) in
          set_shutdown_ref r.1 (set_lists r.2 w))
       st).
Proof.
  unfold register_shutdown_callables, Shared.register. unfold_monad.
  destruct st as [w ? ? ? ?]. destruct w as [l mr [ref|] jr ? ? ? ? ? ? ?];
    simpl; [|done].
  unfold Shared.view, Shared.contents, with_self. simpl.
  destruct (default [] (l !! ref)) eqn:Hcur; simpl; rewrite ?Hcur;
    unfold iadd, set_shutdown_ref, set_monitor_ref, set_lists,
      Shared.contents; simpl; by rewrite ?Hcur.
Qed.

Lemma register_monitor_callables_value cs st :
  register_monitor_callables cs st
  = (Ok tt,
     with_self
       (fun w =>
          let r := Shared.register cs (monitor_ref w) (lists w) in
          set_monitor_ref r.1 (set_lists r.2 w))
       st).
Proof.
  unfold register_monitor_callables, Shared.register. unfold_monad.
  destruct st as [w ? ? ? ?]. destruct w as [l [ref|] sr jr ? ? ? ? ? ? ?];
    simpl; [|done].
  unfold Shared.view, Shared.contents, with_self. simpl.
  destruct (default [] (l !! ref)) eqn:Hcur; simpl; rewrite ?Hcur;
    unfold iadd, set_shutdown_ref, set_monitor_ref, set_lists,
      Shared.contents; simpl; by rewrite ?Hcur.
Qed.

Lemma extended_twice (a b : list (callable World)) old :
  extended b (extended a old) = extended (a ++ b) old.
Proof.
  unfold extended. destruct old as [[|f l]|]; simpl.
  - by destruct a.
  - by rewrite <- app_assoc.
  - by destruct a.
Qed.

(** What one registration makes of the attribute, and of the objects. *)
Lemma register_view (a : nat) attr (store : gmap nat (list (callable World))) :
  let r := Shared.register a attr store in
  Shared.view r.1 r.2
  = extended (Shared.contents store a) (Shared.view attr store)
  /\ (forall ref, (truthy (Shared.view attr store) = true -> attr <> Some ref) ->
        Shared.contents r.2 ref = Shared.contents store ref)
  /\ (truthy (Shared.view attr store) = true ->
      r.1 = attr
      /\ forall ref, attr = Some ref ->
           Shared.contents r.2 ref
           = Shared.contents store ref ++ Shared.contents store a).
Proof.
  unfold Shared.register, Shared.view, extended.
  destruct attr as [ref|]; simpl; [|done].
  destruct (Shared.contents store ref) as [|f l] eqn:Hcur; simpl.
  - by split_and!.
  - split_and!.
    + unfold Shared.contents at 1. by rewrite lookup_insert_eq.
    + intros ref' Hne. unfold Shared.contents at 1.
      rewrite lookup_insert_ne; [done|]. intros ->. by apply Hne.
    + intros _. split; [done|]. intros ref' [= <-].
      unfold Shared.contents at 1. rewrite lookup_insert_eq. simpl.
      by rewrite Hcur.
Qed.

(** X6.  Registration of shutdown callables over the list objects, the
    monitor callables alike.  After one call the attribute stands for
    what it stood for followed by the elements given, or for the
    elements given when it was [None] or empty.  Two calls leave the
    same list as one call with the elements of both, unless the second
    argument is the very list the attribute has been extending.  And
    the list objects are shared: when the monitor callables are the same
    list object as the shutdown callables that are extended, they have
    grown as well; a list that is another object is as it was. *)
Theorem register_callables_compose (a b : nat) st :
  let st1 := (register_shutdown_callables a st).2 in
  let st2 := (register_shutdown_callables b st1).2 in
  let given ref := Shared.contents (lists (self st)) ref in
  shutdown_callables (self st1)
  = extended (given a) (shutdown_callables (self st))
  /\ monitor_callables (self (register_monitor_callables a st).2)
     = extended (given a) (monitor_callables (self st))
  /\ ((truthy (shutdown_callables (self st)) = true ->
       shutdown_ref (self st) <> Some b) ->
      shutdown_callables (self st2)
      = extended (given a ++ given b) (shutdown_callables (self st)))
  /\ (truthy (shutdown_callables (self st)) = true ->
      monitor_ref (self st) = shutdown_ref (self st) ->
      monitor_callables (self st1)
      = Some (default [] (monitor_callables (self st)) ++ given a))
  /\ ((truthy (shutdown_callables (self st)) = true ->
       monitor_ref (self st) <> shutdown_ref (self st)) ->
      monitor_callables (self st1) = monitor_callables (self st)).
Proof.
  intros st1 st2 given. subst st2 st1.
  rewrite !register_shutdown_callables_value, register_monitor_callables_value.
  cbn [snd with_self self lists shutdown_ref monitor_ref set_shutdown_ref
         set_monitor_ref set_lists].
  destruct (register_view a (shutdown_ref (self st)) (lists (self st)))
    as (Hview & Hother & Hown).
  destruct (register_view a (monitor_ref (self st)) (lists (self st)))
    as (Hview' & _).
  cbn zeta in *. split_and!.
  - exact Hview.
  - exact Hview'.
  - intros Hnot.
    set (r := Shared.register a (shutdown_ref (self st)) (lists (self st)))
      in *.
    destruct (register_view b r.1 r.2) as (Hview2 & _).
    cbn zeta in Hview2. rewrite Hview2, Hview, extended_twice.
    f_equal. f_equal. subst given. cbn beta. apply Hother. exact Hnot.
  - intros Htrue Hsame. destruct (Hown Htrue) as [_ Hgrown].
    rewrite Hsame. destruct (shutdown_ref (self st)) as [ref|] eqn:Href;
      [|done].
    change (Some (Shared.contents
                    (Shared.register a (Some ref) (lists (self st))).2 ref)
            = Some (Shared.contents (lists (self st)) ref ++ given a)).
    by rewrite (Hgrown ref eq_refl).
  - intros Hnot. destruct (monitor_ref (self st)) as [ref|] eqn:Href; [|done].
    change (Some (Shared.contents
                    (Shared.register a (shutdown_ref (self st))
                       (lists (self st))).2 ref)
            = Some (Shared.contents (lists (self st)) ref)).
    f_equal. apply Hother.
    intros Htrue. specialize (Hnot Htrue). congruence.
Qed.

(** X7.  The body of the two methods on list objects.  What the
    attribute stands for afterwards is what [extended] makes of what it
    stood for and the elements given; and when the
    attribute was [None] or empty, the object given to the first call
    becomes the attribute's own, so that a second call extends that
    object of the caller in place, and changes no other object. *)
Theorem register_callables_shares_the_list (a b : nat) attr
    (store : gmap nat (list (callable World))) :
  (Shared.view (Shared.register a attr store).1 (Shared.register a attr store).2
   = extended (Shared.contents store a) (Shared.view attr store))
  /\ (truthy (Shared.view attr store) = false ->
      Shared.contents store a <> [] ->
      let first := Shared.register a attr store in
      let second := Shared.register b first.1 first.2 in
      first = (Some a, store)
      /\ second.1 = Some a
      /\ Shared.contents second.2 a
         = Shared.contents store a ++ Shared.contents store b
      /\ forall ref, ref <> a -> second.2 !! ref = store !! ref).
Proof.
  split.
  - unfold Shared.register, Shared.view, extended.
    destruct attr as [ref|]; simpl; [|done].
    destruct (Shared.contents store ref) as [|f l] eqn:Hcur; simpl; [done|].
    unfold Shared.contents at 1. by rewrite lookup_insert_eq.
  - intros Hfalsy Ha first second.
    assert (Hfirst : first = (Some a, store)).
    { subst first. unfold Shared.register. destruct attr as [ref|]; [|done].
      simpl in Hfalsy. by destruct (Shared.contents store ref). }
    subst second. rewrite Hfirst. simpl. unfold Shared.register.
    destruct (Shared.contents store a) as [|f l] eqn:Hcur; [done|].
    simpl. split_and!; auto.
    + unfold Shared.contents at 1. by rewrite lookup_insert_eq.
    + intros ref Href. by rewrite lookup_insert_ne.
Qed.

(** ** [join] more than once *)

Lemma join_stopped funcs st :
  thread (self st) = Stopped ->
  join_callables (self st) = Some funcs ->
  Forall raises_only_errors funcs ->
  exists st' d,
    join st = (Ok tt, st')
    /\ self st' = self st
    /\ trace st' = trace st ++ d ++ [Log INFO ShutdownComplete]
    /\ calls JoinCallable d = (c_repr <$> funcs).
Proof.
  intros Ht Hj Hall. rewrite join_unfold, Ht, Hj.
  destruct (run_callables_total JoinCallable funcs st Hall) as [st1 Hrun].
  rewrite Hrun.
  apply run_callables_inv in Hrun as (Hs & _ & _ & d & Hd & _ & _ & Hcalls).
  exists (record [Log INFO ShutdownComplete] st1), d.
  split_and!; auto. simpl. by rewrite Hd, <- app_assoc.
Qed.

(** X8.  [join] can be called again: with the thread over, every call
    runs all join callables once more, in order, and logs completion
    once more; the callables are run once per call, not once per
    watchdog. *)
Theorem join_again_runs_join_callables_again funcs st :
  thread (self st) = Stopped ->
  join_callables (self st) = Some funcs ->
  Forall raises_only_errors funcs ->
  exists st1 st2 d1 d2,
    join st = (Ok tt, st1)
    /\ join st1 = (Ok tt, st2)
    /\ trace st2
       = trace st ++ (d1 ++ [Log INFO ShutdownComplete])
                  ++ (d2 ++ [Log INFO ShutdownComplete])
    /\ calls JoinCallable d1 = (c_repr <$> funcs)
    /\ calls JoinCallable d2 = (c_repr <$> funcs).
Proof.
  intros Ht Hj Hall.
  destruct (join_stopped funcs st Ht Hj Hall)
    as (st1 & d1 & Hjoin1 & Hs1 & Hd1 & Hc1).
  destruct (join_stopped funcs st1) as (st2 & d2 & Hjoin2 & Hs2 & Hd2 & Hc2);
    [by rewrite Hs1..|done|].
  exists st1, st2, d1, d2. split_and!; auto.
  by rewrite Hd2, Hd1, <- !app_assoc.
Qed.

(** ** What holds over the whole life of a watchdog *)

Lemma sets_app d1 d2 : sets (d1 ++ d2) = (sets d1 + sets d2)%nat.
Proof. unfold sets. by rewrite pick_app, length_app. Qed.

Lemma sets_none d : SleeperSet ∉ d -> sets d = 0%nat.
Proof.
  induction d as [|e d IH]; [done|]. rewrite not_elem_of_cons.
  intros [He Hd]. unfold sets in *. destruct e; simpl; auto. congruence.
Qed.

Lemma keeps_refl st : keeps st st.
Proof.
  split; [|done]. split; [done|]. exists []. rewrite app_nil_r.
  split; [done|]. by destruct (signal (self st)).
Qed.

Lemma keeps_trans st1 st2 st3 : keeps st1 st2 -> keeps st2 st3 -> keeps st1 st3.
Proof.
  intros [[Hc1 (d1 & Hd1 & Hn1)] Hr1] [[Hc2 (d2 & Hd2 & Hn2)] Hr2].
  split; [|auto]. split; [auto|].
  exists (d1 ++ d2). split; [by rewrite Hd2, Hd1, app_assoc|].
  rewrite sets_app, Hn1, Hn2.
  destruct (signal (self st1)) as [c1|] eqn:Hs1.
  - pose proof (Hc1 c1 eq_refl) as Hs2. rewrite Hs2 in *.
    pose proof (Hc2 c1 eq_refl) as Hs3. by rewrite ?Hs3.
  - destruct (signal (self st2)) as [c2|] eqn:Hs2.
    + pose proof (Hc2 c2 eq_refl) as Hs3. by rewrite ?Hs3.
    + by destruct (signal (self st3)).
Qed.

(** A stretch that leaves the instance and the handler table alone and
    does not set the event. *)
Lemma keeps_same d st st' :
  self st' = self st -> handlers st' = handlers st ->
  trace st' = trace st ++ d -> SleeperSet ∉ d -> keeps st st'.
Proof.
  intros Hs Hh Hd Hn. split.
  - split; [by rewrite Hs|]. exists d. split; [done|].
    rewrite Hs, (sets_none d Hn). by destruct (signal (self st)).
  - unfold registered. by rewrite Hs, Hh.
Qed.

Lemma keeps_delivered nums st st' : delivered nums st st' -> keeps st st'.
Proof.
  intros (Hh & [(Hs & _ & Ht)|(Hnone & sig_num & d & _ & _ & Hs & Ht & Hev & _)]).
  - apply keeps_same with []; auto using not_elem_of_nil.
    by rewrite app_nil_r.
  - split.
    + split; [by rewrite Hnone|]. exists (SleeperSet :: d).
      split; [done|]. rewrite Hnone, Hs. simpl.
      change (sets (SleeperSet :: d)) with (S (sets d)).
      apply shutdown_event_quiet in Hev as (_ & _ & _ & Hn & _).
      by rewrite (sets_none d Hn).
    + unfold registered. by rewrite Hs, Hh.
Qed.

Lemma keeps_yield st : keeps st (yielded st).
Proof. destruct (yield_inv st) as [_ Hd]. by apply keeps_delivered in Hd. Qed.

Lemma keeps_handle_shutdown sig_num st r st' :
  handle_shutdown sig_num st = (r, st') -> keeps st st'.
Proof.
  destruct (signal (self st)) as [c|] eqn:Hsig.
  - rewrite (handle_shutdown_fired _ _ c Hsig). intros [= <- <-].
    apply keeps_refl.
  - intros Hhs. apply handle_shutdown_first in Hhs
      as (Hs & Hh & _ & _ & d & Hd & Hev & _); [|done].
    split.
    + split; [by rewrite Hsig|]. exists (SleeperSet :: d).
      split; [done|]. rewrite Hsig, Hs. simpl.
      change (sets (SleeperSet :: d)) with (S (sets d)).
      apply shutdown_event_quiet in Hev as (_ & _ & _ & Hn & _).
      by rewrite (sets_none d Hn).
    + unfold registered. by rewrite Hs, Hh.
Qed.

Lemma keeps_record d st : SleeperSet ∉ d -> keeps st (record d st).
Proof. intros Hn. by apply keeps_same with d. Qed.

Lemma keeps_probe func st r st' : probe func st = (r, st') -> keeps st st'.
Proof.
  rewrite probe_unfold. destruct (c_call func (world st)) as [o w].
  cbn zeta.
  set (st1 := record [Call MonitorCallable (c_repr func) o] (with_world w st)).
  assert (Hcall : keeps st st1).
  { apply keeps_same with [Call MonitorCallable (c_repr func) o]; auto.
    by apply not_set_singleton. }
  destruct o as [[]|ex].
  - by intros [= <- <-].
  - destruct (handle_shutdown SIGABRT (yielded st1)) as [r2 st2] eqn:Hhs.
    apply keeps_handle_shutdown in Hhs.
    assert (Hall : keeps st st2).
    { apply keeps_trans with st1; [done|].
      apply keeps_trans with (yielded st1); [apply keeps_yield|done]. }
    by destruct r2 as [[]|?|]; intros [= <- <-].
  - destruct (exc_is_Exception ex); intros [= <- <-]; [|done].
    apply keeps_trans with st1; [done|]. apply keeps_record.
    by apply not_set_singleton.
Qed.

Lemma keeps_monitor_round funcs st r st' :
  monitor_round funcs st = (r, st') -> keeps st st'.
Proof.
  revert st. induction funcs as [|func rest IH]; intros st.
  - intros [= <- <-]. apply keeps_refl.
  - rewrite monitor_round_cons. cbn zeta.
    pose proof (keeps_yield st) as Hy1.
    destruct (signal (self (yielded st))); [by intros [= <- <-]|].
    pose proof (keeps_yield (yielded st)) as Hy2.
    destruct (probe func (yielded (yielded st))) as [r2 st2] eqn:Hp.
    apply keeps_probe in Hp.
    assert (Hhere : keeps st st2).
    { apply keeps_trans with (yielded st); [done|].
      by apply keeps_trans with (yielded (yielded st)). }
    destruct r2 as [[]|?|]; try (by intros [= <- <-]).
    intros Hrest. apply IH in Hrest. by apply keeps_trans with st2.
Qed.

Lemma keeps_sleeper_wait timeout st r st' :
  sleeper_wait timeout st = (r, st') -> keeps st st'.
Proof.
  rewrite sleeper_wait_unfold. destruct (sleeper (self st));
    [intros [= <- <-]; apply keeps_refl|].
  cbn zeta.
  assert (Hhere : keeps st (yielded (record (block_events timeout) st))).
  { apply keeps_trans with (record (block_events timeout) st);
      [|apply keeps_yield].
    apply keeps_record, not_set_block_events. }
  destruct (sleeper _); [by intros [= <- <-]|].
  by destruct timeout; intros [= <- <-].
Qed.

Lemma keeps_register_shutdown_signals ctx nums st r st' :
  register_shutdown_signals ctx nums st = (r, st') -> keeps st st'.
Proof.
  intros Hrun. pose proof Hrun as Hadd.
  apply register_shutdown_signals_added in Hadd as (added' & Hs' & Hh' & _).
  apply register_shutdown_signals_inv in Hrun
    as (_ & _ & _ & added & Hs & Ht & Hh & Hnd & _).
  assert (added' = added) as ->.
  { rewrite Hs in Hs'. simpl in Hs'. by apply app_inv_head in Hs'. }
  split.
  - split; [by rewrite Hs|]. exists (Install ctx <$> added).
    split; [done|]. rewrite Hs. simpl.
    assert (sets (Install ctx <$> added) = 0%nat) as ->
      by (clear; by induction added).
    by destruct (signal (self st)).
  - intros [Hnodup Hinst]. split; [rewrite Hs; simpl; by apply Hnd|].
    intros num. rewrite Hs, Hh. simpl.
    rewrite elem_of_app, elem_of_union, elem_of_list_to_set.
    intros [?|?]; auto.
Qed.

Lemma keeps_monitor_loop rounds st r st' :
  monitor_loop rounds st = (r, st') -> keeps st st'.
Proof.
  revert st. induction rounds as [|rounds IH]; intros st;
    rewrite monitor_loop_unfold; cbn zeta;
    pose proof (keeps_yield st) as Hy;
    destruct (signal (self (yielded st))); try (by intros [= <- <-]).
  destruct (monitor_callables _) as [funcs|]; [|by intros [= <- <-]].
  destruct (monitor_round funcs (yielded st)) as [r2 st2] eqn:Hround.
  apply keeps_monitor_round in Hround.
  assert (Hsum2 : keeps st st2) by (by apply keeps_trans with (yielded st)).
  destruct r2 as [[]|?|]; try (by intros [= <- <-]).
  destruct (sleeper_wait _ st2) as [r3 st3] eqn:Hwait.
  apply keeps_sleeper_wait in Hwait.
  assert (Hsum3 : keeps st st3) by (by apply keeps_trans with st2).
  destruct r3 as [b|?|]; try (by intros [= <- <-]).
  intros Hloop. apply IH in Hloop. by apply keeps_trans with st3.
Qed.

Lemma keeps_monitor rounds st r st' :
  monitor rounds st = (r, st') -> keeps st st'.
Proof.
  unfold monitor. unfold_monad.
  destruct (sleeper_wait (start_delay (self st)) st) as [r1 st1] eqn:Hwait.
  apply keeps_sleeper_wait in Hwait.
  destruct r1 as [b|?|]; try (by intros [= <- <-]).
  rewrite yield_ok.
  assert (Hsum2 : keeps st (yielded st1)).
  { apply keeps_trans with st1; [done|apply keeps_yield]. }
  destruct (signal (self (yielded st1))); [by intros [= <- <-]|].
  destruct (ensure_sentinel (yielded st1)) as [r3 st3] eqn:Hens.
  assert (Hsum3 : keeps st st3).
  { apply keeps_trans with (yielded st1); [done|].
    revert Hens. unfold ensure_sentinel. unfold_monad.
    destruct (bool_decide _); [intros [= <- <-]; apply keeps_refl|].
    apply keeps_register_shutdown_signals. }
  destruct r3 as [[]|?|]; try (by intros [= <- <-]).
  intros Hloop. apply keeps_monitor_loop in Hloop.
  by apply keeps_trans with st3.
Qed.

(** A stretch that leaves the cause, the list of signals and the handler
    table alone and does not set the event. *)
Lemma keeps_attrs d st st' :
  signal (self st') = signal (self st) ->
  shutdown_signals (self st') = shutdown_signals (self st) ->
  handlers st' = handlers st ->
  trace st' = trace st ++ d -> SleeperSet ∉ d -> keeps st st'.
Proof.
  intros Hsig Hs Hh Hd Hn. split.
  - split; [by rewrite Hsig|]. exists d. split; [done|].
    rewrite Hsig, (sets_none d Hn). by destruct (signal (self st)).
  - unfold registered. by rewrite Hs, Hh.
Qed.

Lemma keeps_run_callables k funcs st r st' :
  run_callables k funcs st = (r, st') -> keeps st st'.
Proof.
  intros Hrun. apply run_callables_inv in Hrun
    as (Hs & Hh & _ & d & Hd & Hev & _).
  apply keeps_same with d; auto.
  clear -Hev. induction Hev as [|e d He _ IH]; [apply not_elem_of_nil|].
  apply not_elem_of_cons. split; [|done]. intros <-. contradiction.
Qed.

Lemma keeps_perform op st : keeps st (perform op st).
Proof.
  destruct op as [ctx nums|cs|cs|delay|rounds|num|]; simpl.
  - destruct (register_shutdown_signals ctx nums st) as [r st'] eqn:Hrun.
    by apply keeps_register_shutdown_signals in Hrun.
  - rewrite register_shutdown_callables_value. simpl.
    apply keeps_attrs with []; auto using not_elem_of_nil.
    by rewrite app_nil_r.
  - rewrite register_monitor_callables_value. simpl.
    apply keeps_attrs with []; auto using not_elem_of_nil.
    by rewrite app_nil_r.
  - unfold start. unfold_monad. simpl.
    destruct (thread (self st)); simpl;
      (apply keeps_attrs with []; auto using not_elem_of_nil;
       by rewrite app_nil_r).
  - unfold thread_run. destruct (thread (self st)); try apply keeps_refl.
    destruct (monitor rounds st) as [r st1] eqn:Hrun.
    apply keeps_monitor in Hrun.
    destruct r as [[]|ex|]; [| |done];
      (apply keeps_trans with st1; [done|]);
      (eapply keeps_attrs; [done..|by apply not_set_singleton]).
  - unfold deliver. destruct (bool_decide _); [|apply keeps_refl].
    destruct (handle_shutdown num st) as [r st'] eqn:Hhs.
    by apply keeps_handle_shutdown in Hhs.
  - destruct (thread (self st)) eqn:Hth;
      [rewrite join_unfold, Hth; apply keeps_refl
      |rewrite (join_started st Hth);
       apply (keeps_delivered _ _ _ (interrupts_delivered st))
      |].
    rewrite join_unfold, Hth.
    destruct (join_callables (self st)) as [funcs|]; [|apply keeps_refl].
    destruct (run_callables JoinCallable funcs st) as [r st'] eqn:Hrun.
    apply keeps_run_callables in Hrun.
    destruct r as [[]|?|]; try done.
    apply keeps_trans with st'; [done|].
    apply keeps_record. by apply not_set_singleton.
Qed.

Lemma keeps_lifecycle ops st : keeps st (lifecycle ops st).
Proof.
  revert st. induction ops as [|op ops IH]; intros st; [apply keeps_refl|].
  simpl. apply keeps_trans with (perform op st); [apply keeps_perform|].
  apply IH.
Qed.

Lemma keeps_init ctx (objs : gmap nat (list (callable World))) (mc sc jc : option nat)
    sigs delay (w : World) h p :
  let st := (init ctx objs mc sc jc sigs delay w h p).2 in
  signal (self st) = None /\ sets (trace st) = 0%nat /\ registered st.
Proof.
  unfold init. destruct (truthy sigs).
  - destruct (register_shutdown_signals _ _ _) as [r st'] eqn:Hrun.
    pose proof Hrun as Hinv. apply register_shutdown_signals_inv in Hinv
      as (_ & _ & _ & added & Hs & _).
    apply keeps_register_shutdown_signals in Hrun
      as [[_ (d & Hd & Hn)] Hreg].
    simpl in *. rewrite Hs in Hn. simpl in Hn.
    split_and!; [by rewrite Hs|by rewrite Hd|].
    apply Hreg. split; [constructor|].
    by intros num ?%elem_of_nil.
  - simpl. split_and!; auto. split; [constructor|].
    by intros num ?%elem_of_nil.
Qed.

(** X9.  Over the whole life of a watchdog, whatever is called on it and
    whatever signals arrive, in any order: the event is set at most
    once, namely exactly when a cause is recorded, and the cause
    recorded first is never replaced. *)
Theorem shutdown_is_triggered_at_most_once ctx
    (objs : gmap nat (list (callable World))) (mc sc jc : option nat) sigs delay (w : World) h p
    ops more :
  let st := lifecycle ops (init ctx objs mc sc jc sigs delay w h p).2 in
  sets (trace st) = match signal (self st) with Some _ => 1%nat | None => 0%nat end
  /\ forall c, signal (self st) = Some c ->
       signal (self (lifecycle more st)) = Some c
       /\ sets (trace (lifecycle more st)) = 1%nat.
Proof.
  intros st.
  destruct (keeps_init ctx objs mc sc jc sigs delay w h p) as (Hnone & Hzero & _).
  assert (Hnow : sets (trace st) = match signal (self st) with Some _ => 1%nat | None => 0%nat end).
  { destruct (keeps_lifecycle ops (init ctx objs mc sc jc sigs delay w h p).2)
      as [[_ (d & Hd & Hn)] _].
    fold st in Hd, Hn. rewrite Hnone in Hn.
    rewrite Hd, sets_app, Hzero, Hn. by destruct (signal (self st)). }
  split; [done|]. intros c Hc.
  destruct (keeps_lifecycle more st) as [[Hkeep (d & Hd & Hn)] _].
  pose proof (Hkeep c Hc) as Hc'.
  split; [done|]. rewrite Hd, sets_app, Hnow, Hn, Hc. by rewrite ?Hc'.
Qed.

(** X10.  Over the whole life of a watchdog the list of shutdown signals
    holds no number twice, and holds only numbers for which the handler
    was installed: a number whose installation failed is never listed. *)
Theorem listed_signals_are_installed_once ctx
    (objs : gmap nat (list (callable World))) (mc sc jc : option nat) sigs delay (w : World) h p
    ops :
  let st := lifecycle ops (init ctx objs mc sc jc sigs delay w h p).2 in
  NoDup (shutdown_signals (self st))
  /\ forall num, num ∈ shutdown_signals (self st) -> num ∈ handlers st.
Proof.
  intros st.
  destruct (keeps_init ctx objs mc sc jc sigs delay w h p) as (_ & _ & Hreg).
  destruct (keeps_lifecycle ops (init ctx objs mc sc jc sigs delay w h p).2)
    as [_ Hkeep].
  exact (Hkeep Hreg).
Qed.

(** ** The thread, once over *)

Lemma calls_installs k ctx added : calls k (Install ctx <$> added) = [].
Proof. by induction added. Qed.

Lemma calls_loop_other k k' d :
  k' <> k -> Forall (loop_event k) d -> calls k' d = [].
Proof.
  intros Hne. induction 1 as [|e d He _ IH]; [done|].
  destruct e as [l m|k0 name o| | | |]; simpl in He; try contradiction.
  - exact IH.
  - subst k0. by rewrite calls_cons_other.
Qed.

Lemma perform_rank op st :
  (rank (thread (self st)) <= rank (thread (self (perform op st))))%nat.
Proof.
  destruct op as [ctx nums|cs|cs|delay|rounds|num|]; simpl.
  - destruct (register_shutdown_signals ctx nums st) as [r st'] eqn:Hrun.
    apply register_shutdown_signals_frame in Hrun
      as [(_ & _ & _ & _ & _ & Ht & _) _].
    simpl. by rewrite Ht.
  - by rewrite register_shutdown_callables_value.
  - by rewrite register_monitor_callables_value.
  - unfold start. unfold_monad. simpl.
    destruct (thread (self st)) eqn:Hth; simpl; rewrite ?Hth; simpl; lia.
  - unfold thread_run. destruct (thread (self st)) eqn:Hth;
      try (rewrite Hth; done).
    destruct (monitor rounds st) as [r st1] eqn:Hrun.
    apply monitor_frame in Hrun as [(_ & _ & _ & _ & _ & Ht & _) _].
    destruct r as [[]|ex|]; simpl; try lia. rewrite Ht, Hth. done.
  - destruct (deliver_frame num st) as [(_ & _ & _ & _ & _ & Ht & _) _].
    by rewrite Ht.
  - destruct (thread (self st)) eqn:Hth;
      [by rewrite join_unfold, Hth; simpl; rewrite Hth| |].
    { rewrite (join_started st Hth).
      destruct (frame_delivered _ _ _ (interrupts_delivered st))
        as [(_ & _ & _ & _ & _ & Ht & _) _].
      by rewrite Ht, Hth. }
    rewrite join_unfold, Hth.
    destruct (join_callables (self st)) as [funcs|];
      [|simpl; rewrite Hth; done].
    destruct (run_callables JoinCallable funcs st) as [r st'] eqn:Hrun.
    apply run_callables_inv in Hrun as (Hs & _).
    destruct r as [[]|?|]; simpl; by rewrite Hs, Hth.
Qed.

Lemma perform_stopped op st :
  thread (self st) = Stopped ->
  calls MonitorCallable (trace (perform op st))
  = calls MonitorCallable (trace st).
Proof.
  intros Hth. destruct op as [ctx nums|cs|cs|delay|rounds|num|]; simpl.
  - destruct (register_shutdown_signals ctx nums st) as [r st'] eqn:Hrun.
    apply register_shutdown_signals_inv in Hrun
      as (_ & _ & _ & added & _ & Ht & _).
    simpl. by rewrite Ht, calls_app, calls_installs, app_nil_r.
  - by rewrite register_shutdown_callables_value.
  - by rewrite register_monitor_callables_value.
  - unfold start. unfold_monad. simpl. by rewrite Hth.
  - unfold thread_run. by rewrite Hth.
  - unfold deliver. destruct (bool_decide _); [|done].
    destruct (handle_shutdown num st) as [r st'] eqn:Hhs.
    apply handle_shutdown_trace in Hhs as (d & Hd & Hev).
    apply handler_trace_quiet in Hev as [Hev _].
    simpl. by rewrite Hd, calls_app, Hev, app_nil_r.
  - rewrite join_unfold, Hth.
    destruct (join_callables (self st)) as [funcs|]; [|done].
    destruct (run_callables JoinCallable funcs st) as [r st'] eqn:Hrun.
    apply run_callables_inv in Hrun as (_ & _ & _ & d & Hd & Hev & _).
    apply (calls_loop_other _ MonitorCallable) in Hev; [|done].
    destruct r as [[]|?|]; simpl; rewrite Hd, ?calls_app, Hev; simpl;
      by rewrite ?app_nil_r.
Qed.

(** X11.  The thread of a watchdog only moves forward: whatever is
    called and whatever arrives, it never gets back from started to
    initial or from over to started; and once it is over, it stays
    over, no probe is called any more, and [join] does not block. *)
Theorem thread_only_moves_forward ops st :
  (rank (thread (self st)) <= rank (thread (self (lifecycle ops st))))%nat
  /\ (thread (self st) = Stopped ->
      thread (self (lifecycle ops st)) = Stopped
      /\ calls MonitorCallable (trace (lifecycle ops st))
         = calls MonitorCallable (trace st)
      /\ (join (lifecycle ops st)).1 <> Stuck).
Proof.
  assert (Hrank : forall ops st,
    (rank (thread (self st)) <= rank (thread (self (lifecycle ops st))))%nat).
  { clear. intros ops. induction ops as [|op ops IH]; intros st; [done|].
    simpl. etrans; [apply (perform_rank op)|apply IH]. }
  assert (Hover : forall st, thread (self st) = Stopped ->
            thread (self (lifecycle ops st)) = Stopped).
  { clear -Hrank. intros st Hth. pose proof (Hrank ops st) as Hle.
    rewrite Hth in Hle. destruct (thread (self (lifecycle ops st)));
      simpl in Hle; done || lia. }
  split; [apply Hrank|]. intros Hth. split_and!; [by apply Hover| |].
  - clear Hover. revert st Hth.
    induction ops as [|op ops IH]; intros st Hth; [done|].
    simpl. rewrite IH, perform_stopped; [done..|].
    pose proof (perform_rank op st) as Hle. rewrite Hth in Hle.
    destruct (thread (self (perform op st))); simpl in Hle; done || lia.
  - rewrite join_unfold, (Hover st Hth).
    destruct (join_callables _) as [funcs|]; [|done].
    destruct (run_callables JoinCallable funcs _) as [r st'] eqn:Hrun.
    apply run_callables_inv in Hrun as (_ & _ & _ & d & _ & _ & _ & Hres).
    by destruct r as [[]|?|].
Qed.

(** ** The thread before its first round *)

Lemma idle_refl st : idle st st.
Proof. split; [apply stable_refl|done]. Qed.

Lemma idle_trans st1 st2 st3 : idle st1 st2 -> idle st2 st3 -> idle st1 st3.
Proof.
  intros (Hs1 & Hl1 & Hh1 & Hc1) (Hs2 & Hl2 & Hh2 & Hc2).
  split; [by apply stable_trans with (self st2)|].
  split_and!; congruence.
Qed.

Lemma idle_yield st : idle st (yielded st).
Proof.
  destruct (frame_yield st) as [Hst _].
  destruct (yield_trace st) as (d & Hd & Hev).
  apply handler_trace_quiet in Hev as [Hev _].
  destruct (yield_inv st)
    as [_ (Hh & [(Hs & _ & _)|(_ & n & d' & _ & _ & Hs & _)])];
    (split; [done|]); rewrite Hs, Hd, calls_app, Hev, app_nil_r; by split_and!.
Qed.

Lemma idle_block timeout st : idle st (record (block_events timeout) st).
Proof.
  split; [apply stable_refl|]. split_and!; auto. simpl.
  rewrite calls_app. destruct timeout as [t|]; unfold block_events;
    [destruct (bool_decide _)|]; simpl; by rewrite app_nil_r.
Qed.

(** The wait of line 71: it calls nothing and registers nothing; it
    ends with the event set exactly when a handler ran meanwhile or had
    run before; otherwise it ends after the timeout with nothing
    changed, and without a timeout it does not end. *)
Lemma sleeper_wait_idle timeout st r st' :
  sleeper_wait timeout st = (r, st') ->
  idle st st'
  /\ match r with
     | Ok true =>
         sleeper (self st') = true
         /\ (sleeper (self st) = false -> signal (self st) = None ->
             signal (self st') <> None)
     | Ok false =>
         timeout <> None /\ self st' = self st
         /\ trace st' = trace st ++ block_events timeout
     | Raise _ => False
     | Stuck =>
         timeout = None /\ self st' = self st
         /\ trace st' = trace st ++ block_events timeout
     end.
Proof.
  rewrite sleeper_wait_unfold. destruct (sleeper (self st)) eqn:Hsl.
  - intros [= <- <-]. split; [apply idle_refl|]. split; [done|].
    intros Hf. discriminate Hf.
  - cbn zeta. set (st1 := record (block_events timeout) st).
    assert (Hidle : idle st (yielded st1)).
    { apply idle_trans with st1; [apply idle_block|apply idle_yield]. }
    destruct (sleeper (self (yielded st1))) eqn:Hsl1.
    + intros [= <- <-]. split; [done|]. split; [done|]. intros _ Hnone.
      destruct (yield_inv st1)
        as [_ (_ & [(Hs & _ & _)|(_ & n & d' & _ & _ & Hs & _)])].
      * rewrite Hs in Hsl1. simpl in Hsl1. congruence.
      * by rewrite Hs.
    + assert (Hsame : self (yielded st1) = self st
                      /\ trace (yielded st1) = trace st ++ block_events timeout).
      { destruct (yield_inv st1)
          as [_ (_ & [(Hs & _ & Ht)|(_ & n & d' & _ & _ & Hs & _)])].
        - by rewrite Hs, Ht.
        - rewrite Hs in Hsl1. discriminate Hsl1. }
      destruct Hsame as [Hs Ht].
      by destruct timeout as [t|]; intros [= <- <-].
Qed.

Lemma thread_exit_idle uncaught st :
  shutdown_signals (self (thread_exit uncaught st).2) = shutdown_signals (self st)
  /\ handlers (thread_exit uncaught st).2 = handlers st
  /\ signal (self (thread_exit uncaught st).2) = signal (self st)
  /\ thread (self (thread_exit uncaught st).2) = Stopped
  /\ trace (thread_exit uncaught st).2 = trace st ++ [ThreadExit uncaught]
  /\ calls MonitorCallable (trace (thread_exit uncaught st).2)
     = calls MonitorCallable (trace st).
Proof.
  unfold thread_exit. unfold_monad. simpl. split_and!; auto.
  by rewrite calls_app, app_nil_r.
Qed.

(** X12.  Where [signal.signal] refuses the monitor thread, as CPython
    does, and the caller has not registered [SIGABRT]: the thread never
    calls a probe, whatever arrives and however long it may run; it
    registers nothing; and unless a signal triggers the shutdown during
    the start delay it ends with the exception of [signal.signal]
    uncaught and no shutdown triggered. *)
Theorem unregistered_sentinel_ends_the_thread rounds st ex :
  thread (self st) = Started ->
  SIGABRT ∉ shutdown_signals (self st) ->
  signal_signal MonitorThread SIGABRT = Some ex ->
  let st' := thread_run rounds st in
  calls MonitorCallable (trace st') = calls MonitorCallable (trace st)
  /\ shutdown_signals (self st') = shutdown_signals (self st)
  /\ handlers st' = handlers st
  /\ (signal (self st') = None -> start_delay (self st) <> None ->
      thread (self st') = Stopped
      /\ exists d, trace st' = trace st ++ d ++ [ThreadExit (Some ex)]).
Proof.
  intros Hth Hnot Hrefuse. unfold thread_run. rewrite Hth.
  unfold monitor. unfold_monad.
  destruct (sleeper_wait (start_delay (self st)) st) as [r1 st1] eqn:Hwait.
  pose proof (sleeper_wait_frame _ _ _ _ Hwait) as [_ (d1 & Hd1 & _)].
  apply sleeper_wait_idle in Hwait as ((Hst1 & Hl1 & Hh1 & Hc1) & Hres).
  destruct r1 as [b|ex1|]; [|done|].
  - rewrite yield_ok.
    destruct (idle_yield st1) as (Hst2 & Hl2 & Hh2 & Hc2).
    destruct (frame_yield st1) as [_ (d2 & Hd2 & _)].
    destruct (signal (self (yielded st1))) as [c|] eqn:Hsig.
    + destruct (thread_exit_idle None (yielded st1))
        as (Hl & Hh & Hs & Ht & _ & Hc).
      cbn zeta. split_and!; [congruence..|].
      intros Hnone. rewrite Hs, Hsig in Hnone. discriminate Hnone.
    + unfold ensure_sentinel. unfold_monad.
      rewrite bool_decide_eq_false_2 by (by rewrite Hl2, Hl1).
      rewrite register_shutdown_signals_cons.
      rewrite bool_decide_eq_false_2 by (by rewrite Hl2, Hl1).
      rewrite Hrefuse.
      destruct (thread_exit_idle (Some ex) (yielded st1))
        as (Hl & Hh & Hs & Ht & Htr & Hc).
      cbn zeta. split_and!; [congruence..|].
      intros _ _. split; [done|]. exists (d1 ++ d2).
      by rewrite Htr, Hd2, Hd1, <- !app_assoc.
  - cbn zeta. split_and!; [congruence..|].
    intros _ Hdelay. by destruct Hres as [Hnone _].
Qed.



(** X14.  [start(None)] makes the wait of line 71 one without timeout:
    the thread calls no probe and registers nothing, however long it
    runs and whatever arrives.  It stays blocked in that wait while no
    signal triggers the shutdown, and ends normally once one has. *)
Theorem start_without_delay_never_probes rounds st :
  thread (self st) = Started ->
  start_delay (self st) = None ->
  sleeper (self st) = false -> signal (self st) = None ->
  let st' := thread_run rounds st in
  calls MonitorCallable (trace st') = calls MonitorCallable (trace st)
  /\ shutdown_signals (self st') = shutdown_signals (self st)
  /\ handlers st' = handlers st
  /\ match signal (self st') with
     | None => thread (self st') = Started
               /\ trace st' = trace st ++ [Block None]
     | Some _ => thread (self st') = Stopped
                 /\ last (trace st') = Some (ThreadExit None)
     end.
Proof.
  intros Hth Hdelay Hsl Hnone. unfold thread_run. rewrite Hth.
  unfold monitor. unfold_monad. rewrite Hdelay.
  destruct (sleeper_wait None st) as [r1 st1] eqn:Hwait.
  apply sleeper_wait_idle in Hwait as (((_ & _ & _ & _ & _ & Ht1 & _)
                                        & Hl1 & Hh1 & Hc1) & Hres).
  destruct r1 as [[]|ex1|]; [|by destruct Hres|done|].
  - destruct Hres as [_ Hsig]. specialize (Hsig Hsl Hnone).
    rewrite yield_ok. destruct (idle_yield st1) as (_ & Hl2 & Hh2 & Hc2).
    destruct (keeps_yield st1) as [[Hkeep _] _].
    destruct (signal (self st1)) as [c|] eqn:Hsig1; [|done].
    rewrite (Hkeep c eq_refl).
    destruct (thread_exit_idle None (yielded st1))
      as (Hl & Hh & Hs & Ht & Htr & Hc).
    cbn zeta. split_and!; [congruence..|].
    rewrite Hs, (Hkeep c eq_refl). split; [done|].
    by rewrite Htr, last_snoc.
  - destruct Hres as (_ & Hs & Htr). cbn zeta.
    split_and!; [congruence..|]. rewrite Hs, Hnone.
    split; [congruence|done].
Qed.

(** ** The handler interleaved, for any instance *)

Lemma run_schedule_app s1 s2 acts st :
  run_schedule (s1 ++ s2) acts st
  = let (acts', st') := run_schedule s1 acts st in run_schedule s2 acts' st'.
Proof.
  revert acts st. induction s1 as [|i s1 IH]; intros acts st; [done|].
  simpl. destruct (step_activation i acts st). apply IH.
Qed.

(** The activation [i] scheduled [n] times in a row. *)
Lemma run_schedule_alone n i sig_num pc (acts : list (Z * hs_pc)) st :
  acts !! i = Some (sig_num, pc) ->
  run_schedule (replicate n i) acts st
  = (<[i := (sig_num, (hs_exec n sig_num pc st).1)]> acts,
     (hs_exec n sig_num pc st).2).
Proof.
  revert pc acts st. induction n as [|n IH]; intros pc acts st Hi.
  - cbn. by rewrite list_insert_id.
  - cbn [replicate run_schedule hs_exec]. unfold step_activation, activations.
    rewrite Hi.
    destruct (hs_step sig_num pc st) as [pc1 st1].
    rewrite (IH pc1).
    + by rewrite list_insert_insert_eq.
    + apply list_lookup_insert_eq. by eapply lookup_lt_Some.
Qed.

(** Past the test of line 58 an activation does what the method does on
    an instance without a cause, whatever cause is recorded by then. *)
Lemma hs_exec_past_the_test sig_num st :
  exists n,
    hs_exec n sig_num L59 st
    = (pc_of (handle_shutdown sig_num (with_self (set_signal None) st)).1,
       (handle_shutdown sig_num (with_self (set_signal None) st)).2).
Proof.
  destruct (hs_exec_alone sig_num (with_self (set_signal None) st))
    as [[|[|n]] Hn].
  - simpl in Hn. destruct (handle_shutdown _ _).1; discriminate.
  - simpl in Hn. destruct (handle_shutdown _ _).1; discriminate.
  - exists (S n). rewrite <- Hn. reflexivity.
Qed.

Lemma handle_shutdown_acts sig_num name funcs st :
  signal (self st) = None ->
  Signals sig_num = Some name ->
  shutdown_callables (self st) = Some funcs -> funcs <> [] ->
  Forall raises_only_errors funcs ->
  exists st' d,
    handle_shutdown sig_num st = (Ok tt, st')
    /\ self st' = set_sleeper true (set_signal (Some sig_num) (self st))
    /\ trace st' = trace st ++ SleeperSet :: d
    /\ (SleeperSet ∉ d)
    /\ calls ShutdownCallable d = (c_repr <$> funcs).
Proof.
  intros Hnone Hname Hsc Hne Hall. destruct funcs as [|func rest]; [done|].
  rewrite (handle_shutdown_runs_loop _ _ name func rest) by done.
  destruct (run_callables_total ShutdownCallable (func :: rest)
              (record [SleeperSet; Log WARNING (Caught name);
                       Log INFO InitiatingShutdown]
                 (with_self (fun w => set_sleeper true
                                        (set_signal (Some sig_num) w)) st))
              Hall) as [st' Hrun].
  exists st'. rewrite Hrun.
  apply run_callables_inv in Hrun as (Hs & _ & _ & d & Hd & Hev & _ & Hcalls).
  exists (Log WARNING (Caught name) :: Log INFO InitiatingShutdown :: d).
  split_and!; auto.
  - rewrite Hd. simpl. by rewrite <- app_assoc.
  - apply loop_event_shutdown, shutdown_event_quiet in Hev
      as (_ & _ & _ & Hn & _).
    intros [?|[?|?]%elem_of_cons]%elem_of_cons; done.
Qed.

(** X15.  The race of lines 58-59 for any instance with shutdown
    callables: when two activations of the handler have both passed the
    test before either assigns, there is a schedule under which both
    return normally, the event is set twice, every shutdown callable
    runs twice, in two full passes, and the cause left is the one
    assigned last; the handler run as one step sets the event once. *)
Theorem handle_shutdown_race_for_any_instance sig1 sig2 name1 name2 funcs st :
  signal (self st) = None ->
  Signals sig1 = Some name1 -> Signals sig2 = Some name2 ->
  shutdown_callables (self st) = Some funcs -> funcs <> [] ->
  Forall raises_only_errors funcs ->
  exists schedule st' d,
    run_schedule schedule [(sig1, L58); (sig2, L58)] st
    = ([(sig1, Returned); (sig2, Returned)], st')
    /\ trace st' = trace st ++ d
    /\ sets d = 2%nat
    /\ calls ShutdownCallable d = (c_repr <$> funcs) ++ (c_repr <$> funcs)
    /\ signal (self st') = Some sig2.
Proof.
  intros Hnone Hname1 Hname2 Hsc Hne Hall.
  destruct (hs_exec_past_the_test sig1 st) as [n1 Hn1].
  assert (Hsame : with_self (set_signal None) st = st).
  { destruct st as [[] ? ? ? ?]. simpl in Hnone. by subst. }
  rewrite Hsame in Hn1.
  destruct (handle_shutdown_acts sig1 name1 funcs st)
    as (st1 & d1 & Hrun1 & Hs1 & Ht1 & Hset1 & Hc1); auto.
  rewrite Hrun1 in Hn1. simpl in Hn1.
  destruct (hs_exec_past_the_test sig2 st1) as [n2 Hn2].
  destruct (handle_shutdown_acts sig2 name2 funcs
              (with_self (set_signal None) st1))
    as (st2 & d2 & Hrun2 & Hs2 & Ht2 & Hset2 & Hc2); auto.
  { simpl. by rewrite Hs1. }
  rewrite Hrun2 in Hn2. simpl in Hn2.
  exists ([0; 1]%nat ++ replicate n1 0%nat ++ replicate n2 1%nat), st2,
    ((SleeperSet :: d1) ++ SleeperSet :: d2).
  split_and!.
  - rewrite run_schedule_app, hs_both_pass_the_test by done.
    rewrite run_schedule_app.
    rewrite (run_schedule_alone n1 0 sig1 L59) by done. rewrite Hn1.
    rewrite (run_schedule_alone n2 1 sig2 L59) by done.
    cbn [fst snd]. rewrite Hn2. reflexivity.
  - rewrite Ht2. simpl. by rewrite Ht1, <- app_assoc.
  - rewrite sets_app.
    change (sets (SleeperSet :: d1)) with (S (sets d1)).
    change (sets (SleeperSet :: d2)) with (S (sets d2)).
    by rewrite !sets_none.
  - rewrite calls_app.
    change (calls ShutdownCallable (SleeperSet :: d1))
      with (calls ShutdownCallable d1).
    change (calls ShutdownCallable (SleeperSet :: d2))
      with (calls ShutdownCallable d2).
    by rewrite Hc1, Hc2.
  - by rewrite Hs2.
Qed.

End Further.

(** ** Instances of the further properties on CPython *)

Lemma handle_shutdown_unnamed_signal_witness :
  let st := fresh None (Some [flush; close]) None (Some [35]) [] in
  (handle_shutdown 35 st).1 = Raise (ValueError_not_a_signal 35)
  /\ signal (self (handle_shutdown 35 st).2) = Some 35
  /\ calls ShutdownCallable (trace (attempts [35; SIGTERM; 35] st)) = [].
Proof.
  intros st.
  assert (Hname : Signals 35 = None) by (vm_compute; reflexivity).
  destruct (handle_shutdown_unnamed_signal 35 [SIGTERM; 35] st
              eq_refl Hname) as (Hfirst & Hseq & Hcalls).
  split_and!.
  - by rewrite Hfirst.
  - by rewrite Hfirst.
  - rewrite Hseq, Hcalls. vm_compute. reflexivity.
Defined.

Lemma register_shutdown_signals_result_witness :
  let st := fresh None None None (Some [SIGTERM]) [] in
  let st' := (register_shutdown_signals MainThread
                [SIGINT; SIGTERM; SIGINT] st).2 in
  SIGINT ∈ shutdown_signals (self st')
  /\ ([SIGTERM] `prefix_of` shutdown_signals (self st'))
  /\ SIGINT ∈ handlers st'.
Proof.
  intros st st'.
  assert (Hrun : register_shutdown_signals MainThread
                   [SIGINT; SIGTERM; SIGINT] st = (Ok tt, st'))
    by (vm_compute; reflexivity).
  destruct (register_shutdown_signals_result MainThread
              [SIGINT; SIGTERM; SIGINT] st st' Hrun) as (Hlist & Hpre & Hh).
  split_and!.
  - apply Hlist. right. apply elem_of_cons. by left.
  - exact Hpre.
  - apply Hh. right. split.
    + apply elem_of_cons. by left.
    + apply (bool_decide_unpack _). vm_compute. exact I.
Defined.

Lemma register_shutdown_signals_failure_witness :
  let st := fresh None None None None [] in
  let st1 := (register_shutdown_signals MainThread [SIGTERM] st).2 in
  register_shutdown_signals MainThread [SIGTERM; 9; SIGINT] st
  = (Raise invalid_argument, st1)
  /\ SIGTERM ∈ shutdown_signals (self st1)
  /\ SIGINT ∉ shutdown_signals (self st1).
Proof.
  intros st st1.
  assert (Hpre : register_shutdown_signals MainThread [SIGTERM] st
                 = (Ok tt, st1)) by (vm_compute; reflexivity).
  assert (Hnew : 9 ∉ shutdown_signals (self st1))
    by (apply (bool_decide_unpack _); vm_compute; exact I).
  destruct (register_shutdown_signals_failure MainThread [SIGTERM] 9 [SIGINT]
              invalid_argument st st1 Hpre Hnew eq_refl)
    as (Hraise & Hkept & Hleft).
  split_and!.
  - exact Hraise.
  - apply Hkept. apply elem_of_cons. by left.
  - apply Hleft.
    + apply elem_of_cons. right. apply elem_of_cons. by left.
    + apply (bool_decide_unpack _). vm_compute. exact I.
    + apply (bool_decide_unpack _). vm_compute. exact I.
Defined.

Lemma join_again_runs_join_callables_again_witness :
  let st :=
    thread_run 10
      (start (Some 5)
         (fresh (Some [always_true; false_on_third]) (Some [flush])
            (Some [close; faulty; flush]) (Some [SIGTERM; SIGABRT]) [])).2 in
  exists st1 st2 d1 d2,
    join st = (Ok tt, st1)
    /\ join st1 = (Ok tt, st2)
    /\ trace st2
       = trace st ++ (d1 ++ [Log INFO ShutdownComplete])
                  ++ (d2 ++ [Log INFO ShutdownComplete])
    /\ calls JoinCallable d1 = ["close"; "faulty"; "flush"]
    /\ calls JoinCallable d2 = ["close"; "faulty"; "flush"].
Proof.
  intros st.
  assert (Hover : thread (self st) = Stopped) by (vm_compute; reflexivity).
  assert (Hjc : join_callables (self st) = Some [close; faulty; flush])
    by (vm_compute; reflexivity).
  apply (join_again_runs_join_callables_again [close; faulty; flush] st
           Hover Hjc).
  repeat constructor; intros w ex; simpl; try discriminate.
  intros [= <-]. reflexivity.
Defined.

Lemma unregistered_sentinel_ends_the_thread_witness :
  let st :=
    (start (Some 5)
       (fresh (Some [always_true; unhealthy]) (Some [flush]) None
          (Some [SIGTERM; SIGINT]) [])).2 in
  let st' := thread_run 10 st in
  calls MonitorCallable (trace st') = []
  /\ thread (self st') = Stopped
  /\ exists d, trace st' = trace st ++ d ++ [ThreadExit (Some not_main_thread)].
Proof.
  intros st st'.
  assert (Hnew : SIGABRT ∉ shutdown_signals (self st))
    by (apply (bool_decide_unpack _); vm_compute; exact I).
  destruct (unregistered_sentinel_ends_the_thread 10 st not_main_thread
              eq_refl Hnew eq_refl) as (Hcalls & _ & _ & Hend).
  assert (Hnone : signal (self st') = None) by (vm_compute; reflexivity).
  assert (Hdelay : start_delay (self st) <> None) by discriminate.
  destruct (Hend Hnone Hdelay) as [Hover Htrace].
  split_and!; [|exact Hover|exact Htrace].
  fold st' in Hcalls. rewrite Hcalls. vm_compute. reflexivity.
Defined.


Lemma start_without_delay_never_probes_witness :
  let quiet_start :=
    (start None
       (fresh (Some [always_true]) (Some [flush]) None
          (Some [SIGTERM; SIGABRT]) [])).2 in
  let signalled :=
    (start None
       (fresh (Some [always_true]) (Some [flush]) None
          (Some [SIGTERM; SIGABRT]) [[SIGTERM]])).2 in
  calls MonitorCallable (trace (thread_run 10 quiet_start)) = []
  /\ thread (self (thread_run 10 quiet_start)) = Started
  /\ calls MonitorCallable (trace (thread_run 10 signalled)) = []
  /\ thread (self (thread_run 10 signalled)) = Stopped.
Proof.
  intros quiet_start signalled.
  destruct (start_without_delay_never_probes 10 quiet_start
              eq_refl eq_refl eq_refl eq_refl) as (Hc1 & _ & _ & Hend1).
  destruct (start_without_delay_never_probes 10 signalled
              eq_refl eq_refl eq_refl eq_refl) as (Hc2 & _ & _ & Hend2).
  assert (Hnone : signal (self (thread_run 10 quiet_start)) = None)
    by (vm_compute; reflexivity).
  assert (Hsome : signal (self (thread_run 10 signalled)) = Some SIGTERM)
    by (vm_compute; reflexivity).
  rewrite Hnone in Hend1. rewrite Hsome in Hend2.
  split_and!.
  - rewrite Hc1. vm_compute. reflexivity.
  - by destruct Hend1.
  - rewrite Hc2. vm_compute. reflexivity.
  - by destruct Hend2.
Defined.

Lemma register_callables_shares_the_list_witness :
  let store : gmap nat (list (callable nat)) :=
    <[0%nat := [flush]]> (<[1%nat := [close]]> ∅) in
  let first := Shared.register 0%nat None store in
  let second := Shared.register 1%nat first.1 first.2 in
  second.1 = Some 0%nat
  /\ Shared.contents second.2 0%nat
     = Shared.contents store 0%nat ++ Shared.contents store 1%nat.
Proof.
  intros store first second.
  assert (Hgiven : Shared.contents store 0%nat <> [])
    by (vm_compute; discriminate).
  destruct (register_callables_shares_the_list (World := nat)
              0%nat 1%nat None store) as [_ Hshare].
  destruct (Hshare eq_refl Hgiven) as (_ & Hattr & Hlist & _).
  split; [exact Hattr|exact Hlist].
Defined.

Lemma shutdown_is_triggered_at_most_once_witness :
  let st :=
    lifecycle [Start (Some 5); Deliver SIGTERM]
      (fresh (Some [always_true]) (Some [flush]) (Some [close])
         (Some [SIGTERM; SIGINT; SIGABRT]) []) in
  let st' := lifecycle [Deliver SIGINT; RunThread 3; Deliver SIGABRT; Join] st in
  signal (self st) = Some SIGTERM
  /\ signal (self st') = Some SIGTERM
  /\ sets (trace st') = 1%nat.
Proof.
  intros st st'.
  assert (Hcause : signal (self st) = Some SIGTERM)
    by (vm_compute; reflexivity).
  destruct (shutdown_is_triggered_at_most_once MainThread
              (objects (Some [always_true]) (Some [flush]) (Some [close]))
              (Some 0%nat) (Some 1%nat) (Some 2%nat)
              (Some [SIGTERM; SIGINT; SIGABRT]) 2 0%nat ∅ []
              [Start (Some 5); Deliver SIGTERM]
              [Deliver SIGINT; RunThread 3; Deliver SIGABRT; Join])
    as [_ Hkept].
  destruct (Hkept SIGTERM Hcause) as [Hlater Honce].
  split_and!; [exact Hcause|exact Hlater|exact Honce].
Defined.

Lemma thread_only_moves_forward_witness :
  let st :=
    thread_run 10
      (start (Some 5)
         (fresh (Some [always_true; false_on_third]) (Some [flush])
            (Some [close]) (Some [SIGTERM; SIGABRT]) [])).2 in
  let st' := lifecycle [Start (Some 1); RunThread 5; Deliver SIGTERM; Join] st in
  thread (self st) = Stopped
  /\ thread (self st') = Stopped
  /\ calls MonitorCallable (trace st') = calls MonitorCallable (trace st)
  /\ (join st').1 <> Stuck.
Proof.
  intros st st'.
  assert (Hover : thread (self st) = Stopped) by (vm_compute; reflexivity).
  destruct (thread_only_moves_forward
              [Start (Some 1); RunThread 5; Deliver SIGTERM; Join] st)
    as [_ Hstays].
  destruct (Hstays Hover) as (Hstill & Hcalls & Hjoin).
  split_and!; [exact Hover|exact Hstill|exact Hcalls|exact Hjoin].
Defined.

Lemma handle_shutdown_race_for_any_instance_witness :
  let st := fresh None (Some [flush; close; faulty]) None
              (Some [SIGINT; SIGTERM]) [] in
  exists schedule st' d,
    run_schedule schedule [(SIGINT, L58); (SIGTERM, L58)] st
    = ([(SIGINT, Returned); (SIGTERM, Returned)], st')
    /\ trace st' = trace st ++ d
    /\ sets d = 2%nat
    /\ calls ShutdownCallable d
       = ["flush"; "close"; "faulty"; "flush"; "close"; "faulty"]
    /\ signal (self st') = Some SIGTERM.
Proof.
  intros st.
  assert (Hint : Signals SIGINT = Some "SIGINT") by (vm_compute; reflexivity).
  assert (Hterm : Signals SIGTERM = Some "SIGTERM")
    by (vm_compute; reflexivity).
  assert (Hne : [flush; close; faulty] <> []) by discriminate.
  apply (handle_shutdown_race_for_any_instance SIGINT SIGTERM
           "SIGINT" "SIGTERM" [flush; close; faulty] st
           eq_refl Hint Hterm eq_refl Hne).
  repeat constructor; intros w ex; simpl; try discriminate.
  intros [= <-]. reflexivity.
Defined.

Lemma get_exception_str_lines_witness :
  get_exception_str TypeError_not_iterable
  = [Text.of_string "TypeError: 'NoneType' object is not iterable"]
  /\ get_exception_str
       (Exc true [Text.of_string "ValueError: first"
                    ++ Text.newline :: Text.of_string "second"
                    ++ [Text.newline]])
     = [Text.of_string "ValueError: first second"].
Proof.
  assert (Hclean : forall s : string,
            bool_decide (Clean.has_newline (Text.of_string s) = false
                         /\ Clean.first_space (Text.of_string s) = false
                         /\ Clean.last_space (Text.of_string s) = false)
            = true -> Clean.clean (Text.of_string s)).
  { intros s Hs. by apply bool_decide_eq_true in Hs. }
  destruct (CleanFacts.get_exception_str_lines true
              [Text.of_string "TypeError: 'NoneType' object is not iterable"]
              (Text.of_string "ValueError: first") (Text.of_string "second"))
    as [Hone Htwo].
  - constructor; [|constructor]. apply Hclean. vm_compute. reflexivity.
  - apply Hclean. vm_compute. reflexivity.
  - apply Hclean. vm_compute. reflexivity.
  - discriminate.
  - discriminate.
  - split; [exact Hone|exact Htwo].
Defined.

Lemma register_callables_compose_witness :
  let st :=
    (init MainThread (<[0%nat := [flush]]> (<[1%nat := [close]]> ∅))
       (Some 0%nat) (Some 0%nat) None None 2 0%nat ∅ []).2 in
  let st1 := (register_shutdown_callables 1 st).2 in
  let st2 := (register_shutdown_callables 1 st1).2 in
  monitor_callables (self st) = Some [flush]
  /\ monitor_callables (self st1) = Some [flush; close]
  /\ shutdown_callables (self st2) = Some [flush; close; close].
Proof.
  intros st st1 st2.
  destruct (register_callables_compose 1%nat 1%nat st)
    as (_ & _ & Htwo & Hshared & _).
  split_and!.
  - vm_compute. reflexivity.
  - etrans; [apply Hshared; [vm_compute; reflexivity|reflexivity]|].
    vm_compute. reflexivity.
  - etrans; [apply Htwo; intros _; discriminate|].
    vm_compute. reflexivity.
Defined.
